(** * NoiseMapper: hotspot aggregation, severity listing, report ingestion
      and the client-side geo and audio helpers.

    Sources embedded here:
    - [supabase-schema.sql]: the tables [reports] and [hotspots], the trigger
      function [update_updated_at_column] and the clustering trigger
      function [aggregate_reports_to_hotspots];
    - [lib/supabase.ts]: [hotspots.getAll] and [reports.create];
    - the [useReports] hook: [createReportMutation];
    - [lib/utils.ts]: [locationUtils.calculateDistance],
      [audioUtils.calculateDbFromAudio] and [validationUtils].

    Numbers.  In the database ([Schema]) the FLOAT8 values the trigger
    computes with, [noise_db] and [avg_noise_db], are binary64 numbers
    (primitive floats) under PostgreSQL's operators, which round as IEEE 754
    prescribes and raise range errors; [noise_db] may be NULL.
    [report_count INT] is an integer that PostgreSQL refuses to take beyond
    32 bits.  Coordinates and distances are only compared and are kept as
    the rationals they denote.  The numbers of a submission are JS numbers:
    binary64 too, NaN and the infinities among them.  The helpers of the
    client that compare a finite number with constants (levels, colours,
    texts, filters) and the listing read exact rationals ([Q]).  The two
    helpers of [utils.ts] that call transcendental functions are modelled
    over the reals ([R]), with the IEEE special values they can meet made
    explicit; [calculateDistance] is modelled a second time on binary64
    numbers ([Binary64]), with the engine's [Math.sin], [Math.cos] and
    [Math.atan2] as parameters.

    Environment.  PostGIS ([ST_Distance], [ST_DWithin]) is not part of the
    repository: the distance is a parameter of the development and
    [ST_DWithin] is its documented comparison with the radius.  The values
    of [uuid_generate_v4()] and [NOW()] are inputs.  A table is the list of
    its rows in the order a scan yields them.

    Roles.  The trigger function runs with the rights of the role that
    inserts the report, and [hotspots] is under row-level security with a
    policy for [SELECT] only.  [Schema.aggregate_reports_to_hotspots] is the
    function under a role that may write [hotspots];
    [Schema.aggregate_reports_to_hotspots_rls] is the function as a client
    of the API runs it, which is how [createReportMutation] reaches it. *)

From Stdlib Require Import Floats.
From Stdlib Require Import String.
From Stdlib Require Import List ZArith NArith QArith Qabs Bool.
From Stdlib Require Import Lia Lqa Permutation Sorted.
From Stdlib Require Import Reals Lra.
Import ListNotations.

(* ================================================================== *)
(** * Part I.  Definitions                                              *)
(* ================================================================== *)

(** ** SQL values and errors *)

(** [UUID] columns: 128-bit values, compared as unsigned numbers.  The
    defaults [uuid_generate_v4()] and [NOW()] are inputs of the environment. *)
Definition UUID := N.
Definition timestamptz := Z.

(** The SQLSTATE conditions the modelled statements can raise. *)
Inductive sqlstate : Type :=
| unique_violation            (* 23505: PRIMARY KEY on hotspots.id *)
| check_violation             (* 23514: CHECK constraints of reports *)
| numeric_value_out_of_range  (* 22003: beyond INT, or a FLOAT8 overflow or underflow *)
| not_null_violation          (* 23502: a NULL for a NOT NULL column *)
| division_by_zero            (* 22012 *)
| invalid_text_representation (* 22P02: the empty string given for a uuid *)
| foreign_key_violation       (* 23503: reports.user_id REFERENCES users(id) *)
| insufficient_privilege.     (* 42501: row-level security policy *)

Inductive result (A : Type) : Type :=
| Ok (a : A)
| Err (e : sqlstate).
Arguments Ok {A} a.
Arguments Err {A} e.

Definition bind {A B} (m : result A) (k : A -> result B) : result B :=
  match m with
  | Ok a => k a
  | Err e => Err e
  end.

Notation "x <- m ;; k" := (bind m (fun x => k))
  (at level 61, m at next level, right associativity).

(** ** Rows *)

(** [GEOGRAPHY(POINT, 4326)]: a longitude/latitude pair in degrees. *)
Record Geography : Type := ST_MakePoint { ST_X : Q; ST_Y : Q }.

(** *** Rows as the client holds them

    The interfaces [Report] and [Hotspot] of the client, restricted to the
    properties the modelled code reads: the objects the list helpers and the
    store filter, and the rows [hotspots.getAll] returns.  Their numbers are
    finite. *)
Record Report : Type := mkReport {
  user_id      : option UUID;
  latitude     : Q;
  longitude    : Q;
  noise_db     : Q;
  noise_type   : string;
  is_anonymous : bool;
  status       : string
}.

Record Hotspot : Type := mkHotspot {
  id            : UUID;
  location      : Geography;
  avg_noise_db  : Q;
  report_count  : Z;
  created_at    : timestamptz;
  updated_at    : timestamptz
}.

Arguments mkHotspot _%_N _ _%_Q _%_Z _%_Z _%_Z.

(** Largest value of the SQL type [INT]. *)
Definition int4_max : Z := 2147483647.

(** ** Relational operators *)

(** [ORDER BY]: a stable sort by insertion; rows that compare equal keep the
    order in which the scan produced them. *)
Fixpoint insert_row {A} (le : A -> A -> bool) (x : A) (l : list A) : list A :=
  match l with
  | [] => [x]
  | y :: l' => if le x y then x :: y :: l' else y :: insert_row le x l'
  end.

Definition order_by {A} (le : A -> A -> bool) (l : list A) : list A :=
  fold_right (insert_row le) [] l.

(** [LIMIT n]. *)
Definition limit {A} (n : nat) (l : list A) : list A := firstn n l.

(** ** [hotspots.getAll] of [lib/supabase.ts]

    [let query = supabase.from('hotspots').select('*');
     if (limit) { query = query.limit(limit); }
     ... await query.order('avg_noise_db', { ascending: false })]
    The request carries [order=avg_noise_db.desc] and, when [limit] is
    truthy, [limit=<limit>]; [undefined] and [0] are falsy. *)
Definition avg_noise_db_desc (a b : Hotspot) : bool :=
  Qle_bool (avg_noise_db b) (avg_noise_db a).

Definition getAll (lim : option N) (table : list Hotspot) : list Hotspot :=
  let rows := order_by avg_noise_db_desc table in
  match lim with
  | Some n => if (n =? 0)%N then rows else limit (N.to_nat n) rows
  | None => rows
  end.

(** The order the specification words ask of [listBySeverityDesc]:
    [averageDecibels] descending, ties broken by [reportCount] descending,
    then [id] ascending. *)
Definition spec_severity_order (a b : Hotspot) : Prop :=
  avg_noise_db b < avg_noise_db a \/
  (avg_noise_db a == avg_noise_db b /\
   ((report_count b < report_count a)%Z \/
    (report_count a = report_count b /\ (id a <= id b)%N))).

(** ** [constants/Config.ts] *)

Module NOISE_THRESHOLDS.
Definition low : Q := 60.
Definition moderate : Q := 75.
Definition high : Q := 90.
End NOISE_THRESHOLDS.

(** JS [a < b] on finite numbers. *)
Definition Qlt_bool (a b : Q) : bool := negb (Qle_bool b a).

(** ** [lib/utils.ts]: the helpers over JS numbers *)

(** A JS number: a real, or one of the IEEE special values. *)
Inductive number : Type :=
| Finite (x : R)
| Infinity
| NegInfinity
| NaN.

Module Math.
Local Open Scope R_scope.

(** [Math.atan2(y, x)]; a zero argument is the positive zero. *)
Definition atan2 (y x : R) : R :=
  if Rlt_dec 0 x then atan (y / x)
  else if Rlt_dec x 0 then
         (if Rle_dec 0 y then atan (y / x) + PI else atan (y / x) - PI)
  else if Rlt_dec 0 y then PI / 2
  else if Rlt_dec y 0 then - (PI / 2)
  else 0.

(** [Math.log10] of a finite number. *)
Definition log10 (x : R) : number :=
  if Rlt_dec 0 x then Finite (ln x / ln 10)
  else if Req_dec_T x 0 then NegInfinity
  else NaN.

(** [c * x] for a finite positive constant [c]. *)
Definition scale (c : R) (x : number) : number :=
  match x with
  | Finite r => Finite (c * r)
  | other => other
  end.

Definition abs (x : number) : number :=
  match x with
  | Finite r => Finite (Rabs r)
  | Infinity | NegInfinity => Infinity
  | NaN => NaN
  end.

(** [Math.min(c, x)] and [Math.max(c, x)] for a finite [c]. *)
Definition min (c : R) (x : number) : number :=
  match x with
  | Finite r => Finite (Rmin c r)
  | Infinity => Finite c
  | NegInfinity => NegInfinity
  | NaN => NaN
  end.

Definition max (c : R) (x : number) : number :=
  match x with
  | Finite r => Finite (Rmax c r)
  | Infinity => Infinity
  | NegInfinity => Finite c
  | NaN => NaN
  end.

End Math.

Module locationUtils.
Local Open Scope R_scope.

(** [calculateDistance(lat1, lon1, lat2, lon2)], over the reals: the value
    of the formula where no operation rounds.  [Binary64.calculateDistance]
    below is the function on binary64 numbers. *)
Definition calculateDistance (lat1 lon1 lat2 lon2 : R) : R :=
  let R := 6371 in
  let dLat := (lat2 - lat1) * PI / 180 in
  let dLon := (lon2 - lon1) * PI / 180 in
  let a :=
    sin (dLat / 2) * sin (dLat / 2) +
    cos (lat1 * PI / 180) * cos (lat2 * PI / 180) *
    sin (dLon / 2) * sin (dLon / 2) in
  let c := 2 * Math.atan2 (sqrt a) (sqrt (1 - a)) in
  R * c.

End locationUtils.

Module audioUtils.
Local Open Scope R_scope.

(** [calculateDbFromAudio(audioData)]; [None] is a missing ([null] or
    [undefined]) argument.  Samples are finite numbers. *)
Definition calculateDbFromAudio (audioData : option (list R)) : number :=
  match audioData with
  | None => Finite 0
  | Some samples =>
      if Nat.eqb (List.length samples) 0 then Finite 0
      else
        let sum := fold_left (fun acc sample => acc + sample * sample) samples 0 in
        let rms := sqrt (sum / INR (List.length samples)) in
        let db := Math.scale 20 (Math.log10 (rms / 32767)) in
        Math.max 0 (Math.min 120 (Math.abs db))
  end.

(** [getAudioLevelDescription(db)]. *)
Definition getAudioLevelDescription (db : Q) : string :=
  if Qlt_bool db 40%Q then "Very quiet"
  else if Qlt_bool db 60%Q then "Quiet"
  else if Qlt_bool db 75%Q then "Moderate"
  else if Qlt_bool db 90%Q then "Loud"
  else "Very loud".

End audioUtils.

Module validationUtils.

(** [isValidNoiseLevel] and [isValidCoordinates], on finite numbers.  No
    other code of the repository calls them. *)
Definition isValidNoiseLevel (db : Q) : bool :=
  Qle_bool 0 db && Qle_bool db 120.

Definition isValidCoordinates (lat lng : Q) : bool :=
  Qle_bool (-90) lat && Qle_bool lat 90 &&
  Qle_bool (-180) lng && Qle_bool lng 180.

End validationUtils.

Module noiseUtils.

(** [getNoiseLevel(db)]. *)
Definition getNoiseLevel (db : Q) : string :=
  if Qlt_bool db NOISE_THRESHOLDS.low then "low"
  else if Qlt_bool db NOISE_THRESHOLDS.moderate then "moderate"
  else "high".

(** [getNoiseColor(db)]: a [switch] on the level, with its [default]. *)
Definition getNoiseColor (db : Q) : string :=
  let level := getNoiseLevel db in
  if String.eqb level "low" then "#10B981"
  else if String.eqb level "moderate" then "#F59E0B"
  else if String.eqb level "high" then "#EF4444"
  else "#6B7280".

(** [getHealthRisk(db)]. *)
Definition getHealthRisk (db : Q) : string :=
  if Qlt_bool db 60 then "Safe - No immediate health concerns"
  else if Qlt_bool db 75
       then "Caution - May cause annoyance and sleep disturbance"
  else if Qlt_bool db 90
       then "Warning - Can lead to stress and hearing damage"
  else "Danger - Immediate risk of hearing loss and health issues".

End noiseUtils.

Module MapScreen.

(** [getMarkerColor(noiseDb)] of [app/(tabs)/map.tsx]. *)
Definition getMarkerColor (noiseDb : Q) : string :=
  if Qlt_bool noiseDb NOISE_THRESHOLDS.low then "#10B981"
  else if Qlt_bool noiseDb NOISE_THRESHOLDS.moderate then "#F59E0B"
  else if Qlt_bool noiseDb NOISE_THRESHOLDS.high then "#F97316"
  else "#EF4444".

End MapScreen.

Module dateUtils.
Local Open Scope Z_scope.

(** The texts the two functions build.  [Ago n u] is the template
    [`${n}${u} ago`]; [LocaleDateString] is [date.toLocaleDateString()]. *)
Inductive text : Type :=
| Just_now
| Ago (n : Z) (unit : string)
| LocaleDateString (date : Z).

(** [formatTimestamp(timestamp)], on the milliseconds of [new Date()] and of
    [new Date(timestamp)]; [Math.floor] of the quotients is [Z.div]. *)
Definition formatTimestamp (now date : Z) : text :=
  let diffMs := now - date in
  let diffMins := diffMs / 60000 in
  let diffHours := diffMs / 3600000 in
  let diffDays := diffMs / 86400000 in
  if diffMins <? 1 then Just_now
  else if diffMins <? 60 then Ago diffMins "m"
  else if diffHours <? 24 then Ago diffHours "h"
  else if diffDays <? 7 then Ago diffDays "d"
  else LocaleDateString date.

(** [getTimeAgo(date)]. *)
Definition getTimeAgo (now date : Z) : text :=
  let diffMs := now - date in
  if diffMs <? 60000 then Just_now
  else if diffMs <? 3600000 then Ago (diffMs / 60000) "m"
  else if diffMs <? 86400000 then Ago (diffMs / 3600000) "h"
  else Ago (diffMs / 86400000) "d".

End dateUtils.

(** ** The list helpers of the [useReports] hook and of the store

    [getReportsByType], [getHighNoiseReports] (hook) and
    [getHighNoiseHotspots] (store): [Array.prototype.filter]. *)
Definition getReportsByType (type : string) (reports : list Report)
  : list Report :=
  filter (fun report => String.eqb (noise_type report) type) reports.

Definition getHighNoiseReports (reports : list Report) : list Report :=
  filter (fun report => Qle_bool 75 (noise_db report)) reports.

Definition getHighNoiseHotspots (hotspots : list Hotspot) : list Hotspot :=
  filter (fun hotspot => Qle_bool 75 (avg_noise_db hotspot)) hotspots.

(* ------------------------------------------------------------------ *)
(** ** [supabase-schema.sql]: the tables and the aggregation trigger    *)
(* ------------------------------------------------------------------ *)

Fixpoint set_nth {A} (k : nat) (x : A) (l : list A) : list A :=
  match l, k with
  | [], _ => []
  | _ :: l', O => x :: l'
  | y :: l', S k' => y :: set_nth k' x l'
  end.

Definition Qsum (l : list Q) : Q := fold_right Qplus 0 l.

Definition mean (l : list Q) : Q := Qsum l / inject_Z (Z.of_nat (length l)).

(** [cluster_radius FLOAT8 := 0.001]: the binary64 number nearest to one
    thousandth, [0x1.0624dd2f1a9fcp-10], as the rational it is. *)
Definition cluster_radius : Q := 1152921504606847 # 1152921504606846976.

(** The database as PostgreSQL evaluates it.  [avg_noise_db] and [noise_db]
    are binary64 numbers, and the operators of the trigger's [SET] list are
    PostgreSQL's: they round as IEEE 754 prescribes and raise an error where
    C would return an infinity from finite operands or a zero from non-zero
    ones.  [noise_db] may be NULL.  Coordinates and distances are compared
    only, so they are kept as the rationals they denote. *)
Module Schema.

Definition float8 : Set := PrimFloat.float.
Bind Scope float_scope with float8.

Definition int4_min : Z := -2147483648.

(** C's [isinf(x)] and [x == 0.0]. *)
Definition isinf (x : float8) : bool :=
  PrimFloat.eqb (PrimFloat.abs x) PrimFloat.infinity.

Definition is_zero (x : float8) : bool := PrimFloat.eqb x PrimFloat.zero.

(** [float8_pl], [float8_mul] and [float8_div] of PostgreSQL's
    [utils/float.h], which implement [+], [*] and [/] on [FLOAT8]; both range
    errors carry SQLSTATE 22003. *)
Definition float8_pl (val1 val2 : float8) : result float8 :=
  let r := PrimFloat.add val1 val2 in
  if isinf r && negb (isinf val1) && negb (isinf val2)
  then Err numeric_value_out_of_range
  else Ok r.

Definition float8_mul (val1 val2 : float8) : result float8 :=
  let r := PrimFloat.mul val1 val2 in
  if isinf r && negb (isinf val1) && negb (isinf val2)
  then Err numeric_value_out_of_range
  else if is_zero r && negb (is_zero val1) && negb (is_zero val2)
  then Err numeric_value_out_of_range
  else Ok r.

Definition float8_div (val1 val2 : float8) : result float8 :=
  if is_zero val2 && negb (PrimFloat.is_nan val1) then Err division_by_zero
  else
    let r := PrimFloat.div val1 val2 in
    if isinf r && negb (isinf val1) then Err numeric_value_out_of_range
    else if is_zero r && negb (is_zero val1) && negb (isinf val2)
    then Err numeric_value_out_of_range
    else Ok r.

(** [float8_cmp_internal]: the order of the comparison operators on
    [FLOAT8], in which NaN equals NaN and is greater than every number. *)
Definition float8_le (a b : float8) : bool :=
  if PrimFloat.is_nan a then PrimFloat.is_nan b
  else if PrimFloat.is_nan b then true
  else PrimFloat.leb a b.

(** [int4pl]: [+] on [INT]. *)
Definition int4pl (arg1 arg2 : Z) : result Z :=
  let r := (arg1 + arg2)%Z in
  if (r <? int4_min)%Z || (int4_max <? r)%Z
  then Err numeric_value_out_of_range
  else Ok r.

(** [i4tod]: the cast from [INT] to [FLOAT8], exact on the whole of [INT]
    (the model's integers are unbounded; a [report_count] of the database
    lies within [INT]). *)
Definition i4tod (num : Z) : float8 :=
  if (num <? 0)%Z
  then PrimFloat.opp (PrimFloat.of_uint63 (Uint63.of_Z (- num)))
  else PrimFloat.of_uint63 (Uint63.of_Z num).

(** The rational a finite binary64 number denotes, in lowest terms. *)
Definition float8_value (x : float8) : option Q :=
  match FloatOps.Prim2SF x with
  | SpecFloat.S754_zero _ => Some 0
  | SpecFloat.S754_finite s m e =>
      let q := if (0 <=? e)%Z then inject_Z (Zpos m * 2 ^ e)
               else Zpos m # (2 ^ Z.to_pos (- e)) in
      Some (Qred (if s then - q else q))
  | _ => None
  end.

(** A row of [reports], restricted to the columns the modelled code reads;
    [id], [description], [media_urls] and [timestamp] are opaque to all of
    it.  [noise_db FLOAT8] admits NULL. *)
Record Report : Type := mkReport {
  user_id      : option UUID;
  latitude     : Q;
  longitude    : Q;
  noise_db     : option float8;
  noise_type   : string;
  is_anonymous : bool;
  status       : string
}.

(** The generated column
    [location GEOGRAPHY(POINT, 4326) GENERATED ALWAYS AS
       (ST_SetSRID(ST_MakePoint(longitude, latitude), 4326)) STORED].
    The pair is kept as given; no statement of the schema bounds it. *)
Definition report_location (r : Report) : Geography :=
  ST_MakePoint (longitude r) (latitude r).

(** A row of [hotspots]. *)
Record Hotspot : Type := mkHotspot {
  id            : UUID;
  location      : Geography;
  avg_noise_db  : float8;
  report_count  : Z;
  created_at    : timestamptz;
  updated_at    : timestamptz
}.

Arguments mkHotspot _%_N _ _%_float _%_Z _%_Z _%_Z.

(** The [SET] list of the trigger's [UPDATE] on the values of one row:
    [avg_noise_db = ((avg_noise_db * report_count) + NEW.noise_db)
                    / (report_count + 1)], [report_count = report_count + 1].
    Every expression reads the old row.  The operators are strict: with a
    NULL operand they are not called and yield NULL, which
    [avg_noise_db FLOAT8 NOT NULL] then refuses. *)
Definition set_list (avg : float8) (count : Z) (db : option float8)
  : result (float8 * Z) :=
  product <- float8_mul avg (i4tod count) ;;
  sum <- match db with
         | Some d => s <- float8_pl product d ;; Ok (Some s)
         | None => Ok None
         end ;;
  count1 <- int4pl count 1 ;;
  quotient <- match sum with
              | Some s => q <- float8_div s (i4tod count1) ;; Ok (Some q)
              | None => Ok None
              end ;;
  count' <- int4pl count 1 ;;
  match quotient with
  | Some q => Ok (q, count')
  | None => Err not_null_violation
  end.

(** The average and the count of a hotspot founded with the reading [d]
    that then absorbed the readings [ds]. *)
Fixpoint absorb_readings (s : float8 * Z) (ds : list float8)
  : result (float8 * Z) :=
  match ds with
  | [] => Ok s
  | d :: ds' =>
      s' <- set_list (fst s) (snd s) (Some d) ;; absorb_readings s' ds'
  end.

Definition running_mean (d : float8) (ds : list float8) : result (float8 * Z) :=
  absorb_readings (d, 1%Z) ds.

Section Trigger.

(** PostGIS [ST_Distance(geography, geography)]. *)
Variable ST_Distance : Geography -> Geography -> Q.

(** PostGIS [ST_DWithin(a, b, r)]: true when the distance is at most [r]. *)
Definition ST_DWithin (a b : Geography) (r : Q) : bool :=
  Qle_bool (ST_Distance a b) r.

(** The comparison of [ORDER BY ST_Distance(location, NEW.location)]. *)
Definition nearer (p : Geography) (a b : Hotspot) : bool :=
  Qle_bool (ST_Distance (location a) p) (ST_Distance (location b) p).

(** [SELECT * INTO hotspot_record FROM hotspots
     WHERE ST_DWithin(location, NEW.location, cluster_radius)
     ORDER BY ST_Distance(location, NEW.location) LIMIT 1].
    [SELECT INTO] keeps the first row of the result, or leaves the record
    null when there is none.  The argument list is the table in scan order. *)
Definition select_nearest (hotspots : list Hotspot) (p : Geography) (radius : Q)
  : option Hotspot :=
  hd_error
    (limit 1
       (order_by (nearer p)
          (filter (fun h => ST_DWithin (location h) p radius) hotspots))).

(** One row under the [UPDATE]: the [SET] list, then the [BEFORE UPDATE]
    trigger [update_updated_at_column], which stores [NOW()] in
    [updated_at] once more. *)
Definition update_updated_at_column (now : timestamptz) (NEW : Hotspot) : Hotspot :=
  mkHotspot (id NEW) (location NEW) (avg_noise_db NEW) (report_count NEW)
            (created_at NEW) now.

Definition set_absorbed (now : timestamptz) (db : option float8) (h : Hotspot)
  : result Hotspot :=
  s <- set_list (avg_noise_db h) (report_count h) db ;;
  Ok (update_updated_at_column now
        (mkHotspot (id h) (location h) (fst s) (snd s) (created_at h) now)).

(** [UPDATE hotspots SET ... WHERE id = hotspot_record.id].  An error on one
    row aborts the statement.  The model leaves an updated row at its place
    in the scan; PostgreSQL may store the new version elsewhere. *)
Fixpoint update_hotspots (now : timestamptz) (db : option float8)
    (target : UUID) (hotspots : list Hotspot) : result (list Hotspot) :=
  match hotspots with
  | [] => Ok []
  | h :: rest =>
      h' <- (if (id h =? target)%N then set_absorbed now db h else Ok h) ;;
      rest' <- update_hotspots now db target rest ;;
      Ok (h' :: rest')
  end.

(** [INSERT INTO hotspots (location, avg_noise_db, report_count)
     VALUES (NEW.location, NEW.noise_db, 1)]; [id], [created_at] and
    [updated_at] take their defaults, [avg_noise_db] is [NOT NULL] and the
    primary key is enforced. *)
Definition insert_hotspot (uuid : UUID) (now : timestamptz)
    (p : Geography) (db : option float8) (hotspots : list Hotspot)
  : result (list Hotspot) :=
  match db with
  | None => Err not_null_violation
  | Some d =>
      if existsb (fun h => (id h =? uuid)%N) hotspots then Err unique_violation
      else Ok (hotspots ++ [mkHotspot uuid p d 1 now now])
  end.

(** [aggregate_reports_to_hotspots()], run [AFTER INSERT ON reports FOR EACH
    ROW], under a role that may write [hotspots] (the owner of the table, or
    a role that bypasses row-level security).  [hotspot_record IS NOT NULL]
    holds for every row found: the rows of the model hold no null. *)
Definition aggregate_reports_to_hotspots (uuid : UUID) (now : timestamptz)
    (NEW : Report) (hotspots : list Hotspot) : result (list Hotspot) :=
  match select_nearest hotspots (report_location NEW) cluster_radius with
  | Some hotspot_record =>
      update_hotspots now (noise_db NEW) (id hotspot_record) hotspots
  | None =>
      insert_hotspot uuid now (report_location NEW) (noise_db NEW) hotspots
  end.

(** The same function run for a client of the API.  The schema enables
    row-level security on [hotspots] and declares a policy for [SELECT]
    only, and the function runs with the rights of the role that inserts
    the report.  The [SELECT] sees every row; the [UPDATE] finds no row it
    may update and changes nothing, without an error and without
    evaluating its [SET] list; the [INSERT] is refused. *)
Definition aggregate_reports_to_hotspots_rls (NEW : Report)
    (hotspots : list Hotspot) : result (list Hotspot) :=
  match select_nearest hotspots (report_location NEW) cluster_radius with
  | Some hotspot_record => Ok hotspots
  | None => Err insufficient_privilege
  end.

(** The hotspot a report is absorbed into: the row found, or the new one. *)
Definition absorbing_hotspot (uuid : UUID) (NEW : Report)
    (hotspots : list Hotspot) : UUID :=
  match select_nearest hotspots (report_location NEW) cluster_radius with
  | Some hotspot_record => id hotspot_record
  | None => uuid
  end.

(** *** Histories

    One insertion into [reports] that reaches the trigger, with the values
    the environment supplies to it. *)
Record Insertion : Type := mkInsertion {
  ins_uuid : UUID;
  ins_now  : timestamptz;
  ins_row  : Report
}.

(** The table together with the record of which hotspot absorbed which
    report (oldest first).  The record is a ghost: no code reads it. *)
Record Store : Type := mkStore {
  hotspots : list Hotspot;
  absorbed : list (UUID * Report)
}.

Definition empty_store : Store := mkStore [] [].

(** A failing trigger aborts the insertion: nothing changes. *)
Definition absorb (i : Insertion) (s : Store) : Store :=
  match aggregate_reports_to_hotspots (ins_uuid i) (ins_now i) (ins_row i)
          (hotspots s) with
  | Ok hs' =>
      mkStore hs'
        (absorbed s ++ [(absorbing_hotspot (ins_uuid i) (ins_row i) (hotspots s),
                         ins_row i)])
  | Err _ => s
  end.

Definition absorb_all (l : list Insertion) (s : Store) : Store :=
  fold_left (fun s i => absorb i s) l s.

(** The same run, failing as soon as one trigger invocation fails. *)
Fixpoint aggregate_all (l : list Insertion) (hs : list Hotspot)
  : result (list Hotspot) :=
  match l with
  | [] => Ok hs
  | i :: l' =>
      hs' <- aggregate_reports_to_hotspots (ins_uuid i) (ins_now i) (ins_row i) hs ;;
      aggregate_all l' hs'
  end.

(** The reports a hotspot has absorbed, oldest first. *)
Definition reports_of (h : UUID) (log : list (UUID * Report)) : list Report :=
  map snd (filter (fun e => (fst e =? h)%N) log).

(** What holds of every store the trigger builds: identifiers are unique,
    every recorded report names a stored hotspot, and every hotspot sits
    where its first report was and carries the running mean and the number
    of the readings of its reports. *)
Definition consistent (s : Store) : Prop :=
  NoDup (map id (hotspots s)) /\
  (forall e, In e (absorbed s) -> In (fst e) (map id (hotspots s))) /\
  forall h, In h (hotspots s) ->
    exists r rest d ds,
      reports_of (id h) (absorbed s) = r :: rest /\
      location h = report_location r /\
      map noise_db (r :: rest) = map Some (d :: ds) /\
      running_mean d ds = Ok (avg_noise_db h, report_count h).

(** What the specification words ask of [findNearest]: the closest hotspot
    within the radius, none when no hotspot qualifies, and the smaller [id]
    among equidistant ones. *)
Definition spec_findNearest (table : list Hotspot) (p : Geography) (radius : Q)
    (found : option Hotspot) : Prop :=
  match found with
  | None => forall h, In h table -> ~ ST_Distance (location h) p <= radius
  | Some h =>
      In h table /\ ST_Distance (location h) p <= radius /\
      forall h', In h' table -> ST_Distance (location h') p <= radius ->
        ST_Distance (location h) p <= ST_Distance (location h') p /\
        (ST_Distance (location h') p == ST_Distance (location h) p ->
         (id h <= id h')%N)
  end.

(** *** Concurrent invocations

    Several insertions into [reports] run the trigger at once.  Under
    PostgreSQL's default isolation each statement of the function is one
    atomic step: the [SELECT ... INTO] reads the table, and later either the
    [UPDATE] (which evaluates its [SET] list on the current row, under the
    row lock) or the [INSERT] runs.  Nothing else orders two invocations.
    The system carries the record of which report went into which hotspot;
    it is a ghost. *)
Inductive pc : Type :=
| AtSelect                            (* about to run SELECT ... INTO *)
| AtUpdate (hotspot_record : Hotspot) (* IF branch chosen *)
| AtInsert                            (* ELSE branch chosen *)
| Returned                            (* RETURN NEW *)
| Raised (e : sqlstate).

Record Call : Type := mkCall {
  call_ins : Insertion;
  call_pc  : pc
}.

(** What an [UPDATE ... WHERE id = target] that succeeded has absorbed:
    the report, when the row is still there. *)
Definition absorbed_by (target : UUID) (NEW : Report)
    (table : list Hotspot) : list (UUID * Report) :=
  if existsb (fun h => (id h =? target)%N) table then [(target, NEW)] else [].

Definition step_call (c : Call) (table : list Hotspot)
  : Call * list Hotspot * list (UUID * Report) :=
  let i := call_ins c in
  match call_pc c with
  | AtSelect =>
      match select_nearest table (report_location (ins_row i)) cluster_radius with
      | Some hotspot_record => (mkCall i (AtUpdate hotspot_record), table, [])
      | None => (mkCall i AtInsert, table, [])
      end
  | AtUpdate hotspot_record =>
      match update_hotspots (ins_now i) (noise_db (ins_row i))
              (id hotspot_record) table with
      | Ok table' =>
          (mkCall i Returned, table',
           absorbed_by (id hotspot_record) (ins_row i) table)
      | Err e => (mkCall i (Raised e), table, [])
      end
  | AtInsert =>
      match insert_hotspot (ins_uuid i) (ins_now i)
              (report_location (ins_row i)) (noise_db (ins_row i)) table with
      | Ok table' => (mkCall i Returned, table', [(ins_uuid i, ins_row i)])
      | Err e => (mkCall i (Raised e), table, [])
      end
  | Returned | Raised _ => (c, table, [])
  end.

Record System : Type := mkSystem {
  sys_table : list Hotspot;
  sys_calls : list Call;
  sys_log   : list (UUID * Report)
}.

(** The scheduler lets call number [k] run its next statement. *)
Definition step (k : nat) (s : System) : System :=
  match nth_error (sys_calls s) k with
  | None => s
  | Some c =>
      let '(c', table', entries) := step_call c (sys_table s) in
      mkSystem table' (set_nth k c' (sys_calls s)) (sys_log s ++ entries)
  end.

Definition execute (schedule : list nat) (s : System) : System :=
  fold_left (fun s k => step k s) schedule s.

Definition start (l : list Insertion) : System :=
  mkSystem [] (map (fun i => mkCall i AtSelect) l) [].

Definition returned (c : Call) : bool :=
  match call_pc c with Returned => true | _ => false end.

Definition finished (s : System) : bool := forallb returned (sys_calls s).

(** One call after the other: call [k] runs both its statements before call
    [k + 1] starts. *)
Definition serial (n : nat) : list nat :=
  flat_map (fun k => [k; k]) (seq 0 n).

(** All calls run their [SELECT] before any of them writes. *)
Definition selects_first (n : nat) : list nat := seq 0 n ++ seq 0 n.

Definition total_count (table : list Hotspot) : Z :=
  fold_right (fun h acc => (report_count h + acc)%Z) 0%Z table.

(** What every interleaving of any calls preserves: identifiers are unique,
    every recorded report names a stored hotspot, as does every call about
    to update, and every hotspot sits where its first report was and
    carries the running mean and the number of the readings of its
    reports. *)
Definition counted (s : System) : Prop :=
  consistent (mkStore (sys_table s) (sys_log s)) /\
  (forall c t, In c (sys_calls s) -> call_pc c = AtUpdate t ->
     In (id t) (map id (sys_table s))).

(** What every interleaving of calls that carry the same position [p] and
    the same reading [v] preserves. *)
Definition sound (p : Geography) (v : float8) (l : list Insertion) (s : System)
  : Prop :=
  counted s /\
  map call_ins (sys_calls s) = l /\
  Forall (fun h => location h = p /\ (1 <= report_count h)%Z) (sys_table s) /\
  Forall (fun e => noise_db (snd e) = Some v) (sys_log s) /\
  total_count (sys_table s)
    = Z.of_nat (List.length (filter returned (sys_calls s))) /\
  (forall c e, In c (sys_calls s) -> call_pc c <> Raised e) /\
  (forall h, In h (sys_table s) ->
     exists c, In c (sys_calls s) /\ returned c = true /\
               ins_uuid (call_ins c) = id h).

End Trigger.

End Schema.

(** The update of the average over the rationals, where no operation
    rounds. *)
Fixpoint exact_absorb (s : Q * Z) (ds : list Q) : Q * Z :=
  match ds with
  | [] => s
  | d :: ds' =>
      exact_absorb (((fst s * inject_Z (snd s)) + d) / inject_Z (snd s + 1),
                    (snd s + 1)%Z) ds'
  end.

Definition exact_running_mean (d : Q) (ds : list Q) : Q :=
  fst (exact_absorb (d, 1%Z) ds).
(* ------------------------------------------------------------------ *)
(** ** Report ingestion: [createReportMutation] and the [reports] table *)
(* ------------------------------------------------------------------ *)

(** The argument of [mutationFn]; [description] and [media_urls] are passed
    through unread.  The three numbers are JS numbers: binary64 values,
    NaN and the infinities among them.  [rd_is_anonymous = None] is a
    missing property. *)
Record ReportData : Type := mkReportData {
  rd_latitude     : PrimFloat.float;
  rd_longitude    : PrimFloat.float;
  rd_noise_db     : PrimFloat.float;
  rd_noise_type   : string;
  rd_is_anonymous : option bool
}.

Definition truthy (b : option bool) : bool :=
  match b with Some true => true | _ => false end.

(** A number of the request body as the database reads it.
    [JSON.stringify] writes NaN and the infinities as [null] and a finite
    number as the shortest decimal that reads back as the same binary64
    number, except that [-0] is written [0]. *)
Definition JSON_number (x : PrimFloat.float) : option Schema.float8 :=
  if PrimFloat.is_finite x
  then Some (if PrimFloat.is_zero x then PrimFloat.zero else x)
  else None.

(** The row the request asks to insert; [pl_user_id = None] is the empty
    string that the mutation sends for an anonymous report, and a number
    that is [None] is [null]. *)
Record Payload : Type := mkPayload {
  pl_user_id      : option UUID;
  pl_latitude     : option Schema.float8;
  pl_longitude    : option Schema.float8;
  pl_noise_db     : option Schema.float8;
  pl_noise_type   : string;
  pl_is_anonymous : bool;
  pl_status       : string
}.

Record Database : Type := mkDatabase {
  db_users    : list UUID;
  db_reports  : list Schema.Report;
  db_hotspots : list Schema.Hotspot
}.

Definition noise_types : list string :=
  ["traffic"; "construction"; "events"; "industrial"; "other"]%string.

Definition statuses : list string :=
  ["pending"; "reviewed"; "resolved"]%string.

Definition mem (s : string) (l : list string) : bool :=
  existsb (String.eqb s) l.

(** [CHECK (noise_db >= 0 AND noise_db <= 120)]: a check that yields NULL
    passes. *)
Definition noise_db_check (noise_db : option Schema.float8) : bool :=
  match noise_db with
  | None => true
  | Some d => Schema.float8_le 0%float d && Schema.float8_le d 120%float
  end.

(** [latitude FLOAT8 NOT NULL], [longitude FLOAT8 NOT NULL]: the coordinate
    a number of the request denotes, if it is one. *)
Definition coordinate (x : option Schema.float8) : option Q :=
  match x with
  | Some y => Schema.float8_value y
  | None => None
  end.

(** Everything PostgreSQL checks on the new row of [reports] before the
    [AFTER INSERT] trigger fires: the uuid input syntax, the policy "Users can
    insert reports" ([auth.uid() = user_id OR is_anonymous = true]), the
    [NOT NULL] and [CHECK] constraints, and the reference to [users(id)].
    [latitude] and [longitude] are only [NOT NULL]. *)
Definition check_report (auth_uid : option UUID) (users : list UUID)
    (pl : Payload) : result Schema.Report :=
  match pl_user_id pl with
  | None => Err invalid_text_representation
  | Some u =>
      if negb ((match auth_uid with Some a => (a =? u)%N | None => false end)
               || pl_is_anonymous pl)
      then Err insufficient_privilege
      else
        match coordinate (pl_latitude pl), coordinate (pl_longitude pl) with
        | Some latitude, Some longitude =>
            if negb (noise_db_check (pl_noise_db pl))
            then Err check_violation
            else if negb (mem (pl_noise_type pl) noise_types)
            then Err check_violation
            else if negb (mem (pl_status pl) statuses)
            then Err check_violation
            else if negb (existsb (N.eqb u) users)
            then Err foreign_key_violation
            else Ok (Schema.mkReport (Some u) latitude longitude
                       (pl_noise_db pl) (pl_noise_type pl)
                       (pl_is_anonymous pl) (pl_status pl))
        | _, _ => Err not_null_violation
        end
  end.

(** The client side of one submission. *)
Record Client : Type := mkClient {
  isOnline       : bool;
  user           : option UUID;          (* [user?.id] *)
  offlineReports : list (Z * ReportData) (* [Date.now()] and the form data *)
}.

Inductive Outcome : Type :=
| Stored (offlineReport : Z * ReportData)  (* returned from the offline branch *)
| Created (data : Schema.Report)
| NotAuthenticated                         (* "User must be authenticated or report must be anonymous" *)
| Rejected (error : sqlstate).             (* [if (error) throw error] *)

(** The object literal built for [reportsApi.create]:
    [user_id: reportData.is_anonymous ? '' : user!.id],
    [is_anonymous: reportData.is_anonymous || false], [status: 'pending']. *)
Definition payload (u : option UUID) (reportData : ReportData) : Payload :=
  mkPayload (if truthy (rd_is_anonymous reportData) then None else u)
    (JSON_number (rd_latitude reportData))
    (JSON_number (rd_longitude reportData))
    (JSON_number (rd_noise_db reportData)) (rd_noise_type reportData)
    (match rd_is_anonymous reportData with Some b => b | None => false end)
    "pending".

(** JS [lo <= x && x <= hi]. *)
Definition within (lo hi x : PrimFloat.float) : bool :=
  PrimFloat.leb lo x && PrimFloat.leb x hi.

(** The submissions the specification wants refused. *)
Definition spec_invalid (reportData : ReportData) : Prop :=
  within 0%float 120%float (rd_noise_db reportData) = false \/
  within (-90)%float 90%float (rd_latitude reportData) = false \/
  within (-180)%float 180%float (rd_longitude reportData) = false \/
  ~ In (rd_noise_type reportData) noise_types.

Section Mutation.

Variable ST_Distance : Geography -> Geography -> Q.

(** [supabase.from('reports').insert(report).select().single()], sent with
    the key and the session of the client: the row is checked, then the
    trigger runs with the rights of the client; an error anywhere leaves
    the database as it was. *)
Definition reports_insert (auth_uid : option UUID) (pl : Payload) (db : Database)
  : result (Schema.Report * Database) :=
  NEW <- check_report auth_uid (db_users db) pl ;;
  hotspots' <- Schema.aggregate_reports_to_hotspots_rls ST_Distance NEW
                 (db_hotspots db) ;;
  Ok (NEW, mkDatabase (db_users db) (db_reports db ++ [NEW]) hotspots').

(** [createReportMutation.mutationFn]. *)
Definition createReportMutation (date_now : Z)
    (reportData : ReportData) (c : Client) (db : Database)
  : Outcome * Client * Database :=
  if negb (isOnline c) then
    let offlineReport := (date_now, reportData) in
    (Stored offlineReport,
     mkClient (isOnline c) (user c) (offlineReports c ++ [offlineReport]), db)
  else if negb (match user c with Some _ => true | None => false end)
          && negb (truthy (rd_is_anonymous reportData))
  then (NotAuthenticated, c, db)
  else
    match reports_insert (user c) (payload (user c) reportData) db with
    | Ok (data, db') => (Created data, c, db')
    | Err error => (Rejected error, c, db)
    end.

(** [syncOfflineReports]: every queued report is submitted again through
    the mutation, one after the other; a failure is logged and the loop goes
    on.  [env k] supplies [Date.now()] to submission number [k].  Nothing in
    the loop, nor anywhere else in the repository, calls
    [removeOfflineReport] or [clearOfflineReports]. *)
Fixpoint syncOfflineReports (env : nat -> Z)
    (queue : list (Z * ReportData)) (c : Client) (db : Database)
  : Client * Database :=
  match queue with
  | [] => (c, db)
  | offlineReport :: queue' =>
      let '(_, c', db') :=
        createReportMutation (env 0%nat) (snd offlineReport) c db in
      syncOfflineReports (fun k => env (S k)) queue' c' db'
  end.

(** The effect that starts the synchronisation:
    [if (isOnline && offlineReports.length > 0) syncOfflineReports()]. *)
Definition sync_effect (env : nat -> Z)
    (c : Client) (db : Database) : Client * Database :=
  if isOnline c && negb (Nat.eqb (List.length (offlineReports c)) 0)
  then syncOfflineReports env (offlineReports c) c db
  else (c, db).

(** One call of the mutation with everything it reads, and the database
    after a sequence of calls made by any clients. *)
Record Submission : Type := mkSubmission {
  sub_date_now : Z;
  sub_data     : ReportData;
  sub_client   : Client
}.

Definition submit (s : Submission) (db : Database) : Database :=
  snd (createReportMutation (sub_date_now s) (sub_data s) (sub_client s) db).

Definition submit_all (l : list Submission) (db : Database) : Database :=
  fold_left (fun db s => submit s db) l db.

End Mutation.

(** The actions of the store on the offline queue:
    [removeOfflineReport(reportId)] keeps the reports with
    [report.id !== reportId], [clearOfflineReports()] empties the queue.  The
    id of a queued report is [`offline_${Date.now()}`]; it is identified with
    the number it is made of. *)
Definition removeOfflineReport (reportId : Z) (c : Client) : Client :=
  mkClient (isOnline c) (user c)
    (filter (fun report => negb (fst report =? reportId)%Z) (offlineReports c)).

Definition clearOfflineReports (c : Client) : Client :=
  mkClient (isOnline c) (user c) [].
(* ------------------------------------------------------------------ *)
(** ** [locationUtils.calculateDistance] on binary64 numbers            *)
(* ------------------------------------------------------------------ *)

(** The function as a JS engine evaluates it.  The arithmetic operators and
    [Math.sqrt] are those of IEEE 754.  [Math.sin], [Math.cos] and
    [Math.atan2] belong to the engine, which is free in their last digits:
    they are parameters. *)
Module Binary64.

Local Open Scope float_scope.

(** [Math.PI]. *)
Definition PI : PrimFloat.float := 0x1.921fb54442d18p+1.

Section Libm.

Variables sin cos : PrimFloat.float -> PrimFloat.float.
Variable atan2 : PrimFloat.float -> PrimFloat.float -> PrimFloat.float.

Definition calculateDistance (lat1 lon1 lat2 lon2 : PrimFloat.float)
  : PrimFloat.float :=
  let R := 6371 in
  let dLat := (lat2 - lat1) * PI / 180 in
  let dLon := (lon2 - lon1) * PI / 180 in
  let a :=
    sin (dLat / 2) * sin (dLat / 2) +
    cos (lat1 * PI / 180) * cos (lat2 * PI / 180) *
    sin (dLon / 2) * sin (dLon / 2) in
  let c := 2 * atan2 (PrimFloat.sqrt a) (PrimFloat.sqrt (1 - a)) in
  R * c.

End Libm.

(** The values of fdlibm's [sin] and [cos], which V8 ports for [Math.sin]
    and [Math.cos], at the arguments that the distance between
    (58 S, 179 W) and (58 N, 1 E) meets, in a table that is zero elsewhere;
    and an [atan2] that is NaN on a NaN and zero elsewhere. *)
Definition table_sin (x : PrimFloat.float) : PrimFloat.float :=
  if PrimFloat.eqb x 0x1.03258031ade7cp+0 then 0x1.b2335c2cda946p-1
  else if PrimFloat.eqb x (-0x1.03258031ade7cp+0) then -0x1.b2335c2cda946p-1
  else if PrimFloat.eqb x 0x1.921fb54442d18p+0 then 1
  else if PrimFloat.eqb x (-0x1.921fb54442d18p+0) then -1
  else 0.

Definition table_cos (x : PrimFloat.float) : PrimFloat.float :=
  if PrimFloat.eqb (PrimFloat.abs x) 0x1.03258031ade7cp+0
  then 0x1.0f5193eacdd2ap-1
  else 0.

Definition table_atan2 (y x : PrimFloat.float) : PrimFloat.float :=
  if PrimFloat.is_nan y || PrimFloat.is_nan x then PrimFloat.nan else 0.

End Binary64.
(* ------------------------------------------------------------------ *)
(** ** Concrete rows                                                    *)
(* ------------------------------------------------------------------ *)

(** [ST_Distance] on geographies belongs to PostGIS and is a parameter of
    the development.  To evaluate the model on concrete inputs we
    instantiate it with the length of the path that follows a meridian and
    then a parallel: in metres, on a sphere whose degree measures 111320 m
    ([grid_distance]), or in degrees ([degree_distance]), so that two
    binary64 coordinates can lie at exactly the cluster radius from one
    another. *)
Definition grid_distance (a b : Geography) : Q :=
  111320 * (Qabs (ST_Y a - ST_Y b) + Qabs (ST_X a - ST_X b)).

Definition degree_distance (a b : Geography) : Q :=
  Qabs (ST_Y a - ST_Y b) + Qabs (ST_X a - ST_X b).

(** The binary64 numbers nearest to 85.5, 90, 61.2 and 70.1, and the two
    smallest positive binary64 numbers, [2^-1074] and [2^-1073]. *)
Definition db_85_5 : Schema.float8 := 0x1.56p+6%float.
Definition db_90 : Schema.float8 := 0x1.68p+6%float.
Definition db_61_2 : Schema.float8 := 0x1.e99999999999ap+5%float.
Definition db_70_1 : Schema.float8 := 0x1.1866666666666p+6%float.
Definition db_tiny : Schema.float8 := 0x1p-1074%float.
Definition db_tiny2 : Schema.float8 := 0x1p-1073%float.

(** Two reports some fifteen kilometres apart. *)
Definition plaza : Geography := ST_MakePoint (309 # 4) (57 # 2).

Definition plaza_report : Schema.Report :=
  Schema.mkReport (Some 7%N) (57 # 2) (309 # 4) (Some db_85_5)
    "traffic" false "pending".

Definition site_report : Schema.Report :=
  Schema.mkReport (Some 7%N) (115 # 4) (617 # 8) (Some 92.5%float)
    "construction" false "pending".

(** A report on the equator; two reports [2^-27] degrees (0.83 mm) west and
    east of it, more than a cluster radius apart and each within the radius
    of the point between them; and a report exactly one cluster radius, in
    degrees, east of it. *)
Definition on_equator : Schema.Report :=
  Schema.mkReport (Some 7%N) 0 0 (Some 70%float) "traffic" false "pending".

Definition west : Schema.Report :=
  Schema.mkReport (Some 7%N) 0 (-1 # 134217728) (Some 60%float)
    "other" false "pending".

Definition east : Schema.Report :=
  Schema.mkReport (Some 7%N) 0 (1 # 134217728) (Some 60%float)
    "other" false "pending".

Definition radius_east : Schema.Report :=
  Schema.mkReport (Some 7%N) 0 cluster_radius (Some db_90)
    "traffic" false "pending".

(** Insertion number [k] of a report at [plaza]; it draws [k] as its uuid
    and runs at time [k]. *)
Definition reading (k : nat) (d : Schema.float8) : Schema.Insertion :=
  Schema.mkInsertion (N.of_nat k) (Z.of_nat k)
    (Schema.mkReport (Some 7%N) (57 # 2) (309 # 4) (Some d)
       "traffic" false "pending").

Definition three_readings : list Schema.Insertion :=
  [reading 1 db_85_5; reading 2 db_90; reading 3 db_61_2].

Definition tiny_readings : list Schema.Insertion :=
  [reading 1 db_tiny; reading 2 db_tiny2].

Definition same_readings (n : nat) : list Schema.Insertion :=
  map (fun k => reading k db_70_1) (seq 1 n).

(** The row of [hotspots] as the API delivers it to the client: the number
    its [avg_noise_db] denotes, when it is finite. *)
Definition delivered (h : Schema.Hotspot) : option Hotspot :=
  match Schema.float8_value (Schema.avg_noise_db h) with
  | Some avg =>
      Some (mkHotspot (Schema.id h) (Schema.location h) avg
              (Schema.report_count h) (Schema.created_at h)
              (Schema.updated_at h))
  | None => None
  end.
(* ================================================================== *)
(** * Part II.  Properties                                              *)
(* ================================================================== *)

(** ** Lists *)

Lemma set_nth_length {A} k (x : A) l :
  List.length (set_nth k x l) = List.length l.
Proof.
  revert k. induction l as [|y l IH]; intros [|k]; simpl; auto.
Qed.

Lemma set_nth_same {A} k (x : A) l :
  nth_error l k = Some x -> set_nth k x l = l.
Proof.
  revert k. induction l as [|y l IH]; intros [|k] H; simpl in *;
    try discriminate.
  - inversion H. reflexivity.
  - rewrite IH by exact H. reflexivity.
Qed.

Lemma In_set_nth {A} k (x y : A) l :
  In y (set_nth k x l) -> y = x \/ In y l.
Proof.
  revert k. induction l as [|z l IH]; intros [|k] H; simpl in *; auto.
  - destruct H as [H|H]; auto.
  - destruct H as [H|H]; auto.
    destruct (IH k H); auto.
Qed.

Lemma In_set_nth_new {A} k (x c : A) l :
  nth_error l k = Some c -> In x (set_nth k x l).
Proof.
  revert k. induction l as [|z l IH]; intros [|k] H; simpl in *;
    try discriminate.
  - left. reflexivity.
  - right. apply (IH k H).
Qed.

Lemma In_set_nth_other {A} k (x c y : A) l :
  nth_error l k = Some c -> In y l -> y <> c -> In y (set_nth k x l).
Proof.
  revert k. induction l as [|z l IH]; intros [|k] H Hin Hne; simpl in *;
    try discriminate.
  - inversion H; subst z. destruct Hin as [Hin|Hin]; [congruence|].
    right. exact Hin.
  - destruct Hin as [Hin|Hin]; [left; exact Hin|].
    right. apply (IH k H Hin Hne).
Qed.

Lemma map_set_nth_same {A B} (f : A -> B) k (x c : A) l :
  nth_error l k = Some c -> f x = f c -> map f (set_nth k x l) = map f l.
Proof.
  revert k. induction l as [|z l IH]; intros [|k] H E; simpl in *;
    try discriminate.
  - inversion H; subst z. rewrite E. reflexivity.
  - rewrite (IH k H E). reflexivity.
Qed.

Lemma filter_set_nth {A} (P : A -> bool) k (x c : A) l :
  nth_error l k = Some c ->
  (List.length (filter P (set_nth k x l)) + (if P c then 1 else 0)
   = List.length (filter P l) + (if P x then 1 else 0))%nat.
Proof.
  revert k. induction l as [|z l IH]; intros [|k] H; simpl in *;
    try discriminate.
  - inversion H; subst z. destruct (P x), (P c); simpl; lia.
  - specialize (IH k H). destruct (P z); simpl; lia.
Qed.

Lemma filter_length_lt {A} (P : A -> bool) c l :
  In c l -> P c = false ->
  (List.length (filter P l) < List.length l)%nat.
Proof.
  induction l as [|z l IH]; intros Hin Hc; simpl in *; [contradiction|].
  assert (Hle := filter_length_le P l).
  destruct Hin as [->|Hin].
  - rewrite Hc. lia.
  - specialize (IH Hin Hc). destruct (P z); simpl; lia.
Qed.

Lemma NoDup_map_eq {A B} (f : A -> B) l x y :
  NoDup (map f l) -> In x l -> In y l -> f x = f y -> x = y.
Proof.
  induction l as [|z l IH]; intros Hnd Hx Hy E; simpl in *; [contradiction|].
  inversion Hnd as [|? ? Hnotin Hnd']; subst.
  destruct Hx as [->|Hx], Hy as [->|Hy].
  - reflexivity.
  - exfalso. apply Hnotin. rewrite E. apply in_map. exact Hy.
  - exfalso. apply Hnotin. rewrite <- E. apply in_map. exact Hx.
  - apply IH; assumption.
Qed.

Lemma nth_error_set_nth {A} k (x c : A) l :
  nth_error l k = Some c -> nth_error (set_nth k x l) k = Some x.
Proof.
  revert k. induction l as [|z l IH]; intros [|k] H; simpl in *;
    try discriminate.
  - reflexivity.
  - apply (IH k H).
Qed.

Lemma set_nth_set_nth {A} k (x y : A) l :
  set_nth k x (set_nth k y l) = set_nth k x l.
Proof.
  revert k. induction l as [|z l IH]; intros [|k]; simpl; try reflexivity.
  rewrite IH. reflexivity.
Qed.

Lemma set_nth_app_length {A} (x c : A) l1 l2 :
  set_nth (List.length l1) x (l1 ++ c :: l2) = l1 ++ x :: l2.
Proof.
  induction l1 as [|z l1 IH]; simpl; [reflexivity|]. rewrite IH. reflexivity.
Qed.

Lemma filter_forallb {A} (P : A -> bool) l :
  forallb P l = true -> filter P l = l.
Proof.
  induction l as [|x l IH]; simpl; intro H; [reflexivity|].
  apply andb_true_iff in H. destruct H as [Hx Hl].
  rewrite Hx, (IH Hl). reflexivity.
Qed.
Section Trigger.

Import Schema.

Variable ST_Distance : Geography -> Geography -> Q.

Local Abbreviation select_nearest := (select_nearest ST_Distance).
Local Abbreviation ST_DWithin := (ST_DWithin ST_Distance).
Local Abbreviation nearer := (nearer ST_Distance).
Local Abbreviation aggregate_reports_to_hotspots :=
  (aggregate_reports_to_hotspots ST_Distance).
Local Abbreviation absorbing_hotspot := (absorbing_hotspot ST_Distance).

(** ** The query of the trigger *)

Lemma hd_error_insert_row {A} (le : A -> A -> bool) x l :
  hd_error (insert_row le x l) =
  match hd_error l with
  | None => Some x
  | Some y => if le x y then Some x else Some y
  end.
Proof.
  destruct l as [|y l]; simpl; [reflexivity|].
  destruct (le x y); reflexivity.
Qed.

Lemma hd_error_limit_1 {A} (l : list A) : hd_error (limit 1 l) = hd_error l.
Proof. destruct l; reflexivity. Qed.

(** How the query treats the first row of the scan. *)
Lemma select_nearest_cons h table p radius :
  select_nearest (h :: table) p radius =
  if ST_DWithin (location h) p radius then
    match select_nearest table p radius with
    | None => Some h
    | Some y => if nearer p h y then Some h else Some y
    end
  else select_nearest table p radius.
Proof.
  unfold Schema.select_nearest. rewrite !hd_error_limit_1. simpl.
  destruct (ST_DWithin (location h) p radius); [|reflexivity].
  simpl. apply hd_error_insert_row.
Qed.

Lemma select_nearest_nil p radius : select_nearest [] p radius = None.
Proof. reflexivity. Qed.

Lemma ST_DWithin_true a b r : ST_DWithin a b r = true <-> ST_Distance a b <= r.
Proof. unfold Schema.ST_DWithin. apply Qle_bool_iff. Qed.

Lemma ST_DWithin_false a b r : ST_DWithin a b r = false <-> r < ST_Distance a b.
Proof.
  unfold Schema.ST_DWithin. split; intro H.
  - apply Qnot_le_lt. intro Hle. apply Qle_bool_iff in Hle. congruence.
  - destruct (Qle_bool (ST_Distance a b) r) eqn:E; [|reflexivity].
    apply Qle_bool_iff in E. exfalso. apply (Qlt_not_le _ _ H E).
Qed.

Lemma nearer_true p a b :
  nearer p a b = true <-> ST_Distance (location a) p <= ST_Distance (location b) p.
Proof. unfold Schema.nearer. apply Qle_bool_iff. Qed.

Lemma nearer_false p a b :
  nearer p a b = false <-> ST_Distance (location b) p < ST_Distance (location a) p.
Proof.
  unfold Schema.nearer. split; intro H.
  - apply Qnot_le_lt. intro Hle. apply Qle_bool_iff in Hle. congruence.
  - destruct (Qle_bool _ _) eqn:E; [|reflexivity].
    apply Qle_bool_iff in E. exfalso. apply (Qlt_not_le _ _ H E).
Qed.

(** The query returns nothing exactly when no row is within the radius. *)
Lemma select_nearest_None table p radius :
  select_nearest table p radius = None <->
  (forall h, In h table -> radius < ST_Distance (location h) p).
Proof.
  induction table as [|x table IH].
  - split; [intros _ h []|reflexivity].
  - rewrite select_nearest_cons.
    destruct (ST_DWithin (location x) p radius) eqn:Ex.
    + split.
      * destruct (select_nearest table p radius) as [y|]; [|discriminate].
        destruct (nearer p x y); discriminate.
      * intro H. apply ST_DWithin_true in Ex.
        exfalso. apply (Qlt_not_le _ _ (H x (or_introl eq_refl)) Ex).
    + rewrite IH. apply ST_DWithin_false in Ex. split.
      * intros H h [<-|Hin]; auto.
      * intros H h Hin. apply H. right. exact Hin.
Qed.

(** The row returned is the first row of the scan among those at the least
    distance within the radius. *)
Lemma select_nearest_Some table p radius h :
  select_nearest table p radius = Some h ->
  ST_Distance (location h) p <= radius /\
  (forall h', In h' table -> ST_Distance (location h') p <= radius ->
     ST_Distance (location h) p <= ST_Distance (location h') p) /\
  exists before after,
    table = before ++ h :: after /\
    forall h', In h' before -> ST_Distance (location h') p <= radius ->
      ST_Distance (location h) p < ST_Distance (location h') p.
Proof.
  revert h. induction table as [|x table IH]; intros h Hsel.
  - discriminate.
  - rewrite select_nearest_cons in Hsel.
    destruct (ST_DWithin (location x) p radius) eqn:Ex.
    + apply ST_DWithin_true in Ex.
      destruct (select_nearest table p radius) as [y|] eqn:Ey.
      * destruct (IH y eq_refl) as (Hy & Hmin & before & after & Heq & Hbefore).
        destruct (nearer p x y) eqn:Exy; inversion Hsel; subst h; clear Hsel.
        -- apply nearer_true in Exy. split; [exact Ex|]. split.
           ++ intros h' [<-|Hin] Hr; [apply Qle_refl|].
              eapply Qle_trans; [exact Exy|]. apply Hmin; assumption.
           ++ exists [], table. split; [reflexivity|]. intros h' [].
        -- apply nearer_false in Exy. split; [exact Hy|]. split.
           ++ intros h' [<-|Hin] Hr; [apply Qlt_le_weak; exact Exy|].
              apply Hmin; assumption.
           ++ exists (x :: before), after. split; [simpl; congruence|].
              intros h' [<-|Hin] Hr; [exact Exy|]. apply Hbefore; assumption.
      * inversion Hsel; subst h; clear Hsel. split; [exact Ex|].
        assert (Hnone := proj1 (select_nearest_None table p radius) Ey).
        split.
        -- intros h' [<-|Hin] Hr; [apply Qle_refl|].
           exfalso. apply (Qlt_not_le _ _ (Hnone h' Hin) Hr).
        -- exists [], table. split; [reflexivity|]. intros h' [].
    + apply ST_DWithin_false in Ex.
      destruct (IH h Hsel) as (Hy & Hmin & before & after & Heq & Hbefore).
      split; [exact Hy|]. split.
      * intros h' [<-|Hin] Hr.
        -- exfalso. apply (Qlt_not_le _ _ Ex Hr).
        -- apply Hmin; assumption.
      * exists (x :: before), after. split; [simpl; congruence|].
        intros h' [<-|Hin] Hr.
        -- exfalso. apply (Qlt_not_le _ _ Ex Hr).
        -- apply Hbefore; assumption.
Qed.

Lemma select_nearest_In table p radius h :
  select_nearest table p radius = Some h -> In h table.
Proof.
  intro H. destruct (select_nearest_Some _ _ _ _ H) as (_ & _ & b & a & -> & _).
  apply in_or_app. right. left. reflexivity.
Qed.

(** ** The statements of the trigger *)

Lemma int4pl_inv a b r :
  int4pl a b = Ok r ->
  r = (a + b)%Z /\ (int4_min <= r <= int4_max)%Z.
Proof.
  unfold int4pl.
  destruct (Z.ltb_spec (a + b) int4_min) as [Hlo|Hlo]; [discriminate|].
  destruct (Z.ltb_spec int4_max (a + b)) as [Hhi|Hhi]; [discriminate|].
  simpl. intro E. inversion E. lia.
Qed.

Lemma float8_mul_inv a b r :
  float8_mul a b = Ok r -> r = PrimFloat.mul a b.
Proof.
  unfold float8_mul.
  destruct (isinf (PrimFloat.mul a b) && negb (isinf a) && negb (isinf b));
    [discriminate|].
  destruct (is_zero (PrimFloat.mul a b) && negb (is_zero a) && negb (is_zero b));
    [discriminate|].
  intro H. inversion H. reflexivity.
Qed.

Lemma float8_pl_inv a b r :
  float8_pl a b = Ok r -> r = PrimFloat.add a b.
Proof.
  unfold float8_pl.
  destruct (isinf (PrimFloat.add a b) && negb (isinf a) && negb (isinf b));
    [discriminate|].
  intro H. inversion H. reflexivity.
Qed.

Lemma float8_div_inv a b r :
  float8_div a b = Ok r -> r = PrimFloat.div a b.
Proof.
  unfold float8_div.
  destruct (is_zero b && negb (PrimFloat.is_nan a)); [discriminate|].
  destruct (isinf (PrimFloat.div a b) && negb (isinf a)); [discriminate|].
  destruct (is_zero (PrimFloat.div a b) && negb (is_zero a) && negb (isinf b));
    [discriminate|].
  intro H. inversion H. reflexivity.
Qed.

(** When the [SET] list evaluates, the new average is the binary64 result of
    [((avg_noise_db * report_count) + NEW.noise_db) / (report_count + 1)]
    and the new count is [report_count + 1], within [INT]. *)
Lemma set_list_inv avg count db a n :
  set_list avg count db = Ok (a, n) ->
  exists d,
    db = Some d /\
    a = PrimFloat.div
          (PrimFloat.add (PrimFloat.mul avg (i4tod count)) d)
          (i4tod (count + 1)) /\
    n = (count + 1)%Z /\ (int4_min <= n <= int4_max)%Z.
Proof.
  unfold set_list.
  destruct (float8_mul avg (i4tod count)) as [m|e] eqn:Em; [|discriminate].
  apply float8_mul_inv in Em. cbn [bind].
  destruct db as [d|].
  - destruct (float8_pl m d) as [s|e] eqn:Es; [|discriminate].
    apply float8_pl_inv in Es. cbn [bind].
    destruct (int4pl count 1) as [n1|e] eqn:En; [|discriminate].
    destruct (int4pl_inv _ _ _ En) as [-> Hrange]. cbn [bind].
    destruct (float8_div s (i4tod (count + 1))) as [q|e] eqn:Eq; [|discriminate].
    apply float8_div_inv in Eq. cbn [bind].
    intro H. inversion H. subst. exists d. auto.
  - cbn [bind].
    destruct (int4pl count 1) as [n1|e]; [|discriminate].
    cbn [bind]. discriminate.
Qed.

Lemma set_absorbed_inv now db h h' :
  set_absorbed now db h = Ok h' ->
  exists d,
    db = Some d /\
    set_list (avg_noise_db h) (report_count h) (Some d)
      = Ok (avg_noise_db h', report_count h') /\
    h' = mkHotspot (id h) (location h)
           (PrimFloat.div
              (PrimFloat.add
                 (PrimFloat.mul (avg_noise_db h) (i4tod (report_count h))) d)
              (i4tod (report_count h + 1)))
           (report_count h + 1) (created_at h) now.
Proof.
  unfold set_absorbed.
  destruct (set_list (avg_noise_db h) (report_count h) db) as [[a n]|e] eqn:E;
    [|discriminate].
  cbn [bind fst snd]. unfold update_updated_at_column.
  cbn [id location avg_noise_db report_count created_at].
  intro H. inversion H. subst h'. clear H.
  destruct (set_list_inv _ _ _ _ _ E) as (d & -> & -> & -> & _).
  exists d. split; [reflexivity|]. split; [|reflexivity].
  cbn [avg_noise_db report_count]. exact E.
Qed.

(** A successful [UPDATE] rewrites, by the [SET] list, the rows whose [id]
    is the target and leaves every other row as it is. *)
Lemma update_hotspots_inv now db target table table' :
  update_hotspots now db target table = Ok table' ->
  Forall2 (fun h h' =>
             if (id h =? target)%N then set_absorbed now db h = Ok h'
             else h' = h) table table'.
Proof.
  revert table'. induction table as [|h table IH]; intros table' H;
    cbn [update_hotspots] in H.
  - inversion H. constructor.
  - destruct (id h =? target)%N eqn:E.
    + destruct (set_absorbed now db h) as [h1|e] eqn:Eh; [|discriminate].
      cbn [bind] in H.
      destruct (update_hotspots now db target table) as [r|e]; [|discriminate].
      cbn [bind] in H. inversion H. subst table'.
      constructor; [rewrite E; exact Eh|apply IH; reflexivity].
    + cbn [bind] in H.
      destruct (update_hotspots now db target table) as [r|e]; [|discriminate].
      cbn [bind] in H. inversion H. subst table'.
      constructor; [rewrite E; reflexivity|apply IH; reflexivity].
Qed.

Lemma update_hotspots_ids now db target table table' :
  update_hotspots now db target table = Ok table' ->
  map id table' = map id table.
Proof.
  intro Hup. apply update_hotspots_inv in Hup.
  induction Hup as [|h h' t t' Hh Ht IH]; [reflexivity|].
  cbn [map]. rewrite IH. f_equal.
  destruct (id h =? target)%N.
  - destruct (set_absorbed_inv _ _ _ _ Hh) as (d & _ & _ & ->). reflexivity.
  - subst h'. reflexivity.
Qed.

Lemma update_hotspots_In now db target table table' h' :
  update_hotspots now db target table = Ok table' ->
  In h' table' ->
  exists h, In h table /\
    if (id h =? target)%N then set_absorbed now db h = Ok h' else h' = h.
Proof.
  intro Hup. apply update_hotspots_inv in Hup.
  induction Hup as [|h h1 t t' Hh Ht IH]; intros Hin; [contradiction|].
  destruct Hin as [<-|Hin].
  - exists h. split; [left; reflexivity|exact Hh].
  - destruct (IH Hin) as (h0 & Hh0 & Hrel).
    exists h0. split; [right; exact Hh0|exact Hrel].
Qed.

(** The [UPDATE] succeeds exactly when the [SET] list evaluates on every
    targeted row. *)
Lemma update_hotspots_Ok now db target table :
  (forall h, In h table -> id h = target ->
     exists h', set_absorbed now db h = Ok h') ->
  exists table', update_hotspots now db target table = Ok table'.
Proof.
  induction table as [|h table IH]; intro H; cbn [update_hotspots].
  - eexists; reflexivity.
  - destruct IH as (r & Er); [intros; apply H; [right|]; assumption|].
    rewrite Er.
    destruct (N.eqb_spec (id h) target) as [E|E].
    + destruct (H h (or_introl eq_refl) E) as (h' & Eh). rewrite Eh.
      eexists; reflexivity.
    + eexists; reflexivity.
Qed.

Lemma update_hotspots_untouched now db target table :
  (forall h, In h table -> id h <> target) ->
  update_hotspots now db target table = Ok table.
Proof.
  induction table as [|h table IH]; intro H; cbn [update_hotspots];
    [reflexivity|].
  rewrite IH by (intros; apply H; right; assumption).
  destruct (N.eqb_spec (id h) target) as [E|E].
  - exfalso. exact (H h (or_introl eq_refl) E).
  - reflexivity.
Qed.

Lemma existsb_id uuid table :
  existsb (fun h => (id h =? uuid)%N) table = true <-> In uuid (map id table).
Proof.
  rewrite existsb_exists, in_map_iff. split.
  - intros (h & Hin & E). apply N.eqb_eq in E. exists h. split; assumption.
  - intros (h & E & Hin). exists h. split; [exact Hin|]. apply N.eqb_eq. exact E.
Qed.

Lemma insert_hotspot_inv uuid now p db table table' :
  insert_hotspot uuid now p db table = Ok table' ->
  exists d,
    db = Some d /\
    table' = table ++ [mkHotspot uuid p d 1 now now] /\
    ~ In uuid (map id table).
Proof.
  unfold insert_hotspot. destruct db as [d|]; [|discriminate].
  destruct (existsb (fun h => (id h =? uuid)%N) table) eqn:E; [discriminate|].
  intro H. inversion H. exists d. split; [reflexivity|]. split; [reflexivity|].
  intro Hin. apply existsb_id in Hin. congruence.
Qed.


Lemma update_hotspots_length now db target table table' :
  update_hotspots now db target table = Ok table' ->
  List.length table' = List.length table.
Proof.
  intro H. rewrite <- (length_map id table'), <- (length_map id table).
  f_equal. exact (update_hotspots_ids _ _ _ _ _ H).
Qed.

(** Every row is still there after the [UPDATE]. *)
Lemma update_hotspots_keeps now db target table table' h :
  update_hotspots now db target table = Ok table' ->
  In h table ->
  exists h', In h' table' /\
    if (id h =? target)%N then set_absorbed now db h = Ok h' else h' = h.
Proof.
  intro Hup. apply update_hotspots_inv in Hup.
  induction Hup as [|h0 h1 t t' Hh Ht IH]; intros Hin; [contradiction|].
  destruct Hin as [<-|Hin].
  - exists h1. split; [left; reflexivity|exact Hh].
  - destruct (IH Hin) as (h' & Hh' & Hrel).
    exists h'. split; [right; exact Hh'|exact Hrel].
Qed.

Lemma insert_hotspot_Ok uuid now p d table :
  (forall h, In h table -> id h <> uuid) ->
  insert_hotspot uuid now p (Some d) table
  = Ok (table ++ [mkHotspot uuid p d 1 now now]).
Proof.
  intro H. unfold insert_hotspot.
  destruct (existsb (fun h => (id h =? uuid)%N) table) eqn:E; [|reflexivity].
  apply existsb_exists in E. destruct E as (h & Hin & E).
  apply N.eqb_eq in E. exfalso. exact (H h Hin E).
Qed.

(** With unique identifiers the [UPDATE] touches the one row it targets. *)
Lemma update_hotspots_single now db t table :
  NoDup (map id table) -> In t table ->
  update_hotspots now db (id t) table
  = (t' <- set_absorbed now db t ;;
     Ok (map (fun h => if (id h =? id t)%N then t' else h) table)).
Proof.
  induction table as [|h table IH]; intros Hnd Hin; [contradiction|].
  cbn [map] in Hnd. inversion Hnd as [|? ? Hnotin Hnd']; subst.
  cbn [update_hotspots map].
  destruct (N.eqb_spec (id h) (id t)) as [E|E].
  - assert (h = t).
    { destruct Hin as [Hin|Hin]; [exact Hin|].
      exfalso. apply Hnotin. rewrite E. apply in_map. exact Hin. }
    subst h.
    assert (Hrest : forall h, In h table -> id h <> id t).
    { intros h Hh Eh. apply Hnotin. rewrite <- Eh. apply in_map. exact Hh. }
    rewrite (update_hotspots_untouched _ _ _ _ Hrest).
    destruct (set_absorbed now db t) as [t'|e]; cbn [bind]; [|reflexivity].
    f_equal. f_equal. clear -Hrest.
    induction table as [|x table IH]; [reflexivity|].
    cbn [map]. destruct (N.eqb_spec (id x) (id t)) as [Ex|Ex].
    + exfalso. exact (Hrest x (or_introl eq_refl) Ex).
    + rewrite <- IH by (intros; apply Hrest; right; assumption). reflexivity.
  - destruct Hin as [Hin|Hin]; [congruence|].
    rewrite (IH Hnd' Hin).
    destruct (set_absorbed now db t) as [t'|e]; cbn [bind]; reflexivity.
Qed.

(** ** Founding and absorbing *)

(** C2.  A report farther than the cluster radius from every hotspot makes
    the trigger insert exactly one row, appended to an otherwise unchanged
    table: its [report_count] is 1, its [avg_noise_db] is the report's
    [noise_db] and its [location] is the report's position.  The identifier
    is the fresh value drawn by [uuid_generate_v4()].  A report whose
    [noise_db] is NULL founds nothing: the insertion is refused. *)
Theorem far_report_founds_one_hotspot uuid now NEW table :
  (forall h, In h table ->
     cluster_radius < ST_Distance (location h) (report_location NEW)) ->
  (forall h, In h table -> id h <> uuid) ->
  aggregate_reports_to_hotspots uuid now NEW table =
    match noise_db NEW with
    | Some d =>
        Ok (table ++ [mkHotspot uuid (report_location NEW) d 1 now now])
    | None => Err not_null_violation
    end /\
  absorbing_hotspot uuid NEW table = uuid.
Proof.
  intros Hfar Hfresh.
  apply select_nearest_None in Hfar.
  unfold Schema.aggregate_reports_to_hotspots, Schema.absorbing_hotspot.
  rewrite Hfar. split; [|reflexivity].
  destruct (noise_db NEW) as [d|]; [|reflexivity].
  apply insert_hotspot_Ok. exact Hfresh.
Qed.

(** C3.  The radius test is inclusive.  When a hotspot lies exactly at the
    cluster radius (the binary64 number [0.001]) from the report and none
    lies closer, the trigger takes the [UPDATE] branch and founds no
    hotspot.  The report is folded into a hotspot [t] at exactly that
    distance, the given one whenever it is the only hotspot at that
    distance: the table is the old one with the row of [t] carrying the
    binary64 value of [((avg_noise_db * report_count) + noise_db) /
    (report_count + 1)], the count [report_count + 1] and the new
    [updated_at].  When the [SET] list raises (a NULL [noise_db], a count
    beyond [INT], a FLOAT8 range error) the insertion is aborted and nothing
    changes. *)
Theorem boundary_report_is_absorbed uuid now NEW table h :
  In h table ->
  NoDup (map id table) ->
  ST_Distance (location h) (report_location NEW) == cluster_radius ->
  (forall h', In h' table ->
     cluster_radius <= ST_Distance (location h') (report_location NEW)) ->
  exists t,
    select_nearest table (report_location NEW) cluster_radius = Some t /\
    In t table /\
    ST_Distance (location t) (report_location NEW) == cluster_radius /\
    ((forall h', In h' table ->
        ST_Distance (location h') (report_location NEW) == cluster_radius ->
        h' = h) -> t = h) /\
    aggregate_reports_to_hotspots uuid now NEW table
      = (s <- set_list (avg_noise_db t) (report_count t) (noise_db NEW) ;;
         Ok (map (fun h' =>
                    if (id h' =? id t)%N
                    then mkHotspot (id t) (location t) (fst s) (snd s)
                           (created_at t) now
                    else h') table)) /\
    (forall table',
       aggregate_reports_to_hotspots uuid now NEW table = Ok table' ->
       exists d,
         noise_db NEW = Some d /\
         table' =
         map (fun h' =>
                if (id h' =? id t)%N
                then mkHotspot (id t) (location t)
                       (PrimFloat.div
                          (PrimFloat.add
                             (PrimFloat.mul (avg_noise_db t)
                                (i4tod (report_count t))) d)
                          (i4tod (report_count t + 1)))
                       (report_count t + 1) (created_at t) now
                else h') table /\
         List.length table' = List.length table).
Proof.
  intros Hin Hnd Hat Hnocloser.
  destruct (select_nearest table (report_location NEW) cluster_radius)
    as [t|] eqn:Esel.
  - exists t.
    assert (Ht := select_nearest_In _ _ _ _ Esel).
    destruct (select_nearest_Some _ _ _ _ Esel) as (Hle & _ & _).
    assert (Heq : ST_Distance (location t) (report_location NEW) == cluster_radius).
    { apply Qle_antisym; [exact Hle|apply Hnocloser; exact Ht]. }
    assert (Hrun : aggregate_reports_to_hotspots uuid now NEW table
              = (s <- set_list (avg_noise_db t) (report_count t) (noise_db NEW) ;;
                 Ok (map (fun h' =>
                            if (id h' =? id t)%N
                            then mkHotspot (id t) (location t) (fst s) (snd s)
                                   (created_at t) now
                            else h') table))).
    { unfold Schema.aggregate_reports_to_hotspots. rewrite Esel.
      rewrite (update_hotspots_single _ _ _ _ Hnd Ht). unfold set_absorbed.
      destruct (set_list (avg_noise_db t) (report_count t) (noise_db NEW));
        reflexivity. }
    split; [reflexivity|]. split; [exact Ht|]. split; [exact Heq|].
    split; [intro Honly; apply Honly; assumption|].
    split; [exact Hrun|].
    intros table' Hok. rewrite Hrun in Hok.
    destruct (set_list (avg_noise_db t) (report_count t) (noise_db NEW))
      as [[a n]|e] eqn:Eset; [|discriminate].
    cbn [bind fst snd] in Hok. inversion Hok. clear Hok.
    destruct (set_list_inv _ _ _ _ _ Eset) as (d & Hd & -> & -> & _).
    exists d. split; [exact Hd|]. split; [reflexivity|]. apply length_map.
  - exfalso.
    assert (Hnone := proj1 (select_nearest_None _ _ _) Esel h Hin).
    rewrite Hat in Hnone. apply (Qlt_irrefl _ Hnone).
Qed.

(** C6 (as the code has it).  The query returns a hotspot within the radius
    at the least distance from the point, and none exactly when no hotspot
    is within the radius.  Among equidistant hotspots it returns the one the
    scan meets first: every row scanned before the result and within the
    radius is strictly farther.  The [id] plays no part in the choice. *)
Theorem select_nearest_is_closest table p radius :
  match select_nearest table p radius with
  | None => forall h, In h table -> ~ ST_Distance (location h) p <= radius
  | Some h =>
      In h table /\ ST_Distance (location h) p <= radius /\
      (forall h', In h' table -> ST_Distance (location h') p <= radius ->
         ST_Distance (location h) p <= ST_Distance (location h') p) /\
      exists before after,
        table = before ++ h :: after /\
        forall h', In h' before -> ST_Distance (location h') p <= radius ->
          ST_Distance (location h) p < ST_Distance (location h') p
  end.
Proof.
  destruct (select_nearest table p radius) as [h|] eqn:E.
  - split; [exact (select_nearest_In _ _ _ _ E)|].
    exact (select_nearest_Some _ _ _ _ E).
  - intros h Hin Hle.
    apply (Qlt_not_le _ _ (proj1 (select_nearest_None _ _ _) E h Hin) Hle).
Qed.

End Trigger.
(** ** The store invariant *)

Section Invariant.

Import Schema.

Variable ST_Distance : Geography -> Geography -> Q.

Local Abbreviation select_nearest := (select_nearest ST_Distance).
Local Abbreviation aggregate_reports_to_hotspots :=
  (aggregate_reports_to_hotspots ST_Distance).
Local Abbreviation absorbing_hotspot := (absorbing_hotspot ST_Distance).
Local Abbreviation absorb := (absorb ST_Distance).
Local Abbreviation absorb_all := (absorb_all ST_Distance).
Local Abbreviation step := (step ST_Distance).
Local Abbreviation execute := (execute ST_Distance).

Lemma reports_of_app u log1 log2 :
  reports_of u (log1 ++ log2) = reports_of u log1 ++ reports_of u log2.
Proof. unfold reports_of. rewrite filter_app, map_app. reflexivity. Qed.

Lemma reports_of_fresh u log :
  ~ In u (map fst log) -> reports_of u log = [].
Proof.
  induction log as [|[v r] log IH]; intro H; [reflexivity|].
  unfold reports_of in *. cbn [filter fst].
  destruct (N.eqb_spec v u) as [E|E].
  - exfalso. apply H. left. exact E.
  - apply IH. intro Hin. apply H. right. exact Hin.
Qed.

Lemma reports_of_one u v r :
  reports_of u [(v, r)] = if (v =? u)%N then [r] else [].
Proof. unfold reports_of. cbn [filter fst]. destruct (v =? u)%N; reflexivity. Qed.

Lemma absorb_readings_app s ds1 ds2 :
  absorb_readings s (ds1 ++ ds2)
  = (s' <- absorb_readings s ds1 ;; absorb_readings s' ds2).
Proof.
  revert s. induction ds1 as [|d ds1 IH]; intro s; cbn [app absorb_readings].
  - reflexivity.
  - destruct (set_list (fst s) (snd s) (Some d)) as [s1|e]; cbn [bind];
      [apply IH|reflexivity].
Qed.

Lemma absorb_readings_count s ds s' :
  absorb_readings s ds = Ok s' ->
  snd s' = (snd s + Z.of_nat (List.length ds))%Z.
Proof.
  revert s. induction ds as [|d ds IH]; intros s H; cbn [absorb_readings] in H.
  - inversion H. cbn [List.length]. lia.
  - destruct (set_list (fst s) (snd s) (Some d)) as [[a n]|e] eqn:E;
      [|discriminate].
    cbn [bind] in H. rewrite (IH _ H).
    destruct (set_list_inv _ _ _ _ _ E) as (_ & _ & _ & -> & _).
    cbn [snd List.length]. lia.
Qed.

Lemma consistent_empty : consistent empty_store.
Proof.
  unfold consistent, empty_store; cbn [hotspots absorbed].
  split; [constructor|]. split; [intros e []|intros h []].
Qed.

Lemma absorbed_by_entries target NEW table e :
  In e (absorbed_by target NEW table) -> e = (target, NEW).
Proof.
  unfold absorbed_by. destruct (existsb _ table); [|intros []].
  intros [<-|[]]. reflexivity.
Qed.

(** The [UPDATE] keeps a consistent store consistent: the report goes into
    the record of the targeted hotspot, when that row is there. *)
Lemma update_consistent now NEW target T L T' :
  consistent (mkStore T L) ->
  update_hotspots now (noise_db NEW) target T = Ok T' ->
  consistent (mkStore T' (L ++ absorbed_by target NEW T)).
Proof.
  intros (Hnd & Hlog & Hrows) Eup. cbn [hotspots absorbed] in Hnd, Hlog, Hrows.
  assert (Hids := update_hotspots_ids _ _ _ _ _ Eup).
  unfold consistent; cbn [hotspots absorbed].
  split; [rewrite Hids; exact Hnd|].
  split.
  { intros e He. rewrite Hids. apply in_app_or in He.
    destruct He as [He|He]; [apply Hlog; exact He|].
    assert (Ee := absorbed_by_entries _ _ _ _ He). subst e. cbn [fst].
    unfold absorbed_by in He.
    destruct (existsb (fun h => (id h =? target)%N) T) eqn:Ex; [|destruct He].
    apply existsb_id. exact Ex. }
  intros h' Hh'.
  destruct (update_hotspots_In _ _ _ _ _ _ Eup Hh') as (h & Hh & Hrel).
  destruct (Hrows h Hh) as (r & rest & d0 & ds & Hrs & Hloc & Hdb & Hmean).
  destruct (N.eqb_spec (id h) target) as [E|E].
  - destruct (set_absorbed_inv _ _ _ _ Hrel) as (d & Hd & Hset & Hh'eq).
    assert (Hid : id h' = id h) by (rewrite Hh'eq; reflexivity).
    assert (Hloc' : location h' = location h) by (rewrite Hh'eq; reflexivity).
    assert (Hin : existsb (fun h => (id h =? target)%N) T = true).
    { apply existsb_id. rewrite <- E. apply in_map. exact Hh. }
    exists r, (rest ++ [NEW]), d0, (ds ++ [d]).
    unfold absorbed_by. rewrite Hin, reports_of_app, Hid, Hrs.
    rewrite reports_of_one, <- E, N.eqb_refl.
    split; [reflexivity|]. split; [rewrite Hloc'; exact Hloc|].
    split.
    + change (r :: rest ++ [NEW]) with ((r :: rest) ++ [NEW]).
      change (d0 :: ds ++ [d]) with ((d0 :: ds) ++ [d]).
      rewrite !map_app, Hdb. cbn [map]. rewrite Hd. reflexivity.
    + unfold running_mean in *. rewrite absorb_readings_app, Hmean.
      cbn [bind absorb_readings fst snd]. rewrite Hset. reflexivity.
  - subst h'. exists r, rest, d0, ds. rewrite reports_of_app, Hrs.
    replace (reports_of (id h) (absorbed_by target NEW T)) with (@nil Report).
    { rewrite app_nil_r. repeat split; assumption. }
    symmetry. apply reports_of_fresh. intro Hin.
    apply in_map_iff in Hin. destruct Hin as (e0 & He0 & Hin).
    apply absorbed_by_entries in Hin. subst e0. cbn [fst] in He0. congruence.
Qed.

(** So does the [INSERT]: the report founds the record of the new hotspot. *)
Lemma insert_consistent uuid now NEW T L T' :
  consistent (mkStore T L) ->
  insert_hotspot uuid now (report_location NEW) (noise_db NEW) T = Ok T' ->
  consistent (mkStore T' (L ++ [(uuid, NEW)])).
Proof.
  intros (Hnd & Hlog & Hrows) Eins. cbn [hotspots absorbed] in Hnd, Hlog, Hrows.
  destruct (insert_hotspot_inv _ _ _ _ _ _ Eins) as (d & Hd & -> & Hfresh).
  unfold consistent; cbn [hotspots absorbed].
  rewrite map_app. cbn [map id].
  split.
  { apply NoDup_app; [exact Hnd|repeat constructor; intros []|].
    intros x Hx [<-|[]]. exact (Hfresh Hx). }
  split.
  { intros e He. apply in_or_app. apply in_app_or in He.
    destruct He as [He|[<-|[]]]; [left; apply Hlog; exact He|].
    right. left. reflexivity. }
  intros h Hh. apply in_app_or in Hh. destruct Hh as [Hh|[<-|[]]].
  - destruct (Hrows h Hh) as (r & rest & d0 & ds & Hrs & Hloc & Hdb & Hmean).
    exists r, rest, d0, ds. rewrite reports_of_app, Hrs, reports_of_one.
    destruct (N.eqb_spec uuid (id h)) as [E|_].
    + exfalso. apply Hfresh. rewrite E. apply in_map. exact Hh.
    + rewrite app_nil_r. repeat split; assumption.
  - exists NEW, [], d, []. cbn [id location avg_noise_db report_count].
    rewrite reports_of_app, reports_of_one, N.eqb_refl.
    rewrite reports_of_fresh.
    + cbn [app map]. rewrite Hd. repeat split; reflexivity.
    + intro Hin. apply Hfresh. apply in_map_iff in Hin.
      destruct Hin as (e0 & <- & He0). apply Hlog. exact He0.
Qed.

Lemma absorb_consistent i s : consistent s -> consistent (absorb i s).
Proof.
  intro Hs. unfold Schema.absorb, Schema.aggregate_reports_to_hotspots,
    Schema.absorbing_hotspot.
  destruct s as [T L]. cbn [hotspots absorbed].
  destruct (select_nearest T (report_location (ins_row i)) cluster_radius)
    as [t|] eqn:Esel.
  - destruct (update_hotspots (ins_now i) (noise_db (ins_row i)) (id t) T)
      as [T'|e] eqn:Eup; [|exact Hs].
    assert (H := update_consistent _ _ _ _ _ _ Hs Eup).
    unfold absorbed_by in H.
    rewrite (proj2 (existsb_id (id t) T)) in H; [exact H|].
    apply in_map. exact (select_nearest_In ST_Distance _ _ _ _ Esel).
  - destruct (insert_hotspot (ins_uuid i) (ins_now i)
                (report_location (ins_row i)) (noise_db (ins_row i)) T)
      as [T'|e] eqn:Eins; [|exact Hs].
    exact (insert_consistent _ _ _ _ _ _ Hs Eins).
Qed.

Lemma absorb_all_consistent l s : consistent s -> consistent (absorb_all l s).
Proof.
  revert s. induction l as [|i l IH]; intros s Hs; [exact Hs|].
  cbn [Schema.absorb_all fold_left]. apply IH. apply absorb_consistent. exact Hs.
Qed.

(** A run that never fails is the run of the store. *)
Lemma aggregate_all_absorb_all l : forall table log table',
  aggregate_all ST_Distance l table = Ok table' ->
  hotspots (absorb_all l (mkStore table log)) = table'.
Proof.
  induction l as [|i l IH]; intros table log table' H; cbn [aggregate_all] in H.
  - inversion H. reflexivity.
  - destruct (aggregate_reports_to_hotspots (ins_uuid i) (ins_now i) (ins_row i)
                table) as [hs|e] eqn:E; [|discriminate].
    cbn [bind] in H. cbn [Schema.absorb_all fold_left].
    unfold Schema.absorb at 2. cbn [hotspots absorbed]. rewrite E.
    apply IH. exact H.
Qed.

(** *** Interleaved invocations *)

Lemma start_counted l : counted (start l).
Proof.
  unfold counted, start; cbn [sys_table sys_calls sys_log].
  split; [exact consistent_empty|].
  intros c t Hin. apply in_map_iff in Hin. destruct Hin as (i & <- & _).
  discriminate.
Qed.

(** Every statement of every call keeps the system counted. *)
Lemma step_counted k s : counted s -> counted (step k s).
Proof.
  destruct s as [T calls log]. intros (Hcons & Hupd).
  cbn [sys_calls sys_table sys_log] in Hcons, Hupd.
  unfold Schema.step; cbn [sys_calls sys_table sys_log].
  destruct (nth_error calls k) as [c|] eqn:Ek; [|split; assumption].
  assert (Hc : In c calls) by (eapply nth_error_In; eassumption).
  destruct c as [i pc0]. unfold step_call; cbn [call_ins call_pc].
  assert (Hkeep : forall c',
            (forall t, call_pc c' = AtUpdate t -> In (id t) (map id T)) ->
            counted (mkSystem T (set_nth k c' calls) (log ++ []))).
  { intros c' Hat. unfold counted; cbn [sys_calls sys_table sys_log].
    rewrite app_nil_r. split; [exact Hcons|].
    intros c0 t Hin. apply In_set_nth in Hin.
    destruct Hin as [->|Hin]; [apply Hat|apply Hupd; exact Hin]. }
  destruct pc0 as [|t| | |e].
  - (* SELECT *)
    destruct (select_nearest T (report_location (ins_row i)) cluster_radius)
      as [t|] eqn:Esel; apply Hkeep; cbn [call_pc].
    + intros t' E. inversion E; subst t'. apply in_map.
      exact (select_nearest_In ST_Distance _ _ _ _ Esel).
    + discriminate.
  - (* UPDATE *)
    destruct (update_hotspots (ins_now i) (noise_db (ins_row i)) (id t) T)
      as [T'|e] eqn:Eup; [|apply Hkeep; discriminate].
    unfold counted; cbn [sys_calls sys_table sys_log].
    split; [exact (update_consistent _ _ _ _ _ _ Hcons Eup)|].
    intros c0 t0 Hin. apply In_set_nth in Hin.
    rewrite (update_hotspots_ids _ _ _ _ _ Eup).
    destruct Hin as [->|Hin]; [discriminate|apply Hupd; exact Hin].
  - (* INSERT *)
    destruct (insert_hotspot (ins_uuid i) (ins_now i)
                (report_location (ins_row i)) (noise_db (ins_row i)) T)
      as [T'|e] eqn:Eins; [|apply Hkeep; discriminate].
    unfold counted; cbn [sys_calls sys_table sys_log].
    split; [exact (insert_consistent _ _ _ _ _ _ Hcons Eins)|].
    intros c0 t0 Hin Hpc. apply In_set_nth in Hin.
    destruct (insert_hotspot_inv _ _ _ _ _ _ Eins) as (d & _ & -> & _).
    rewrite map_app. apply in_or_app. left.
    destruct Hin as [->|Hin]; [discriminate|apply (Hupd _ _ Hin Hpc)].
  - (* returned *)
    rewrite (set_nth_same _ _ _ Ek), app_nil_r. split; assumption.
  - (* raised *)
    rewrite (set_nth_same _ _ _ Ek), app_nil_r. split; assumption.
Qed.

Lemma execute_counted schedule : forall s,
  counted s -> counted (execute schedule s).
Proof.
  induction schedule as [|k schedule IH]; intros s Hs;
    cbn [Schema.execute fold_left].
  - exact Hs.
  - apply IH. apply step_counted. exact Hs.
Qed.

(** C8.  A hotspot's centroid is the position of the first report absorbed
    into it, in every store the trigger builds; and no invocation of the
    trigger, whatever the store, removes a hotspot or changes its [id],
    [location] or [created_at]: the absorbing hotspot changes in
    [avg_noise_db], [report_count] and [updated_at] only, and every other
    hotspot not at all. *)
Theorem absorb_changes_only_statistics :
  (forall l h,
     In h (hotspots (absorb_all l empty_store)) ->
     exists founder later,
       reports_of (id h) (absorbed (absorb_all l empty_store))
         = founder :: later /\
       location h = report_location founder) /\
  (forall i s h,
     In h (hotspots s) ->
     exists h',
       In h' (hotspots (absorb i s)) /\
       id h' = id h /\ location h' = location h /\
       created_at h' = created_at h /\
       (id h <> absorbing_hotspot (ins_uuid i) (ins_row i) (hotspots s) ->
        h' = h)).
Proof.
  split.
  - intros l h Hin.
    destruct (absorb_all_consistent l _ consistent_empty) as (_ & _ & Hrows).
    destruct (Hrows h Hin) as (r & rest & _ & _ & Hrs & Hloc & _).
    exists r, rest. split; assumption.
  - intros i s h Hin.
    unfold Schema.absorb, Schema.aggregate_reports_to_hotspots,
      Schema.absorbing_hotspot.
    destruct (select_nearest (hotspots s) (report_location (ins_row i))
                cluster_radius) as [t|] eqn:Esel.
    + destruct (update_hotspots (ins_now i) (noise_db (ins_row i)) (id t)
                  (hotspots s)) as [hs'|e] eqn:Eup.
      * destruct (update_hotspots_keeps _ _ _ _ _ _ Eup Hin) as (h' & Hh' & Hrel).
        cbn [hotspots]. exists h'. split; [exact Hh'|].
        destruct (N.eqb_spec (id h) (id t)) as [E|E].
        -- destruct (set_absorbed_inv _ _ _ _ Hrel) as (d & _ & _ & ->).
           cbn [id location created_at].
           repeat split; try reflexivity. intro Hne. contradiction.
        -- subst h'. repeat split; reflexivity.
      * exists h. repeat split; try reflexivity. exact Hin.
    + destruct (insert_hotspot (ins_uuid i) (ins_now i)
                  (report_location (ins_row i)) (noise_db (ins_row i))
                  (hotspots s)) as [hs'|e] eqn:Eins.
      * destruct (insert_hotspot_inv _ _ _ _ _ _ Eins) as (d & _ & -> & _).
        cbn [hotspots].
        exists h. repeat split; try reflexivity.
        apply in_or_app. left. exact Hin.
      * exists h. repeat split; try reflexivity. exact Hin.
Qed.

End Invariant.
(** ** Reports at one place, and calls one after the other *)

Section SamePlace.

Import Schema.

Variable ST_Distance : Geography -> Geography -> Q.

Lemma last_cons {A} (a : A) l d : last (a :: l) d = last l a.
Proof.
  revert a d. induction l as [|b l IH]; intros a d; [reflexivity|].
  change (last (a :: b :: l) d) with (last (b :: l) d).
  rewrite (IH b d), (IH b a). reflexivity.
Qed.

(** *** Reports at one place *)

Hypothesis ST_Distance_self : forall p, ST_Distance p p == 0.

Lemma select_nearest_single h p :
  location h = p ->
  select_nearest ST_Distance [h] p cluster_radius = Some h.
Proof.
  intros <-. rewrite select_nearest_cons. unfold ST_DWithin.
  replace (Qle_bool (ST_Distance (location h) (location h)) cluster_radius)
    with true; [reflexivity|].
  symmetry. apply Qle_bool_iff. rewrite ST_Distance_self.
  unfold cluster_radius. discriminate.
Qed.

Lemma same_place_run p l : forall h ds,
  location h = p ->
  Forall (fun i => report_location (ins_row i) = p) l ->
  map (fun i => noise_db (ins_row i)) l = map Some ds ->
  aggregate_all ST_Distance l [h]
  = (s <- absorb_readings (avg_noise_db h, report_count h) ds ;;
     Ok [mkHotspot (id h) p (fst s) (snd s) (created_at h)
           (last (map ins_now l) (updated_at h))]).
Proof.
  induction l as [|i l IH]; intros h ds Hloc Hall Hds.
  - destruct ds; [|discriminate]. cbn. subst p. destruct h; reflexivity.
  - destruct ds as [|d ds]; [discriminate|].
    cbn [map] in Hds. inversion Hds as [[Hd Hds']]. clear Hds.
    inversion Hall as [|? ? Hi Hl]; subst.
    cbn [aggregate_all absorb_readings fst snd].
    unfold aggregate_reports_to_hotspots.
    rewrite Hi, (select_nearest_single h _ eq_refl).
    cbn [update_hotspots]. rewrite N.eqb_refl, Hd. unfold set_absorbed.
    destruct (set_list (avg_noise_db h) (report_count h) (Some d))
      as [[a n]|e]; cbn [bind fst snd]; [|reflexivity].
    unfold update_updated_at_column.
    cbn [id location avg_noise_db report_count created_at].
    rewrite (IH (mkHotspot (id h) (location h) a n (created_at h) (ins_now i))
               ds eq_refl Hl Hds').
    cbn [avg_noise_db report_count id created_at updated_at map].
    rewrite last_cons. reflexivity.
Qed.

(** A run of reports at one place from the empty table: the first founds
    the hotspot, the others are absorbed into it while the [SET] list
    evaluates. *)
Lemma same_place_from_empty p i l d ds :
  Forall (fun i => report_location (ins_row i) = p) (i :: l) ->
  map (fun i => noise_db (ins_row i)) (i :: l) = map Some (d :: ds) ->
  aggregate_all ST_Distance (i :: l) []
  = (s <- running_mean d ds ;;
     Ok [mkHotspot (ins_uuid i) p (fst s) (snd s) (ins_now i)
           (last (map ins_now l) (ins_now i))]).
Proof.
  intros Hall Hds. inversion Hall as [|? ? Hi Hl]; subst.
  cbn [map] in Hds. inversion Hds as [[Hd Hds']]. clear Hds.
  cbn [aggregate_all]. unfold aggregate_reports_to_hotspots.
  cbn [select_nearest filter order_by fold_right limit firstn hd_error].
  rewrite Hd. cbn [insert_hotspot existsb app bind].
  rewrite (same_place_run (report_location (ins_row i)) l
             (mkHotspot (ins_uuid i) (report_location (ins_row i)) d 1
                (ins_now i) (ins_now i)) ds eq_refl Hl Hds').
  reflexivity.
Qed.

(** A call that runs its two statements back to back does what the trigger
    does in one go. *)
Lemma two_steps k i T T' calls log :
  nth_error calls k = Some (mkCall i AtSelect) ->
  aggregate_reports_to_hotspots ST_Distance (ins_uuid i) (ins_now i) (ins_row i) T
    = Ok T' ->
  exists log',
    step ST_Distance k (step ST_Distance k (mkSystem T calls log))
    = mkSystem T' (set_nth k (mkCall i Returned) calls) log'.
Proof.
  intros Ek Hagg. unfold aggregate_reports_to_hotspots in Hagg.
  unfold step at 2. cbn [sys_calls sys_table sys_log]. rewrite Ek.
  unfold step_call. cbn [call_ins call_pc].
  destruct (select_nearest ST_Distance T (report_location (ins_row i))
              cluster_radius) as [t|];
    unfold step; cbn [sys_calls sys_table sys_log];
    rewrite (nth_error_set_nth k _ _ _ Ek); unfold step_call;
    cbn [call_ins call_pc]; rewrite Hagg, set_nth_set_nth;
    eexists; reflexivity.
Qed.

Lemma serial_execute l : forall done T T' log,
  aggregate_all ST_Distance l T = Ok T' ->
  exists log',
    execute ST_Distance
      (flat_map (fun k => [k; k]) (seq (List.length done) (List.length l)))
      (mkSystem T (done ++ map (fun i => mkCall i AtSelect) l) log)
    = mkSystem T' (done ++ map (fun i => mkCall i Returned) l) log'.
Proof.
  induction l as [|i l IH]; intros done T T' log Hrun;
    cbn [aggregate_all] in Hrun.
  - inversion Hrun. exists log. reflexivity.
  - destruct (aggregate_reports_to_hotspots ST_Distance (ins_uuid i) (ins_now i)
                (ins_row i) T) as [T1|e] eqn:Hagg; [|discriminate].
    cbn [bind] in Hrun.
    cbn [List.length seq flat_map app map execute fold_left].
    destruct (two_steps (List.length done) i T T1
                (done ++ mkCall i AtSelect :: map (fun i => mkCall i AtSelect) l)
                log) as (log1 & Hsteps); [|exact Hagg|].
    + rewrite nth_error_app2, Nat.sub_diag by lia. reflexivity.
    + fold (execute ST_Distance). unfold execute in *.
      rewrite Hsteps, set_nth_app_length.
      destruct (IH (done ++ [mkCall i Returned]) T1 T' log1 Hrun) as (log' & Hrest).
      exists log'.
      rewrite length_app, <- !app_assoc in Hrest. cbn [List.length app] in Hrest.
      rewrite Nat.add_1_r in Hrest. exact Hrest.
Qed.

Lemma forallb_returned l :
  forallb returned (map (fun i => mkCall i Returned) l) = true.
Proof. induction l; simpl; auto. Qed.

End SamePlace.

(** ** The running mean *)

Lemma exact_absorb_sum ds : forall s S,
  (1 <= snd s)%Z ->
  fst s * inject_Z (snd s) == S ->
  fst (exact_absorb s ds) * inject_Z (snd (exact_absorb s ds)) == S + Qsum ds /\
  snd (exact_absorb s ds) = (snd s + Z.of_nat (List.length ds))%Z.
Proof.
  induction ds as [|d ds IH]; intros [a k] S Hk Hs; cbn [fst snd] in *.
  - cbn [exact_absorb fst snd Qsum fold_right List.length].
    split; [rewrite Hs; ring|lia].
  - cbn [exact_absorb fst snd].
    destruct (IH ((a * inject_Z k + d) / inject_Z (k + 1), (k + 1)%Z) (S + d))
      as [H1 H2].
    + cbn [snd]. lia.
    + cbn [fst snd]. rewrite Hs.
      assert (Hnz : ~ inject_Z (k + 1) == 0).
      { intro E. change 0 with (inject_Z 0) in E.
        apply (proj1 (inject_Z_injective _ _)) in E. lia. }
      field. exact Hnz.
    + split.
      * rewrite H1. change (Qsum (d :: ds)) with (d + Qsum ds). ring.
      * rewrite H2. cbn [snd List.length]. lia.
Qed.

Lemma exact_running_mean_is_mean d ds :
  exact_running_mean d ds == mean (d :: ds).
Proof.
  unfold exact_running_mean, mean.
  destruct (exact_absorb_sum ds (d, 1%Z) d) as [H1 H2].
  - cbn [snd]. lia.
  - cbn [fst snd]. change (inject_Z 1) with 1. ring.
  - cbn [snd] in H2.
    assert (Hn : snd (exact_absorb (d, 1%Z) ds)
                 = Z.of_nat (List.length (d :: ds))).
    { rewrite H2. cbn [List.length]. lia. }
    rewrite Hn in H1.
    assert (Hnz : ~ inject_Z (Z.of_nat (List.length (d :: ds))) == 0).
    { intro E. change 0 with (inject_Z 0) in E.
      apply (proj1 (inject_Z_injective _ _)) in E. cbn [List.length] in E. lia. }
    change (Qsum (d :: ds)) with (d + Qsum ds).
    apply (Qmult_inj_r _ _ _ Hnz). rewrite H1. field. exact Hnz.
Qed.

(** C1 (as the code has it).  At all times, whatever reports are inserted
    and however the invocations of the trigger interleave, every hotspot's
    [report_count] is the number of reports absorbed into it (so at least
    1) and its [avg_noise_db] is the running mean of their readings: the
    value the update [((avg_noise_db * report_count) + noise_db) /
    (report_count + 1)], evaluated in binary64, yields from them in the
    order of absorption.  Reports at one coordinate, inserted one after
    another into the empty table, end in a single hotspot at that coordinate
    with the running mean of all their readings and their number as its
    count, as long as no insertion is aborted by an arithmetic error.  Over
    the rationals, where nothing rounds, the running mean is the arithmetic
    mean. *)
Theorem hotspot_statistics_are_running_means ST_Distance :
  (forall l schedule h,
     let s := Schema.execute ST_Distance schedule (Schema.start l) in
     In h (Schema.sys_table s) ->
     exists r rest d ds,
       Schema.reports_of (Schema.id h) (Schema.sys_log s) = r :: rest /\
       map Schema.noise_db (r :: rest) = map Some (d :: ds) /\
       Schema.report_count h = Z.of_nat (List.length (r :: rest)) /\
       (1 <= Schema.report_count h)%Z /\
       Schema.running_mean d ds
         = Ok (Schema.avg_noise_db h, Schema.report_count h)) /\
  ((forall p, ST_Distance p p == 0) ->
   forall p i l d ds,
     Forall (fun i => Schema.report_location (Schema.ins_row i) = p) (i :: l) ->
     map (fun i => Schema.noise_db (Schema.ins_row i)) (i :: l)
       = map Some (d :: ds) ->
     Schema.aggregate_all ST_Distance (i :: l) []
       = (s <- Schema.running_mean d ds ;;
          Ok [Schema.mkHotspot (Schema.ins_uuid i) p (fst s) (snd s)
                (Schema.ins_now i)
                (last (map Schema.ins_now l) (Schema.ins_now i))]) /\
     forall avg n,
       Schema.running_mean d ds = Ok (avg, n) ->
       n = Z.of_nat (List.length (i :: l)) /\
       Schema.sys_table
         (Schema.execute ST_Distance
            (Schema.serial (List.length (i :: l))) (Schema.start (i :: l)))
       = [Schema.mkHotspot (Schema.ins_uuid i) p avg n (Schema.ins_now i)
            (last (map Schema.ins_now l) (Schema.ins_now i))]) /\
  (forall d ds, exact_running_mean d ds == mean (d :: ds)).
Proof.
  split; [|split].
  - intros l schedule h s Hin.
    destruct (execute_counted ST_Distance schedule _ (start_counted l))
      as ((_ & _ & Hrows) & _).
    destruct (Hrows h Hin) as (r & rest & d & ds & Hrs & _ & Hdb & Hmean).
    exists r, rest, d, ds. split; [exact Hrs|]. split; [exact Hdb|].
    assert (Hcnt := absorb_readings_count _ _ _ Hmean).
    cbn [snd] in Hcnt.
    assert (Hlen : List.length rest = List.length ds).
    { cbn [map] in Hdb. injection Hdb as _ Hdb'.
      rewrite <- (length_map Some ds), <- Hdb'. symmetry. apply length_map. }
    assert (Hn : Schema.report_count h = Z.of_nat (List.length (r :: rest))).
    { rewrite Hcnt. cbn [List.length]. lia. }
    split; [exact Hn|]. split; [|exact Hmean].
    rewrite Hn. cbn [List.length]. lia.
  - intros Hself p i l d ds Hall Hds.
    assert (Hrun := same_place_from_empty ST_Distance Hself p i l d ds Hall Hds).
    split; [exact Hrun|].
    intros avg n Hmean.
    assert (Hcnt := absorb_readings_count _ _ _ Hmean).
    cbn [snd] in Hcnt.
    assert (Hlen : List.length ds = List.length l).
    { cbn [map] in Hds. injection Hds as _ Hds'.
      rewrite <- (length_map Some ds), <- Hds'. apply length_map. }
    split; [rewrite Hcnt; cbn [List.length]; lia|].
    rewrite Hmean in Hrun. cbn [bind fst snd] in Hrun.
    destruct (serial_execute ST_Distance (i :: l) [] [] _ [] Hrun)
      as (log' & Hser).
    cbn [List.length app] in Hser. unfold Schema.serial, Schema.start.
    cbn [List.length]. rewrite Hser. reflexivity.
  - exact exact_running_mean_is_mean.
Qed.

(** ** Calls that carry one position and one reading *)

Section SameValue.

Import Schema.

Variable ST_Distance : Geography -> Geography -> Q.

Lemma total_count_cons h t :
  total_count (h :: t) = (report_count h + total_count t)%Z.
Proof. reflexivity. Qed.

Lemma total_count_app t1 t2 :
  total_count (t1 ++ t2) = (total_count t1 + total_count t2)%Z.
Proof.
  induction t1 as [|h t1 IH]; [reflexivity|].
  cbn [app]. rewrite !total_count_cons, IH. lia.
Qed.

Lemma total_count_nonneg table :
  Forall (fun h => (1 <= report_count h)%Z) table ->
  (0 <= total_count table)%Z.
Proof.
  induction 1 as [|x table Hx Hall IH]; [cbn; lia|].
  rewrite total_count_cons. lia.
Qed.

Lemma total_count_bound table h :
  Forall (fun h => (1 <= report_count h)%Z) table ->
  In h table -> (report_count h <= total_count table)%Z.
Proof.
  induction 1 as [|x table Hx Hall IH]; intros Hin; [contradiction|].
  rewrite total_count_cons.
  assert (H0 := total_count_nonneg _ Hall).
  destruct Hin as [->|Hin]; [lia|]. specialize (IH Hin). lia.
Qed.

Lemma total_count_length table :
  Forall (fun h => (1 <= report_count h)%Z) table ->
  (Z.of_nat (List.length table) <= total_count table)%Z.
Proof.
  induction 1 as [|x table Hx Hall IH]; [cbn; lia|].
  rewrite total_count_cons. cbn [List.length]. lia.
Qed.

Lemma total_count_replace t t' table :
  NoDup (map id table) -> In t table ->
  total_count (map (fun h => if (id h =? id t)%N then t' else h) table)
  = (total_count table - report_count t + report_count t')%Z.
Proof.
  induction table as [|h table IH]; intros Hnd Hin; [contradiction|].
  cbn [map] in Hnd. inversion Hnd as [|? ? Hnotin Hnd']; subst.
  cbn [map]. rewrite !total_count_cons.
  destruct (N.eqb_spec (id h) (id t)) as [E|E].
  - assert (h = t).
    { destruct Hin as [Hin|Hin]; [exact Hin|].
      exfalso. apply Hnotin. rewrite E. apply in_map. exact Hin. }
    subst h.
    replace (map (fun h => if (id h =? id t)%N then t' else h) table) with table.
    { lia. }
    clear -Hnotin. induction table as [|x table IH]; [reflexivity|].
    cbn [map]. destruct (N.eqb_spec (id x) (id t)) as [Ex|Ex].
    + exfalso. apply Hnotin. left. exact Ex.
    + rewrite <- IH; [reflexivity|]. intro H. apply Hnotin. right. exact H.
  - destruct Hin as [Hin|Hin]; [congruence|].
    rewrite (IH Hnd' Hin). lia.
Qed.

Lemma all_equal_repeat {A} (v : A) l :
  Forall (fun x => x = v) l -> l = repeat v (List.length l).
Proof.
  induction 1 as [|x l Hx Hl IH]; [reflexivity|].
  cbn [List.length repeat]. rewrite <- IH, Hx. reflexivity.
Qed.

Lemma same_value_readings v u log ds :
  Forall (fun e => noise_db (snd e) = Some v) log ->
  map noise_db (reports_of u log) = map Some ds ->
  ds = repeat v (List.length ds).
Proof.
  intros H E. apply all_equal_repeat. apply Forall_forall. intros x Hx.
  assert (Hin : In (Some x) (map noise_db (reports_of u log))).
  { rewrite E. apply in_map. exact Hx. }
  apply in_map_iff in Hin. destruct Hin as (r & Hr & Hin).
  unfold reports_of in Hin. apply in_map_iff in Hin.
  destruct Hin as (e & <- & He). apply filter_In in He. destruct He as [He _].
  assert (Hv := proj1 (Forall_forall _ _) H e He). cbn beta in Hv.
  assert (Heq : Some x = Some v) by (rewrite <- Hr; exact Hv).
  injection Heq as Heq. exact Heq.
Qed.

(** *** Calls that carry one position and one reading *)

Variables (p : Geography) (v : float8) (l : list Insertion) (fit : float8 * Z).

Hypothesis ST_Distance_self : forall q, ST_Distance q q == 0.
Hypothesis same_report :
  Forall (fun i => report_location (ins_row i) = p /\
                   noise_db (ins_row i) = Some v) l.
Hypothesis distinct_uuids : NoDup (map ins_uuid l).
(** The running mean of as many copies of [v] as there are calls can be
    computed: no step of it leaves the range of FLOAT8 or of INT. *)
Hypothesis fits : running_mean v (repeat v (Nat.pred (List.length l))) = Ok fit.

(** A hotspot that holds fewer readings than there are calls can absorb one
    more. *)
Lemma copies_fit k s :
  (k < Nat.pred (List.length l))%nat ->
  running_mean v (repeat v k) = Ok s ->
  exists s', set_list (fst s) (snd s) (Some v) = Ok s'.
Proof.
  intros Hk Hs.
  assert (Hsplit : repeat v (Nat.pred (List.length l))
                   = repeat v k ++ v :: repeat v (Nat.pred (List.length l) - k - 1)).
  { replace (Nat.pred (List.length l))
      with (k + S (Nat.pred (List.length l) - k - 1))%nat at 1 by lia.
    rewrite repeat_app. reflexivity. }
  unfold running_mean in *. rewrite Hsplit, absorb_readings_app, Hs in fits.
  cbn [bind absorb_readings] in fits.
  destruct (set_list (fst s) (snd s) (Some v)) as [s'|e]; [|discriminate].
  exists s'. reflexivity.
Qed.

Lemma start_sound : sound p v l (start l).
Proof.
  unfold sound. split; [apply start_counted|].
  unfold start; cbn [sys_table sys_calls sys_log].
  split; [rewrite map_map; cbn [call_ins]; apply map_id|].
  split; [constructor|]. split; [constructor|].
  split.
  { replace (filter returned (map (fun i => mkCall i AtSelect) l))
      with (@nil Call); [reflexivity|].
    clear. induction l as [|i l' IH]; [reflexivity|exact IH]. }
  split.
  { intros c e Hin. apply in_map_iff in Hin. destruct Hin as (i & <- & _).
    discriminate. }
  intros h [].
Qed.

Lemma step_sound k s : sound p v l s -> sound p v l (Schema.step ST_Distance k s).
Proof.
  intros (Hcounted & Hins & Hrows & Hlogv & Htot & Hraise & Hown).
  split; [apply step_counted; exact Hcounted|].
  destruct s as [T calls log].
  destruct Hcounted as ((Hnd & Hlog & Hmeans) & Hupd).
  cbn [sys_calls sys_table sys_log hotspots absorbed]
    in Hins, Hrows, Hlogv, Htot, Hraise, Hown, Hnd, Hlog, Hupd, Hmeans.
  unfold Schema.step; cbn [sys_calls sys_table sys_log].
  destruct (nth_error calls k) as [c|] eqn:Ek;
    [|cbn [sys_calls sys_table sys_log]; repeat split; assumption].
  assert (Hc : In c calls) by (eapply nth_error_In; eassumption).
  assert (Hi : report_location (ins_row (call_ins c)) = p /\
               noise_db (ins_row (call_ins c)) = Some v).
  { rewrite Forall_forall in same_report. apply same_report.
    rewrite <- Hins. apply in_map. exact Hc. }
  destruct Hi as [Hp Hv].
  assert (Hlen : List.length calls = List.length l).
  { rewrite <- Hins. symmetry. apply length_map. }
  assert (Huu : NoDup (map (fun c => ins_uuid (call_ins c)) calls)).
  { rewrite <- (map_map call_ins ins_uuid), Hins. exact distinct_uuids. }
  assert (Hcounts : Forall (fun h => (1 <= report_count h)%Z) T).
  { eapply Forall_impl; [|exact Hrows]. cbn beta. intros h (_ & H). exact H. }
  destruct c as [i pc0]; cbn [call_ins] in Hp, Hv.
  unfold step_call; cbn [call_ins call_pc].
  destruct pc0 as [|t| | |e].
  - (* SELECT *)
    assert (Hkeep : forall c',
              returned c' = false -> call_ins c' = i ->
              (forall e, call_pc c' <> Raised e) ->
              map call_ins (set_nth k c' calls) = l /\
              Forall (fun h => location h = p /\ (1 <= report_count h)%Z) T /\
              Forall (fun e => noise_db (snd e) = Some v) (log ++ []) /\
              total_count T
                = Z.of_nat (List.length (filter returned (set_nth k c' calls))) /\
              (forall c e, In c (set_nth k c' calls) -> call_pc c <> Raised e) /\
              (forall h, In h T ->
                 exists c, In c (set_nth k c' calls) /\ returned c = true /\
                           ins_uuid (call_ins c) = id h)).
    { intros c' Hret Hci Hnr.
      split; [rewrite (map_set_nth_same call_ins k c' _ _ Ek Hci); exact Hins|].
      split; [exact Hrows|].
      split; [rewrite app_nil_r; exact Hlogv|].
      split.
      { rewrite Htot. f_equal.
        assert (H := filter_set_nth returned k c' _ _ Ek).
        rewrite Hret in H. cbn [returned call_pc] in H. lia. }
      split.
      { intros c0 e Hin. apply In_set_nth in Hin.
        destruct Hin as [->|Hin]; [apply Hnr|apply Hraise; exact Hin]. }
      intros h Hh. destruct (Hown h Hh) as (c0 & Hc0 & Hr0 & Hu0).
      exists c0. split; [|split; assumption].
      eapply In_set_nth_other; [exact Ek|exact Hc0|].
      intro E. subst c0. discriminate. }
    destruct (select_nearest ST_Distance T (report_location (ins_row i))
                cluster_radius) as [t|] eqn:Esel;
      cbn [sys_calls sys_table sys_log]; apply Hkeep;
      cbn [returned call_pc call_ins]; try reflexivity; discriminate.
  - (* UPDATE *)
    assert (Hin_t : In (id t) (map id T)) by (apply (Hupd _ t Hc); reflexivity).
    assert (Hnotret : (List.length (filter returned calls) < List.length calls)%nat).
    { apply (filter_length_lt returned _ _ Hc). reflexivity. }
    apply in_map_iff in Hin_t. destruct Hin_t as (t0 & Et0 & Ht0).
    assert (Hsucc : exists s', set_list (avg_noise_db t0) (report_count t0) (Some v)
                               = Ok s').
    { destruct (Hmeans t0 Ht0) as (r & rest & d & ds & Hrs & _ & Hdb & Hmean).
      rewrite <- Hrs in Hdb.
      assert (Hall := same_value_readings v (id t0) log (d :: ds) Hlogv Hdb).
      cbn [List.length repeat] in Hall. injection Hall as Hd Hds.
      rewrite Hd in Hmean.
      assert (Hcnt := absorb_readings_count _ _ _ Hmean). cbn [snd] in Hcnt.
      assert (H1 := total_count_bound _ _ Hcounts Ht0).
      rewrite Hds in Hmean.
      assert (Hk : (List.length ds < Nat.pred (List.length l))%nat) by lia.
      destruct (copies_fit (List.length ds)
                  (avg_noise_db t0, report_count t0) Hk Hmean) as (s' & Hs').
      exists s'. exact Hs'. }
    destruct Hsucc as ([a n] & Hset).
    rewrite <- Et0, Hv, (update_hotspots_single _ _ _ _ Hnd Ht0).
    unfold set_absorbed. rewrite Hset. cbn [bind fst snd].
    unfold update_updated_at_column.
    cbn [id location avg_noise_db report_count created_at].
    cbn [sys_calls sys_table sys_log].
    destruct (set_list_inv _ _ _ _ _ Hset) as (_ & _ & _ & -> & _).
    set (t' := mkHotspot (id t0) (location t0) a (report_count t0 + 1)
                 (created_at t0) (ins_now i)).
    split; [rewrite (map_set_nth_same call_ins k (mkCall i Returned) _ _ Ek eq_refl);
            exact Hins|].
    split.
    { apply Forall_forall. intros h' Hh'. apply in_map_iff in Hh'.
      destruct Hh' as (h & <- & Hh).
      rewrite Forall_forall in Hrows. destruct (Hrows h Hh) as (Hl & Hn).
      destruct (id h =? id t0)%N; [|auto].
      destruct (Hrows t0 Ht0) as (Hl0 & Hn0).
      subst t'. cbn [location report_count]. split; [exact Hl0|lia]. }
    split.
    { apply Forall_app. split; [exact Hlogv|].
      unfold absorbed_by. destruct (existsb _ T); [|constructor].
      constructor; [exact Hv|constructor]. }
    split.
    { rewrite (total_count_replace _ _ _ Hnd Ht0), Htot.
      subst t'. cbn [report_count].
      assert (H := filter_set_nth returned k (mkCall i Returned) _ _ Ek).
      cbn [returned call_pc] in H. lia. }
    split.
    { intros c0 e Hin. apply In_set_nth in Hin.
      destruct Hin as [->|Hin]; [discriminate|apply Hraise; exact Hin]. }
    intros h' Hh'. apply in_map_iff in Hh'. destruct Hh' as (h & <- & Hh).
    destruct (Hown h Hh) as (c0 & Hc0 & Hr0 & Hu0).
    exists c0. split; [|split; [exact Hr0|]].
    + eapply In_set_nth_other; [exact Ek|exact Hc0|].
      intro E. subst c0. discriminate.
    + rewrite Hu0. destruct (N.eqb_spec (id h) (id t0)) as [E|E];
        [subst t'; cbn [id]; exact E|reflexivity].
  - (* INSERT *)
    assert (Hfresh : ~ In (ins_uuid i) (map id T)).
    { intro Hin. apply in_map_iff in Hin. destruct Hin as (h & E & Hh).
      destruct (Hown h Hh) as (c0 & Hc0 & Hr0 & Hu0).
      assert (c0 = mkCall i AtInsert).
      { apply (NoDup_map_eq (fun c => ins_uuid (call_ins c)) calls);
          try assumption. cbn [call_ins]. congruence. }
      subst c0. discriminate. }
    unfold insert_hotspot. rewrite Hv.
    replace (existsb (fun h => (id h =? ins_uuid i)%N) T) with false.
    2:{ symmetry. destruct (existsb _ T) eqn:E; [|reflexivity].
        exfalso. apply Hfresh. apply existsb_id. exact E. }
    cbn [sys_calls sys_table sys_log].
    split; [rewrite (map_set_nth_same call_ins k (mkCall i Returned) _ _ Ek eq_refl);
            exact Hins|].
    split.
    { apply Forall_app. split; [exact Hrows|].
      constructor; [|constructor]. cbn [location report_count].
      split; [exact Hp|lia]. }
    split.
    { apply Forall_app. split; [exact Hlogv|].
      constructor; [exact Hv|constructor]. }
    split.
    { rewrite total_count_app, Htot, total_count_cons.
      cbn [total_count fold_right report_count].
      assert (H := filter_set_nth returned k (mkCall i Returned) _ _ Ek).
      cbn [returned call_pc] in H. lia. }
    split.
    { intros c0 e Hin. apply In_set_nth in Hin.
      destruct Hin as [->|Hin]; [discriminate|apply Hraise; exact Hin]. }
    intros h Hh. apply in_app_or in Hh. destruct Hh as [Hh|[<-|[]]].
    + destruct (Hown h Hh) as (c0 & Hc0 & Hr0 & Hu0).
      exists c0. split; [|split; assumption].
      eapply In_set_nth_other; [exact Ek|exact Hc0|].
      intro E. subst c0. discriminate.
    + exists (mkCall i Returned). split; [|split; reflexivity].
      eapply In_set_nth_new. exact Ek.
  - (* returned *)
    cbn [sys_calls sys_table sys_log].
    rewrite (set_nth_same _ _ _ Ek), app_nil_r. repeat split; assumption.
  - (* raised *)
    cbn [sys_calls sys_table sys_log].
    rewrite (set_nth_same _ _ _ Ek), app_nil_r. repeat split; assumption.
Qed.

Lemma execute_sound schedule : forall s,
  sound p v l s -> sound p v l (Schema.execute ST_Distance schedule s).
Proof.
  induction schedule as [|k schedule IH]; intros s Hs; cbn [Schema.execute fold_left].
  - exact Hs.
  - apply IH. apply step_sound. exact Hs.
Qed.

Lemma same_report_readings l' :
  Forall (fun i => report_location (ins_row i) = p /\
                   noise_db (ins_row i) = Some v) l' ->
  Forall (fun i => report_location (ins_row i) = p) l' /\
  map (fun i => noise_db (ins_row i)) l'
  = map Some (repeat v (List.length l')).
Proof.
  induction 1 as [|i l' [Hp Hv] Hl [IH1 IH2]]; [split; [constructor|reflexivity]|].
  split; [constructor; assumption|].
  cbn [map List.length repeat]. rewrite Hv, IH2. reflexivity.
Qed.

(** C4 (as the code has it).  Calls that carry one position and one reading
    [v], such that the running mean of as many copies of [v] can be
    computed.  Whatever the interleaving, no call fails and no update is
    lost: every hotspot sits at the common position, its average is the
    binary64 running mean of as many copies of [v] as it counts (so [v]
    itself for a hotspot that counts one report), and the counts of all
    hotspots add up to the number of calls that have returned.  Once all
    calls have returned the counts add up to the number of calls, spread
    over at least one and at most that many hotspots: nothing in the trigger
    stops two calls from both founding a hotspot.  When the calls run one
    after the other there is exactly one hotspot, counting them all. *)
Theorem concurrent_absorbs_lose_no_update schedule :
  let s := Schema.execute ST_Distance schedule (start l) in
  Forall (fun h =>
            location h = p /\ (1 <= report_count h)%Z /\
            running_mean v (repeat v (Nat.pred (Z.to_nat (report_count h))))
              = Ok (avg_noise_db h, report_count h)) (sys_table s) /\
  total_count (sys_table s)
    = Z.of_nat (List.length (filter returned (sys_calls s))) /\
  (forall c e, In c (sys_calls s) -> call_pc c <> Raised e) /\
  (finished s = true -> l <> [] ->
     total_count (sys_table s) = Z.of_nat (List.length l) /\
     (1 <= List.length (sys_table s) <= List.length l)%nat) /\
  (l <> [] ->
     exists h,
       finished (Schema.execute ST_Distance (serial (List.length l)) (start l)) = true /\
       sys_table (Schema.execute ST_Distance (serial (List.length l)) (start l)) = [h] /\
       location h = p /\
       report_count h = Z.of_nat (List.length l) /\
       avg_noise_db h = fst fit).
Proof.
  intro s.
  destruct (execute_sound schedule _ start_sound)
    as (((_ & _ & Hmeans) & _) & Hins & Hrows & Hlogv & Htot & Hraise & _).
  cbn [hotspots absorbed] in Hmeans.
  fold s in Hmeans, Hins, Hrows, Hlogv, Htot, Hraise.
  assert (Hcounts : Forall (fun h => (1 <= report_count h)%Z) (sys_table s)).
  { eapply Forall_impl; [|exact Hrows]. cbn beta. intros h (_ & H). exact H. }
  split.
  { apply Forall_forall. intros h Hh.
    destruct (proj1 (Forall_forall _ _) Hrows h Hh) as (Hl & Hn).
    split; [exact Hl|]. split; [exact Hn|].
    destruct (Hmeans h Hh) as (r & rest & d & ds & Hrs & _ & Hdb & Hmean).
    rewrite <- Hrs in Hdb.
    assert (Hall := same_value_readings v (id h) (sys_log s) (d :: ds) Hlogv Hdb).
    cbn [List.length repeat] in Hall. injection Hall as Hd Hds.
    rewrite Hd in Hmean.
    assert (Hcnt := absorb_readings_count _ _ _ Hmean). cbn [snd] in Hcnt.
    replace (Nat.pred (Z.to_nat (report_count h))) with (List.length ds) by lia.
    rewrite <- Hds. exact Hmean. }
  split; [exact Htot|]. split; [exact Hraise|].
  split.
  - intros Hfin Hne.
    assert (Hall : total_count (sys_table s) = Z.of_nat (List.length l)).
    { rewrite Htot. unfold finished in Hfin.
      rewrite (filter_forallb _ _ Hfin), <- Hins, length_map. reflexivity. }
    split; [exact Hall|].
    assert (Hlen := total_count_length _ Hcounts).
    destruct (sys_table s) as [|h T] eqn:ET.
    + cbn in Hall. destruct l; [congruence|cbn [List.length] in Hall; lia].
    + cbn [List.length] in *. lia.
  - intro Hne. destruct l as [|i l'] eqn:El; [congruence|].
    destruct (same_report_readings _ same_report) as [Hplaces Hvalues].
    cbn [List.length repeat Nat.pred] in Hvalues, fits.
    assert (Hrun := same_place_from_empty ST_Distance ST_Distance_self p i l' v
                      (repeat v (List.length l')) Hplaces Hvalues).
    rewrite fits in Hrun. cbn [bind] in Hrun.
    destruct (serial_execute ST_Distance (i :: l') [] [] _ [] Hrun)
      as (log' & Hser).
    cbn [List.length app] in Hser.
    eexists. unfold serial, start. cbn [List.length]. rewrite Hser.
    cbn [sys_table sys_calls finished].
    split; [apply forallb_returned|]. split; [reflexivity|].
    cbn [location report_count avg_noise_db].
    split; [reflexivity|]. split; [|reflexivity].
    assert (Hcnt := absorb_readings_count _ _ _ fits). cbn [snd] in Hcnt.
    rewrite Hcnt, repeat_length. lia.
Qed.

End SameValue.
(** ** Report ingestion *)

Lemma mem_false s l : mem s l = false <-> ~ In s l.
Proof.
  unfold mem. split.
  - intros H Hin.
    assert (existsb (String.eqb s) l = true).
    { apply existsb_exists. exists s. split; [exact Hin|apply String.eqb_refl]. }
    congruence.
  - intro H. destruct (existsb (String.eqb s) l) eqn:E; [|reflexivity].
    apply existsb_exists in E. destruct E as (x & Hin & E).
    apply String.eqb_eq in E. subst x. contradiction.
Qed.

Lemma mem_true s l : mem s l = true <-> In s l.
Proof.
  unfold mem. rewrite existsb_exists. split.
  - intros (x & Hin & E). apply String.eqb_eq in E. subst x. exact Hin.
  - intro Hin. exists s. split; [exact Hin|apply String.eqb_refl].
Qed.

Lemma existsb_N_In u users : existsb (N.eqb u) users = true <-> In u users.
Proof.
  rewrite existsb_exists. split.
  - intros (x & Hin & E). apply N.eqb_eq in E. subst x. exact Hin.
  - intro Hin. exists u. split; [exact Hin|apply N.eqb_refl].
Qed.

(** *** Numbers of the request *)

Lemma is_finite_not_nan x :
  PrimFloat.is_finite x = true -> PrimFloat.is_nan x = false.
Proof.
  unfold PrimFloat.is_finite. destruct (PrimFloat.is_nan x); [discriminate|].
  reflexivity.
Qed.

(** A number that compares equal to zero is one of the two zeros. *)
Lemma is_zero_inv x :
  PrimFloat.is_zero x = true ->
  exists s, FloatOps.Prim2SF x = SpecFloat.S754_zero s.
Proof.
  unfold PrimFloat.is_zero. rewrite FloatAxioms.eqb_spec.
  destruct (FloatOps.Prim2SF x) as [s|s| |s m e] eqn:E.
  - intros _. exists s. reflexivity.
  - destruct s; vm_compute; discriminate.
  - vm_compute. discriminate.
  - destruct s; vm_compute; discriminate.
Qed.

Lemma zero_is_within x :
  PrimFloat.is_zero x = true -> within 0 120 x = true.
Proof.
  intro H. destruct (is_zero_inv _ H) as (s & E).
  unfold within. rewrite !FloatAxioms.leb_spec, E.
  destruct s; vm_compute; reflexivity.
Qed.

(** A finite number denotes a rational. *)
Lemma finite_has_value x :
  PrimFloat.is_finite x = true -> exists q, Schema.float8_value x = Some q.
Proof.
  unfold PrimFloat.is_finite, PrimFloat.is_nan, PrimFloat.is_infinity,
    Schema.float8_value.
  rewrite !FloatAxioms.eqb_spec, FloatAxioms.abs_spec.
  destruct (FloatOps.Prim2SF x) as [s|s| |s m e].
  - intros _. eexists. reflexivity.
  - destruct s; vm_compute; discriminate.
  - vm_compute. discriminate.
  - intros _. eexists. reflexivity.
Qed.

(** What the database makes of the noise level of a submission: a level
    that is not finite arrives as NULL and passes the [CHECK]; a finite one
    passes exactly when it lies in [0, 120]. *)
Lemma noise_db_check_JSON x :
  noise_db_check (JSON_number x)
  = if PrimFloat.is_finite x then within 0 120 x else true.
Proof.
  unfold JSON_number.
  destruct (PrimFloat.is_finite x) eqn:Efin; [|reflexivity].
  assert (Hnan := is_finite_not_nan _ Efin).
  destruct (PrimFloat.is_zero x) eqn:Ez.
  - rewrite (zero_is_within _ Ez). vm_compute. reflexivity.
  - unfold noise_db_check, Schema.float8_le, within. rewrite Hnan.
    change (PrimFloat.is_nan 0) with false.
    change (PrimFloat.is_nan 120) with false.
    reflexivity.
Qed.

Lemma coordinate_JSON x :
  PrimFloat.is_finite x = true -> exists q, coordinate (JSON_number x) = Some q.
Proof.
  intro H. unfold JSON_number. rewrite H. cbn [coordinate].
  destruct (PrimFloat.is_zero x); [eexists; vm_compute; reflexivity|].
  apply finite_has_value. exact H.
Qed.

Lemma coordinate_JSON_inv x q :
  coordinate (JSON_number x) = Some q -> PrimFloat.is_finite x = true.
Proof.
  unfold JSON_number. destruct (PrimFloat.is_finite x); [reflexivity|].
  discriminate.
Qed.

(** The rows that pass every check made before the trigger. *)
Lemma check_report_Ok_iff auth users pl r :
  check_report auth users pl = Ok r <->
  exists u latitude longitude,
    pl_user_id pl = Some u /\
    (auth = Some u \/ pl_is_anonymous pl = true) /\
    coordinate (pl_latitude pl) = Some latitude /\
    coordinate (pl_longitude pl) = Some longitude /\
    noise_db_check (pl_noise_db pl) = true /\
    In (pl_noise_type pl) noise_types /\
    In (pl_status pl) statuses /\
    In u users /\
    r = Schema.mkReport (Some u) latitude longitude (pl_noise_db pl)
          (pl_noise_type pl) (pl_is_anonymous pl) (pl_status pl).
Proof.
  unfold check_report. split.
  - destruct (pl_user_id pl) as [u|]; [|discriminate].
    destruct ((match auth with Some a => (a =? u)%N | None => false end)
              || pl_is_anonymous pl) eqn:Epol; [|discriminate].
    cbn [negb].
    destruct (coordinate (pl_latitude pl)) as [lat|]; [|discriminate].
    destruct (coordinate (pl_longitude pl)) as [lon|]; [|discriminate].
    destruct (noise_db_check (pl_noise_db pl)) eqn:Edb; [|discriminate].
    destruct (mem (pl_noise_type pl) noise_types) eqn:Ety; [|discriminate].
    destruct (mem (pl_status pl) statuses) eqn:Est; [|discriminate].
    destruct (existsb (N.eqb u) users) eqn:Eu; [|discriminate].
    cbn [negb]. intro H. inversion H. exists u, lat, lon.
    split; [reflexivity|]. split.
    { apply orb_true_iff in Epol. destruct Epol as [Ea|Ea]; [left|right; exact Ea].
      destruct auth as [a|]; [|discriminate].
      apply N.eqb_eq in Ea. subst a. reflexivity. }
    split; [reflexivity|]. split; [reflexivity|]. split; [reflexivity|].
    split; [apply mem_true; exact Ety|].
    split; [apply mem_true; exact Est|].
    split; [apply existsb_N_In; exact Eu|reflexivity].
  - intros (u & lat & lon & -> & Hpol & -> & -> & -> & Hty & Hst & Hu & ->).
    assert (Epol : (match auth with Some a => (a =? u)%N | None => false end)
                   || pl_is_anonymous pl = true).
    { apply orb_true_iff. destruct Hpol as [->|Ha]; [left|right; exact Ha].
      apply N.eqb_refl. }
    rewrite Epol, (proj2 (mem_true _ _) Hty), (proj2 (mem_true _ _) Hst),
      (proj2 (existsb_N_In _ _) Hu).
    reflexivity.
Qed.

(** No row with a [noise_db] outside [0, 120] or an unknown [noise_type]
    passes the checks that precede the trigger. *)
Lemma check_report_refuses auth users pl :
  noise_db_check (pl_noise_db pl) = false \/
  ~ In (pl_noise_type pl) noise_types ->
  exists e, check_report auth users pl = Err e.
Proof.
  intro Hbad.
  destruct (check_report auth users pl) as [r|e] eqn:E; [|exists e; reflexivity].
  exfalso. apply check_report_Ok_iff in E.
  destruct E as (u & lat & lon & _ & _ & _ & _ & Hdb & Hty & _).
  destruct Hbad as [Hbad|Hbad]; [congruence|contradiction].
Qed.

Section Ingestion.

Variable ST_Distance : Geography -> Geography -> Q.

(** C5 (as the code has it).  An online submission whose [noise_db] is a
    finite number outside [0, 120], or whose [noise_type] is not in the
    enumeration, is refused: the mutation throws, the checks on the new row
    fail before the aggregation trigger is reached, and neither table
    changes nor is the report queued.  For a signed-in, non-anonymous
    submission with finite coordinates the error is the check-constraint
    violation. *)
Theorem online_invalid_noise_is_rejected date_now reportData c db :
  isOnline c = true ->
  (PrimFloat.is_finite (rd_noise_db reportData) = true /\
   within 0 120 (rd_noise_db reportData) = false) \/
  ~ In (rd_noise_type reportData) noise_types ->
  (exists e,
     check_report (user c) (db_users db) (payload (user c) reportData) = Err e) /\
  (exists outcome,
     createReportMutation ST_Distance date_now reportData c db
       = (outcome, c, db) /\
     (outcome = NotAuthenticated \/ exists e, outcome = Rejected e) /\
     (forall u, user c = Some u -> truthy (rd_is_anonymous reportData) = false ->
        PrimFloat.is_finite (rd_latitude reportData) = true ->
        PrimFloat.is_finite (rd_longitude reportData) = true ->
        outcome = Rejected check_violation)).
Proof.
  intros Hon Hbad.
  assert (Hbad' : noise_db_check (pl_noise_db (payload (user c) reportData))
                  = false \/
                  ~ In (pl_noise_type (payload (user c) reportData)) noise_types).
  { unfold payload; cbn [pl_noise_db pl_noise_type].
    destruct Hbad as [[Hfin Hout]|Hty]; [left|right; exact Hty].
    rewrite noise_db_check_JSON, Hfin. exact Hout. }
  assert (Hchk := check_report_refuses (user c) (db_users db) _ Hbad').
  split; [exact Hchk|].
  destruct Hchk as (e & He).
  unfold createReportMutation. rewrite Hon. cbn [negb].
  destruct (negb (match user c with Some _ => true | None => false end)
            && negb (truthy (rd_is_anonymous reportData))) eqn:Eauth.
  - exists NotAuthenticated. split; [reflexivity|]. split; [left; reflexivity|].
    intros u Hu Hanon. rewrite Hu, Hanon in Eauth. discriminate.
  - unfold reports_insert. rewrite He. cbn [bind].
    exists (Rejected e). split; [reflexivity|].
    split; [right; exists e; reflexivity|].
    intros u Hu Hanon Hlat Hlon. f_equal.
    destruct (coordinate_JSON _ Hlat) as (lat & Elat).
    destruct (coordinate_JSON _ Hlon) as (lon & Elon).
    unfold check_report, payload in He. rewrite Hu, Hanon in He.
    cbn [pl_user_id pl_latitude pl_longitude pl_noise_db pl_noise_type
         pl_is_anonymous pl_status] in He.
    rewrite N.eqb_refl, Elat, Elon in He. cbn [orb negb] in He.
    unfold payload in Hbad'. cbn [pl_noise_db pl_noise_type] in Hbad'.
    destruct Hbad' as [Hdb|Hty].
    + rewrite Hdb in He. cbn [negb] in He. congruence.
    + destruct (negb (noise_db_check (JSON_number (rd_noise_db reportData))));
        [congruence|].
      rewrite (proj2 (mem_false _ _) Hty) in He. cbn [negb] in He. congruence.
Qed.

End Ingestion.
(** ** [hotspots.getAll] *)

Lemma insert_row_perm {A} (le : A -> A -> bool) x l :
  Permutation (insert_row le x l) (x :: l).
Proof.
  induction l as [|y l IH]; simpl; [reflexivity|].
  destruct (le x y); [reflexivity|].
  rewrite IH. apply perm_swap.
Qed.

Lemma order_by_perm {A} (le : A -> A -> bool) l :
  Permutation (order_by le l) l.
Proof.
  induction l as [|x l IH]; simpl; [reflexivity|].
  rewrite insert_row_perm. apply perm_skip. exact IH.
Qed.

Section Sorting.

Variables (A : Type) (le : A -> A -> bool) (R : A -> A -> Prop).
Hypothesis le_true : forall a b, le a b = true -> R a b.
Hypothesis le_false : forall a b, le a b = false -> R b a.
Hypothesis R_trans : forall a b c, R a b -> R b c -> R a c.

Lemma insert_row_sorted x l :
  StronglySorted R l -> StronglySorted R (insert_row le x l).
Proof.
  induction 1 as [|y l Hl IH Hy]; simpl.
  - repeat constructor.
  - destruct (le x y) eqn:E.
    + constructor; [constructor; assumption|].
      constructor; [apply le_true; exact E|].
      eapply Forall_impl; [|exact Hy]. intros z Hz.
      apply (R_trans _ y); [apply le_true; exact E|exact Hz].
    + constructor; [exact IH|].
      rewrite (insert_row_perm le x l). constructor; [|exact Hy].
      apply le_false. exact E.
Qed.

Lemma order_by_sorted l : StronglySorted R (order_by le l).
Proof.
  induction l as [|x l IH]; simpl; [constructor|].
  apply insert_row_sorted. exact IH.
Qed.

End Sorting.

(** C7 (as the code has it).  [getAll] returns the leading rows of an
    arrangement of the table by [avg_noise_db] descending: all of them when
    [limit] is missing or zero, the first [limit] otherwise.  The request
    orders by that one column; rows with equal averages are not ordered by
    [report_count] or [id]. *)
Theorem getAll_sorted_by_average lim table :
  exists rest,
    Permutation (getAll lim table ++ rest) table /\
    StronglySorted (fun a b => avg_noise_db b <= avg_noise_db a)
      (getAll lim table ++ rest) /\
    List.length (getAll lim table) =
      match lim with
      | Some n => if (n =? 0)%N then List.length table
                  else Nat.min (N.to_nat n) (List.length table)
      | None => List.length table
      end.
Proof.
  assert (Hsorted : StronglySorted (fun a b => avg_noise_db b <= avg_noise_db a)
                      (order_by avg_noise_db_desc table)).
  { apply order_by_sorted.
    - intros a b H. apply Qle_bool_iff. exact H.
    - intros a b H. unfold avg_noise_db_desc in H.
      apply Qlt_le_weak, Qnot_le_lt. intro Hle.
      apply Qle_bool_iff in Hle. congruence.
    - intros a b c Hab Hbc. eapply Qle_trans; eassumption. }
  assert (Hperm := order_by_perm avg_noise_db_desc table).
  assert (Hlen : List.length (order_by avg_noise_db_desc table) = List.length table).
  { apply Permutation_length. exact Hperm. }
  assert (Hall : exists rest,
            Permutation (order_by avg_noise_db_desc table ++ rest) table /\
            StronglySorted (fun a b => avg_noise_db b <= avg_noise_db a)
              (order_by avg_noise_db_desc table ++ rest) /\
            List.length (order_by avg_noise_db_desc table) = List.length table).
  { exists []. rewrite app_nil_r. auto. }
  unfold getAll. destruct lim as [n|]; [|exact Hall].
  destruct (n =? 0)%N; [exact Hall|].
  exists (skipn (N.to_nat n) (order_by avg_noise_db_desc table)).
  unfold limit. rewrite firstn_skipn.
  split; [exact Hperm|]. split; [exact Hsorted|].
  rewrite length_firstn, Hlen. reflexivity.
Qed.

(** ** [lib/utils.ts] *)

(** The formula itself, over the reals, where nothing rounds: 0 between a
    point and itself, and the same value in both directions. *)
Lemma haversine_formula_zero_and_symmetric :
  (forall lat lon, locationUtils.calculateDistance lat lon lat lon = 0%R) /\
  (forall lat1 lon1 lat2 lon2,
     locationUtils.calculateDistance lat1 lon1 lat2 lon2
     = locationUtils.calculateDistance lat2 lon2 lat1 lon1).
Proof.
  split.
  - intros lat lon. unfold locationUtils.calculateDistance.
    replace ((lat - lat) * PI / 180 / 2)%R with 0%R by lra.
    replace ((lon - lon) * PI / 180 / 2)%R with 0%R by lra.
    rewrite sin_0.
    replace (0 * 0 + cos (lat * PI / 180) * cos (lat * PI / 180) * 0 * 0)%R
      with 0%R by ring.
    rewrite Rminus_0_r, sqrt_0, sqrt_1.
    unfold Math.atan2.
    destruct (Rlt_dec 0 1) as [_|H]; [|exfalso; apply H; lra].
    replace (0 / 1)%R with 0%R by lra. rewrite atan_0. ring.
  - intros lat1 lon1 lat2 lon2. unfold locationUtils.calculateDistance.
    replace ((lat1 - lat2) * PI / 180 / 2)%R
      with (- ((lat2 - lat1) * PI / 180 / 2))%R by lra.
    replace ((lon1 - lon2) * PI / 180 / 2)%R
      with (- ((lon2 - lon1) * PI / 180 / 2))%R by lra.
    rewrite !sin_neg.
    set (sa := sin ((lat2 - lat1) * PI / 180 / 2)).
    set (so := sin ((lon2 - lon1) * PI / 180 / 2)).
    set (c1 := cos (lat1 * PI / 180)). set (c2 := cos (lat2 * PI / 180)).
    replace (- sa * - sa + c2 * c1 * - so * - so)%R
      with (sa * sa + c1 * c2 * so * so)%R by ring.
    reflexivity.
Qed.


(** *** The distance in binary64 *)

Section NearAntipodes.

Variables sin cos : PrimFloat.float -> PrimFloat.float.
Variable atan2 : PrimFloat.float -> PrimFloat.float -> PrimFloat.float.

(** [Math.atan2] is NaN when an argument is NaN (ECMAScript), and the values
    of [Math.sin] and [Math.cos] are those of fdlibm, which V8 ports. *)
Hypothesis atan2_NaN : forall y, atan2 y PrimFloat.nan = PrimFloat.nan.
Hypothesis sin_58 :
  sin 0x1.03258031ade7cp+0%float = 0x1.b2335c2cda946p-1%float.
Hypothesis sin_minus_58 :
  sin (-0x1.03258031ade7cp+0)%float = (-0x1.b2335c2cda946p-1)%float.
Hypothesis sin_90 : sin 0x1.921fb54442d18p+0%float = 1%float.
Hypothesis sin_minus_90 : sin (-0x1.921fb54442d18p+0)%float = (-1)%float.
Hypothesis cos_58 :
  cos 0x1.03258031ade7cp+0%float = 0x1.0f5193eacdd2ap-1%float.
Hypothesis cos_minus_58 :
  cos (-0x1.03258031ade7cp+0)%float = 0x1.0f5193eacdd2ap-1%float.

(** C9, the code at (58 S, 179 W) and (58 N, 1 E).  The two points are
    antipodal.  The rounded terms of the haversine add up to
    [1 + 2^-52], the square root of [1 - a] is the square root of a
    negative number, and the distance is NaN in both directions; the two
    results are not equal, as NaN equals nothing. *)
Theorem calculateDistance_is_NaN_near_antipodes :
  Binary64.calculateDistance sin cos atan2 (-58) (-179) 58 1 = PrimFloat.nan /\
  Binary64.calculateDistance sin cos atan2 58 1 (-58) (-179) = PrimFloat.nan /\
  PrimFloat.eqb
    (Binary64.calculateDistance sin cos atan2 (-58) (-179) 58 1)
    (Binary64.calculateDistance sin cos atan2 58 1 (-58) (-179)) = false.
Proof.
  assert (H1 : Binary64.calculateDistance sin cos atan2 (-58) (-179) 58 1
               = PrimFloat.nan).
  { unfold Binary64.calculateDistance.
    change ((58 - -58) * Binary64.PI / 180 / 2)%float
      with 0x1.03258031ade7cp+0%float.
    change ((1 - -179) * Binary64.PI / 180 / 2)%float
      with 0x1.921fb54442d18p+0%float.
    change (-58 * Binary64.PI / 180)%float with (-0x1.03258031ade7cp+0)%float.
    change (58 * Binary64.PI / 180)%float with 0x1.03258031ade7cp+0%float.
    cbv zeta. rewrite sin_58, sin_90, cos_58, cos_minus_58.
    change (PrimFloat.sqrt
              (1 - (0x1.b2335c2cda946p-1 * 0x1.b2335c2cda946p-1 +
                    0x1.0f5193eacdd2ap-1 * 0x1.0f5193eacdd2ap-1 * 1 * 1))%float)
      with PrimFloat.nan.
    rewrite atan2_NaN. reflexivity. }
  assert (H2 : Binary64.calculateDistance sin cos atan2 58 1 (-58) (-179)
               = PrimFloat.nan).
  { unfold Binary64.calculateDistance.
    change ((-58 - 58) * Binary64.PI / 180 / 2)%float
      with (-0x1.03258031ade7cp+0)%float.
    change ((-179 - 1) * Binary64.PI / 180 / 2)%float
      with (-0x1.921fb54442d18p+0)%float.
    change (-58 * Binary64.PI / 180)%float with (-0x1.03258031ade7cp+0)%float.
    change (58 * Binary64.PI / 180)%float with 0x1.03258031ade7cp+0%float.
    cbv zeta. rewrite sin_minus_58, sin_minus_90, cos_58, cos_minus_58.
    change (PrimFloat.sqrt
              (1 - (-0x1.b2335c2cda946p-1 * -0x1.b2335c2cda946p-1 +
                    0x1.0f5193eacdd2ap-1 * 0x1.0f5193eacdd2ap-1 * -1 * -1))%float)
      with PrimFloat.nan.
    rewrite atan2_NaN. reflexivity. }
  split; [exact H1|]. split; [exact H2|]. rewrite H1, H2. reflexivity.
Qed.

End NearAntipodes.

Lemma sum_of_squares_zero samples :
  Forall (fun x => x = 0%R) samples ->
  fold_left (fun acc sample => (acc + sample * sample)%R) samples 0%R = 0%R.
Proof.
  induction 1 as [|x l Hx Hl IH]; simpl; [reflexivity|].
  subst x. replace (0 + 0 * 0)%R with 0%R by ring. exact IH.
Qed.

Lemma clamp_range x :
  (0 <= Rmax 0 (Rmin 120 x) <= 120)%R.
Proof.
  split; [apply Rmax_l|].
  apply Rmax_lub; [lra|apply Rmin_l].
Qed.

(** C10.  For every array of finite samples [calculateDbFromAudio] returns a
    finite number between 0 and 120; exactly 0 for a missing or empty array;
    and 120 for a non-empty array of zeros, where [Math.log10] yields
    [-Infinity], [Math.abs] turns it into [Infinity] and [Math.min] caps it. *)
Theorem calculateDbFromAudio_range :
  (forall audioData, exists db,
     audioUtils.calculateDbFromAudio audioData = Finite db /\
     (0 <= db <= 120)%R) /\
  audioUtils.calculateDbFromAudio None = Finite 0 /\
  audioUtils.calculateDbFromAudio (Some []) = Finite 0 /\
  (forall samples,
     samples <> [] -> Forall (fun x => x = 0%R) samples ->
     Math.log10 (sqrt (0 / INR (List.length samples)) / 32767) = NegInfinity /\
     audioUtils.calculateDbFromAudio (Some samples) = Finite 120).
Proof.
  assert (Hzero : forall n, Math.log10 (sqrt (0 / INR n) / 32767) = NegInfinity).
  { intro n. replace (0 / INR n)%R with 0%R by (unfold Rdiv; ring).
    rewrite sqrt_0. replace (0 / 32767)%R with 0%R by lra.
    unfold Math.log10.
    destruct (Rlt_dec 0 0) as [H|_]; [lra|].
    destruct (Req_dec_T 0 0) as [_|H]; [reflexivity|congruence]. }
  split; [|split; [reflexivity|split; [reflexivity|]]].
  - intros [samples|]; [|exists 0%R; split; [reflexivity|lra]].
    unfold audioUtils.calculateDbFromAudio.
    destruct (Nat.eqb (List.length samples) 0);
      [exists 0%R; split; [reflexivity|lra]|].
    set (x := (sqrt (fold_left (fun acc sample => acc + sample * sample)
                       samples 0 / INR (List.length samples)) / 32767)%R).
    assert (Hx : (0 <= x)%R).
    { unfold x. apply Rmult_le_pos; [apply sqrt_pos|lra]. }
    unfold Math.log10.
    destruct (Rlt_dec 0 x) as [Hpos|Hnpos].
    + simpl. eexists. split; [reflexivity|apply clamp_range].
    + destruct (Req_dec_T x 0) as [_|Hne]; [|exfalso; lra].
      simpl. exists (Rmax 0 120). split; [reflexivity|].
      rewrite Rmax_right by lra. lra.
  - intros samples Hne Hall. split; [apply Hzero|].
    unfold audioUtils.calculateDbFromAudio.
    destruct samples as [|s0 samples']; [congruence|].
    change (Nat.eqb (List.length (s0 :: samples')) 0) with false.
    cbv iota. rewrite (sum_of_squares_zero _ Hall), Hzero.
    simpl. rewrite Rmax_right by lra. reflexivity.
Qed.

(* ================================================================== *)
(** * Part III.  The model on concrete rows                             *)
(* ================================================================== *)

Lemma grid_distance_self p : grid_distance p p == 0.
Proof.
  unfold grid_distance.
  assert (Hy : ST_Y p - ST_Y p == 0) by ring.
  assert (Hx : ST_X p - ST_X p == 0) by ring.
  rewrite Hy, Hx. reflexivity.
Qed.

Lemma degree_distance_self p : degree_distance p p == 0.
Proof.
  unfold degree_distance.
  assert (Hy : ST_Y p - ST_Y p == 0) by ring.
  assert (Hx : ST_X p - ST_X p == 0) by ring.
  rewrite Hy, Hx. reflexivity.
Qed.

Lemma far_report_founds_one_hotspot_witness :
  let table := [Schema.mkHotspot 1 plaza db_85_5 1 0 0] in
  (forall h, In h table ->
     cluster_radius
     < grid_distance (Schema.location h) (Schema.report_location site_report)) /\
  (forall h, In h table -> Schema.id h <> 2%N) /\
  Schema.aggregate_reports_to_hotspots grid_distance 2%N 5%Z site_report table
  = Ok (table ++
        [Schema.mkHotspot 2 (Schema.report_location site_report) 92.5 1 5 5]) /\
  Schema.absorbing_hotspot grid_distance 2%N site_report table = 2%N.
Proof.
  intro table.
  assert (Hfar : forall h, In h table ->
            cluster_radius
            < grid_distance (Schema.location h)
                (Schema.report_location site_report)).
  { intros h [<-|[]]. vm_compute. reflexivity. }
  assert (Hfresh : forall h, In h table -> Schema.id h <> 2%N).
  { intros h [<-|[]]. vm_compute. discriminate. }
  split; [exact Hfar|]. split; [exact Hfresh|].
  exact (far_report_founds_one_hotspot grid_distance 2%N 5%Z site_report table
           Hfar Hfresh).
Defined.

Lemma hotspot_statistics_are_running_means_witness :
  let l := three_readings in
  let h := Schema.mkHotspot 1 plaza 0x1.3b99999999999p+6 3 1 3 in
  let s := Schema.execute degree_distance [0; 1; 0; 2; 1; 2]%nat
             (Schema.start l) in
  (forall p, degree_distance p p == 0) /\
  Forall (fun i => Schema.report_location (Schema.ins_row i) = plaza) l /\
  map (fun i => Schema.noise_db (Schema.ins_row i)) l
    = map Some [db_85_5; db_90; db_61_2] /\
  Schema.running_mean db_85_5 [db_90; db_61_2]
    = Ok (0x1.3b99999999999p+6%float, 3%Z) /\
  Schema.aggregate_all degree_distance l [] = Ok [h] /\
  Schema.sys_table
    (Schema.execute degree_distance (Schema.serial 3) (Schema.start l)) = [h] /\
  (forall h',
     In h' (Schema.sys_table s) ->
     exists r rest d ds,
       Schema.reports_of (Schema.id h') (Schema.sys_log s) = r :: rest /\
       map Schema.noise_db (r :: rest) = map Some (d :: ds) /\
       Schema.report_count h' = Z.of_nat (List.length (r :: rest)) /\
       (1 <= Schema.report_count h')%Z /\
       Schema.running_mean d ds
         = Ok (Schema.avg_noise_db h', Schema.report_count h')) /\
  exact_running_mean (171 # 2) [90; 612 # 10] == mean [171 # 2; 90; 612 # 10].
Proof.
  intros l h s.
  destruct (hotspot_statistics_are_running_means degree_distance)
    as (Halways & Hrun & Hexact).
  assert (Hplace : Forall (fun i => Schema.report_location (Schema.ins_row i)
                                    = plaza) l).
  { repeat constructor. }
  assert (Hdb : map (fun i => Schema.noise_db (Schema.ins_row i)) l
                = map Some [db_85_5; db_90; db_61_2]) by reflexivity.
  assert (Hmean : Schema.running_mean db_85_5 [db_90; db_61_2]
                  = Ok (0x1.3b99999999999p+6%float, 3%Z))
    by (vm_compute; reflexivity).
  destruct (Hrun degree_distance_self plaza (reading 1 db_85_5)
              [reading 2 db_90; reading 3 db_61_2] db_85_5 [db_90; db_61_2]
              Hplace Hdb) as (Hall & Hserial).
  split; [exact degree_distance_self|]. split; [exact Hplace|].
  split; [exact Hdb|]. split; [exact Hmean|].
  rewrite Hmean in Hall. split; [exact Hall|].
  split; [exact (proj2 (Hserial _ _ Hmean))|].
  split; [exact (Halways l [0; 1; 0; 2; 1; 2]%nat)|].
  apply Hexact.
Defined.

(** C1, refuted as stated.  The average is computed in binary64 and is not
    the arithmetic mean of the readings.  Three reports of 85.5, 90 and
    61.2 dB at one place leave a hotspot of average 78.89999999999999, which
    is neither the mean of the three stored readings nor the binary64 number
    nearest to it (78.9).  Two reports of [2^-1074] and [2^-1073] dB, both
    within the bounds of the [CHECK] on [noise_db], leave the average
    [2^-1073]: a third more than their mean. *)
Lemma three_readings_average_is_not_their_mean :
  Schema.aggregate_all degree_distance three_readings []
    = Ok [Schema.mkHotspot 1 plaza 0x1.3b99999999999p+6 3 1 3] /\
  (exists a d1 d2 d3 nearest,
     Schema.float8_value 0x1.3b99999999999p+6 = Some a /\
     Schema.float8_value db_85_5 = Some d1 /\
     Schema.float8_value db_90 = Some d2 /\
     Schema.float8_value db_61_2 = Some d3 /\
     Schema.float8_value 0x1.3b9999999999ap+6 = Some nearest /\
     mean [d1; d2; d3] - a == 1 # 105553116266496 /\
     Qabs (mean [d1; d2; d3] - nearest) < Qabs (mean [d1; d2; d3] - a)) /\
  Schema.aggregate_all degree_distance tiny_readings []
    = Ok [Schema.mkHotspot 1 plaza db_tiny2 2 1 2] /\
  (exists a d1 d2,
     Schema.float8_value db_tiny2 = Some a /\
     Schema.float8_value db_tiny = Some d1 /\
     Schema.float8_value db_tiny2 = Some d2 /\
     noise_db_check (Some db_tiny) = true /\
     noise_db_check (Some db_tiny2) = true /\
     a - mean [d1; d2] == (1 # 3) * mean [d1; d2] /\
     (1 # 1000000000) * mean [d1; d2] < a - mean [d1; d2]).
Proof.
  split; [vm_compute; reflexivity|]. split.
  { eexists _, _, _, _, _.
    split; [vm_compute; reflexivity|]. split; [vm_compute; reflexivity|].
    split; [vm_compute; reflexivity|]. split; [vm_compute; reflexivity|].
    split; [vm_compute; reflexivity|]. split; vm_compute; reflexivity. }
  split; [vm_compute; reflexivity|].
  eexists _, _, _.
  split; [vm_compute; reflexivity|]. split; [vm_compute; reflexivity|].
  split; [vm_compute; reflexivity|].
  split; [vm_compute; reflexivity|]. split; [vm_compute; reflexivity|].
  split; vm_compute; reflexivity.
Qed.

Lemma boundary_report_is_absorbed_witness :
  let h := Schema.mkHotspot 1 (Schema.report_location on_equator) 70 1 0 0 in
  let table := [h] in
  In h table /\
  NoDup (map Schema.id table) /\
  degree_distance (Schema.location h) (Schema.report_location radius_east)
    == cluster_radius /\
  (forall h', In h' table ->
     cluster_radius <= degree_distance (Schema.location h')
                         (Schema.report_location radius_east)) /\
  Schema.float8_value 0x1.0624dd2f1a9fcp-10 = Some cluster_radius /\
  Schema.aggregate_reports_to_hotspots degree_distance 2%N 9%Z radius_east table
  = Ok [Schema.mkHotspot 1 (Schema.report_location on_equator) 80 2 0 9].
Proof.
  intros h table.
  assert (Hin : In h table) by (left; reflexivity).
  assert (Hnd : NoDup (map Schema.id table)).
  { repeat constructor. intros []. }
  assert (Hat : degree_distance (Schema.location h)
                  (Schema.report_location radius_east) == cluster_radius)
    by (vm_compute; reflexivity).
  assert (Hnocloser : forall h', In h' table ->
            cluster_radius <= degree_distance (Schema.location h')
                                (Schema.report_location radius_east)).
  { intros h' [<-|[]]. vm_compute. discriminate. }
  split; [exact Hin|]. split; [exact Hnd|]. split; [exact Hat|].
  split; [exact Hnocloser|]. split; [vm_compute; reflexivity|].
  destruct (boundary_report_is_absorbed degree_distance 2%N 9%Z
              radius_east table h Hin Hnd Hat Hnocloser)
    as (t & _ & _ & _ & Honly & Hrun & _).
  assert (Ht : t = h).
  { apply Honly. intros h' [<-|[]] _. reflexivity. }
  rewrite Hrun, Ht. vm_compute. reflexivity.
Defined.

Lemma online_invalid_noise_is_rejected_witness :
  let reportData := mkReportData 28.5 77.25 150 "traffic" (Some false) in
  let c := mkClient true (Some 7%N) [] in
  let db := mkDatabase [7%N] [] [] in
  isOnline c = true /\
  ((PrimFloat.is_finite (rd_noise_db reportData) = true /\
    within 0 120 (rd_noise_db reportData) = false) \/
   ~ In (rd_noise_type reportData) noise_types) /\
  (exists e,
     check_report (user c) (db_users db) (payload (user c) reportData) = Err e) /\
  (exists outcome,
     createReportMutation grid_distance 0%Z reportData c db
       = (outcome, c, db) /\
     (outcome = NotAuthenticated \/ exists e, outcome = Rejected e) /\
     (forall u, user c = Some u -> truthy (rd_is_anonymous reportData) = false ->
        PrimFloat.is_finite (rd_latitude reportData) = true ->
        PrimFloat.is_finite (rd_longitude reportData) = true ->
        outcome = Rejected check_violation)).
Proof.
  intros reportData c db.
  assert (Hon : isOnline c = true) by reflexivity.
  assert (Hbad : (PrimFloat.is_finite (rd_noise_db reportData) = true /\
                  within 0 120 (rd_noise_db reportData) = false) \/
                 ~ In (rd_noise_type reportData) noise_types).
  { left. split; vm_compute; reflexivity. }
  split; [exact Hon|]. split; [exact Hbad|].
  exact (online_invalid_noise_is_rejected grid_distance 0%Z
           reportData c db Hon Hbad).
Defined.

Lemma concurrent_absorbs_lose_no_update_witness :
  let l := same_readings 3 in
  let s := Schema.execute degree_distance [0; 1; 0; 2; 1; 2]%nat (Schema.start l) in
  (forall q, degree_distance q q == 0) /\
  Forall (fun i => Schema.report_location (Schema.ins_row i) = plaza /\
                   Schema.noise_db (Schema.ins_row i) = Some db_70_1) l /\
  NoDup (map Schema.ins_uuid l) /\
  Schema.running_mean db_70_1 (repeat db_70_1 (Nat.pred (List.length l)))
    = Ok (db_70_1, 3%Z) /\
  Forall (fun h =>
            Schema.location h = plaza /\ (1 <= Schema.report_count h)%Z /\
            Schema.running_mean db_70_1
              (repeat db_70_1 (Nat.pred (Z.to_nat (Schema.report_count h))))
              = Ok (Schema.avg_noise_db h, Schema.report_count h))
         (Schema.sys_table s) /\
  Schema.total_count (Schema.sys_table s)
    = Z.of_nat (List.length (filter Schema.returned (Schema.sys_calls s))) /\
  (forall c e, In c (Schema.sys_calls s) -> Schema.call_pc c <> Schema.Raised e) /\
  (Schema.finished s = true -> l <> [] ->
     Schema.total_count (Schema.sys_table s) = Z.of_nat (List.length l) /\
     (1 <= List.length (Schema.sys_table s) <= List.length l)%nat) /\
  (l <> [] ->
     exists h,
       Schema.finished (Schema.execute degree_distance
                          (Schema.serial (List.length l)) (Schema.start l)) = true /\
       Schema.sys_table (Schema.execute degree_distance
                           (Schema.serial (List.length l)) (Schema.start l)) = [h] /\
       Schema.location h = plaza /\
       Schema.report_count h = Z.of_nat (List.length l) /\
       Schema.avg_noise_db h = fst (db_70_1, 3%Z)).
Proof.
  intros l s.
  assert (Hsame : Forall (fun i => Schema.report_location (Schema.ins_row i) = plaza /\
                                   Schema.noise_db (Schema.ins_row i) = Some db_70_1) l).
  { repeat constructor. }
  assert (Huuid : NoDup (map Schema.ins_uuid l)).
  { cbn. repeat constructor; cbn; intuition discriminate. }
  assert (Hfit : Schema.running_mean db_70_1
                   (repeat db_70_1 (Nat.pred (List.length l)))
                 = Ok (db_70_1, 3%Z)) by (vm_compute; reflexivity).
  split; [exact degree_distance_self|]. split; [exact Hsame|].
  split; [exact Huuid|]. split; [exact Hfit|].
  exact (concurrent_absorbs_lose_no_update degree_distance
           plaza db_70_1 l (db_70_1, 3%Z) degree_distance_self Hsame Huuid Hfit
           [0; 1; 0; 2; 1; 2]%nat).
Defined.

(** C4, refuted as stated.  A hundred calls with the same position and the
    same reading of 70.1 dB, scheduled so that every [SELECT] runs before
    any [INSERT], all find the table empty and all found a hotspot: a
    hundred hotspots of one report each.  Run one after the other, the same
    calls end in one hotspot that counts a hundred reports, and its average
    is 70.10000000000008: after the sixth report already it is
    70.10000000000001. *)
Lemma hundred_concurrent_calls_found_hundred_hotspots :
  let l := same_readings 100 in
  let s := Schema.execute degree_distance (Schema.selects_first 100)
             (Schema.start l) in
  Schema.finished s = true /\
  List.length (Schema.sys_table s) = 100%nat /\
  forallb (fun h => (Schema.report_count h =? 1)%Z) (Schema.sys_table s) = true /\
  ~ (exists h, Schema.sys_table s = [h]) /\
  Schema.sys_table
    (Schema.execute degree_distance (Schema.serial 100) (Schema.start l))
  = [Schema.mkHotspot 1 plaza 0x1.186666666666cp+6 100 1 100] /\
  Schema.running_mean db_70_1 (repeat db_70_1 5)
  = Ok (0x1.1866666666667p+6%float, 6%Z) /\
  PrimFloat.ltb db_70_1 0x1.1866666666667p+6 = true /\
  PrimFloat.ltb db_70_1 0x1.186666666666cp+6 = true.
Proof.
  intros l s.
  assert (Hlen : List.length (Schema.sys_table s) = 100%nat)
    by (vm_compute; reflexivity).
  assert (Hfin : Schema.finished s = true) by (vm_compute; reflexivity).
  assert (Hone : forallb (fun h => (Schema.report_count h =? 1)%Z)
                   (Schema.sys_table s) = true)
    by (vm_compute; reflexivity).
  clearbody s.
  split; [exact Hfin|]. split; [exact Hlen|]. split; [exact Hone|].
  split; [intros (h & E); rewrite E in Hlen; discriminate|].
  split; [vm_compute; reflexivity|].
  split; [vm_compute; reflexivity|].
  split; vm_compute; reflexivity.
Qed.

(** C5, refuted as stated.  Online, a report at latitude 100 passes every
    check and reaches the trigger: near a hotspot it is stored, and on an
    empty [hotspots] table it is the trigger, run with the rights of the
    client, that fails.  So does a report whose noise level is NaN: it
    arrives as NULL, which the [CHECK] lets through.  Offline, a report of
    150 dB is queued on the device and the mutation succeeds. *)
Lemma latitude_100_accepted_and_offline_150_queued :
  let c := mkClient true (Some 7%N) [] in
  let north := mkReportData 100 77.25 db_85_5 "traffic" (Some false) in
  let unreadable := mkReportData 28.5 77.25 PrimFloat.nan "traffic" (Some false) in
  let loud := mkReportData 28.5 77.25 150 "traffic" (Some false) in
  let stored_north := Schema.mkReport (Some 7%N) 100 (309 # 4) (Some db_85_5)
                        "traffic" false "pending" in
  let stored_unreadable := Schema.mkReport (Some 7%N) (57 # 2) (309 # 4) None
                             "traffic" false "pending" in
  let at_north := [Schema.mkHotspot 1 (ST_MakePoint (309 # 4) 100) 60 1 0 0] in
  let at_plaza := [Schema.mkHotspot 1 plaza 60 1 0 0] in
  (spec_invalid north /\
   validationUtils.isValidCoordinates 100 (309 # 4) = false /\
   check_report (Some 7%N) [7%N] (payload (Some 7%N) north) = Ok stored_north /\
   createReportMutation grid_distance 0%Z north c (mkDatabase [7%N] [] at_north)
   = (Created stored_north, c, mkDatabase [7%N] [stored_north] at_north) /\
   createReportMutation grid_distance 0%Z north c (mkDatabase [7%N] [] [])
   = (Rejected insufficient_privilege, c, mkDatabase [7%N] [] [])) /\
  (spec_invalid unreadable /\
   check_report (Some 7%N) [7%N] (payload (Some 7%N) unreadable)
   = Ok stored_unreadable /\
   createReportMutation grid_distance 0%Z unreadable c
     (mkDatabase [7%N] [] at_plaza)
   = (Created stored_unreadable, c,
      mkDatabase [7%N] [stored_unreadable] at_plaza)) /\
  (spec_invalid loud /\
   validationUtils.isValidNoiseLevel 150 = false /\
   createReportMutation grid_distance 0%Z loud
     (mkClient false (Some 7%N) []) (mkDatabase [7%N] [] [])
   = (Stored (0%Z, loud), mkClient false (Some 7%N) [(0%Z, loud)],
      mkDatabase [7%N] [] [])).
Proof.
  intros c north unreadable loud stored_north stored_unreadable at_north at_plaza.
  split; [|split].
  - split; [right; left; vm_compute; reflexivity|].
    repeat split; vm_compute; reflexivity.
  - split; [left; vm_compute; reflexivity|].
    split; vm_compute; reflexivity.
  - split; [left; vm_compute; reflexivity|].
    split; vm_compute; reflexivity.
Qed.

(** C6, refuted as stated.  Two hotspots founded 1.7 mm apart, the one with
    the larger [id] first; for the point midway both are within the radius
    and equidistant, and the query returns the first one scanned, whose [id]
    is the larger. *)
Lemma equidistant_hotspots_larger_id_returned :
  let first := Schema.mkHotspot 2 (Schema.report_location west) 60 1 0 0 in
  let second := Schema.mkHotspot 1 (Schema.report_location east) 60 1 1 1 in
  let midway := Schema.report_location on_equator in
  Schema.aggregate_all grid_distance
    [Schema.mkInsertion 2%N 0%Z west; Schema.mkInsertion 1%N 1%Z east] []
  = Ok [first; second] /\
  grid_distance (Schema.location first) midway
    == grid_distance (Schema.location second) midway /\
  Schema.select_nearest grid_distance [first; second] midway cluster_radius
    = Some first /\
  ~ Schema.spec_findNearest grid_distance [first; second] midway cluster_radius
      (Schema.select_nearest grid_distance [first; second] midway cluster_radius).
Proof.
  intros first second midway.
  assert (Hsel : Schema.select_nearest grid_distance [first; second] midway
                   cluster_radius = Some first) by reflexivity.
  split; [reflexivity|]. split; [reflexivity|]. split; [exact Hsel|].
  rewrite Hsel. intros (_ & _ & Hmin).
  destruct (Hmin second) as [_ Htie].
  - right. left. reflexivity.
  - vm_compute. discriminate.
  - assert (Hle : (Schema.id first <= Schema.id second)%N)
      by (apply Htie; reflexivity).
    vm_compute in Hle. apply Hle. reflexivity.
Qed.

(** C7, refuted as stated.  Two hotspots with the same average, the one
    with fewer reports founded first: the listing returns them in scan
    order, the smaller [report_count] first. *)
Lemma equal_averages_listed_in_scan_order :
  let quiet := mkHotspot 1 (Schema.report_location west) 60 1 0 0 in
  let busy := mkHotspot 2 (Schema.report_location east) 60 2 1 2 in
  (exists table,
     Schema.aggregate_all grid_distance
       [Schema.mkInsertion 1%N 0%Z west; Schema.mkInsertion 2%N 1%Z east;
        Schema.mkInsertion 3%N 2%Z east] []
     = Ok table /\
     map delivered table = [Some quiet; Some busy]) /\
  getAll None [quiet; busy] = [quiet; busy] /\
  getAll (Some 50%N) [quiet; busy] = [quiet; busy] /\
  ~ Sorted spec_severity_order (getAll None [quiet; busy]).
Proof.
  intros quiet busy.
  split; [eexists; split; vm_compute; reflexivity|].
  split; [reflexivity|]. split; [reflexivity|].
  change (getAll None [quiet; busy]) with [quiet; busy].
  intro Hs. inversion Hs as [|? ? _ Hhd]; subst.
  inversion Hhd as [|? ? Hrel]; subst.
  destruct Hrel as [Hlt|(_ & [Hlt|(Heq & _)])].
  - vm_compute in Hlt. discriminate.
  - vm_compute in Hlt. discriminate.
  - discriminate.
Qed.

Lemma select_nearest_is_closest_witness :
  let first := Schema.mkHotspot 2 (Schema.report_location west) 60 1 0 0 in
  let second := Schema.mkHotspot 1 (Schema.report_location east) 60 1 1 1 in
  let p := Schema.report_location on_equator in
  Schema.select_nearest grid_distance [first; second] p cluster_radius
    = Some first /\
  In first [first; second] /\
  grid_distance (Schema.location first) p <= cluster_radius /\
  (forall h', In h' [first; second] ->
     grid_distance (Schema.location h') p <= cluster_radius ->
     grid_distance (Schema.location first) p
     <= grid_distance (Schema.location h') p) /\
  exists before after,
    [first; second] = before ++ first :: after /\
    forall h', In h' before ->
      grid_distance (Schema.location h') p <= cluster_radius ->
      grid_distance (Schema.location first) p
      < grid_distance (Schema.location h') p.
Proof.
  intros first second p.
  split; [reflexivity|].
  exact (select_nearest_is_closest grid_distance [first; second] p cluster_radius).
Defined.

Lemma absorb_changes_only_statistics_witness :
  let quiet := Schema.mkHotspot 1 (Schema.report_location west) 60 1 0 0 in
  let busy := Schema.mkHotspot 2 (Schema.report_location east) 60 1 1 1 in
  let s := Schema.mkStore [quiet; busy] [(1%N, west); (2%N, east)] in
  let i := Schema.mkInsertion 3%N 2%Z east in
  In quiet (Schema.hotspots s) /\
  Schema.id quiet
  <> Schema.absorbing_hotspot grid_distance (Schema.ins_uuid i)
       (Schema.ins_row i) (Schema.hotspots s) /\
  Schema.hotspots (Schema.absorb grid_distance i s)
  = [quiet; Schema.mkHotspot 2 (Schema.report_location east) 60 2 1 2] /\
  exists h',
    In h' (Schema.hotspots (Schema.absorb grid_distance i s)) /\
    Schema.id h' = Schema.id busy /\
    Schema.location h' = Schema.location busy /\
    Schema.created_at h' = Schema.created_at busy /\
    (Schema.id busy
     <> Schema.absorbing_hotspot grid_distance (Schema.ins_uuid i)
          (Schema.ins_row i) (Schema.hotspots s) ->
     h' = busy).
Proof.
  intros quiet busy s i.
  split; [left; reflexivity|]. split; [vm_compute; discriminate|].
  split; [vm_compute; reflexivity|].
  apply (proj2 (absorb_changes_only_statistics grid_distance) i s busy).
  right. left. reflexivity.
Defined.

Lemma calculateDistance_is_NaN_near_antipodes_witness :
  (forall y, Binary64.table_atan2 y PrimFloat.nan = PrimFloat.nan) /\
  Binary64.table_sin 0x1.03258031ade7cp+0 = 0x1.b2335c2cda946p-1%float /\
  Binary64.table_sin 0x1.921fb54442d18p+0 = 1%float /\
  Binary64.table_cos 0x1.03258031ade7cp+0 = 0x1.0f5193eacdd2ap-1%float /\
  Binary64.table_cos (-0x1.03258031ade7cp+0) = 0x1.0f5193eacdd2ap-1%float /\
  Binary64.calculateDistance Binary64.table_sin Binary64.table_cos
    Binary64.table_atan2 (-58) (-179) 58 1 = PrimFloat.nan /\
  Binary64.calculateDistance Binary64.table_sin Binary64.table_cos
    Binary64.table_atan2 58 1 (-58) (-179) = PrimFloat.nan /\
  PrimFloat.eqb
    (Binary64.calculateDistance Binary64.table_sin Binary64.table_cos
       Binary64.table_atan2 (-58) (-179) 58 1)
    (Binary64.calculateDistance Binary64.table_sin Binary64.table_cos
       Binary64.table_atan2 58 1 (-58) (-179)) = false.
Proof.
  assert (Hatan2 : forall y,
            Binary64.table_atan2 y PrimFloat.nan = PrimFloat.nan).
  { intro y. unfold Binary64.table_atan2.
    change (PrimFloat.is_nan PrimFloat.nan) with true.
    rewrite orb_true_r. reflexivity. }
  split; [exact Hatan2|].
  split; [reflexivity|]. split; [reflexivity|].
  split; [reflexivity|]. split; [reflexivity|].
  exact (calculateDistance_is_NaN_near_antipodes
           Binary64.table_sin Binary64.table_cos Binary64.table_atan2
           Hatan2 eq_refl eq_refl eq_refl eq_refl eq_refl eq_refl).
Defined.
(* ================================================================== *)
(** * Part IV.  Further properties of the same code                     *)
(* ================================================================== *)

(** ** Runs of the trigger *)

Section TriggerRuns.

Import Schema.

Variable ST_Distance : Geography -> Geography -> Q.

(** What an invocation that succeeded has done. *)
Lemma trigger_Ok_shape uuid now NEW table table' :
  aggregate_reports_to_hotspots ST_Distance uuid now NEW table = Ok table' ->
  (exists t,
     select_nearest ST_Distance table (report_location NEW) cluster_radius
       = Some t /\
     In t table /\
     update_hotspots now (noise_db NEW) (id t) table = Ok table') \/
  (exists d,
     select_nearest ST_Distance table (report_location NEW) cluster_radius
       = None /\
     noise_db NEW = Some d /\
     ~ In uuid (map id table) /\
     table' = table ++ [mkHotspot uuid (report_location NEW) d 1 now now]).
Proof.
  unfold aggregate_reports_to_hotspots.
  destruct (select_nearest ST_Distance table (report_location NEW)
              cluster_radius) as [t|] eqn:E; intro H.
  - left. exists t. split; [reflexivity|].
    split; [exact (select_nearest_In ST_Distance _ _ _ _ E)|exact H].
  - right. destruct (insert_hotspot_inv _ _ _ _ _ _ H) as (d & Hd & -> & Hfresh).
    exists d. repeat split; assumption.
Qed.

(** The [UPDATE] moves no hotspot. *)
Lemma update_hotspots_places now db target table table' :
  update_hotspots now db target table = Ok table' ->
  Forall2 (fun h h' => id h' = id h /\ location h' = location h) table table'.
Proof.
  intro Hup. apply update_hotspots_inv in Hup.
  induction Hup as [|h h' t t' Hh Ht IH]; constructor; [|exact IH].
  destruct (id h =? target)%N.
  - destruct (set_absorbed_inv _ _ _ _ Hh) as (d & _ & _ & ->).
    split; reflexivity.
  - subst h'. split; reflexivity.
Qed.

Lemma total_count_update now db t table table' :
  NoDup (map id table) -> In t table ->
  update_hotspots now db (id t) table = Ok table' ->
  total_count table' = (total_count table + 1)%Z /\
  (Forall (fun h => (1 <= report_count h)%Z) table ->
   Forall (fun h => (1 <= report_count h)%Z) table').
Proof.
  intros Hnd Ht Hup.
  rewrite (update_hotspots_single _ _ _ _ Hnd Ht) in Hup.
  destruct (set_absorbed now db t) as [t'|e] eqn:Et; [|discriminate].
  cbn [bind] in Hup. inversion Hup. subst table'. clear Hup.
  destruct (set_absorbed_inv _ _ _ _ Et) as (d & _ & _ & Ht').
  assert (Hc : report_count t' = (report_count t + 1)%Z)
    by (rewrite Ht'; reflexivity).
  split.
  - rewrite (total_count_replace _ _ _ Hnd Ht), Hc. lia.
  - intro Hall. apply Forall_forall. intros h' Hh'.
    apply in_map_iff in Hh'. destruct Hh' as (h & <- & Hh).
    rewrite Forall_forall in Hall.
    destruct (id h =? id t)%N; [|apply Hall; exact Hh].
    rewrite Hc. specialize (Hall t Ht). cbn beta in Hall. lia.
Qed.

Lemma trigger_Ok_step uuid now NEW table table' :
  NoDup (map id table) ->
  aggregate_reports_to_hotspots ST_Distance uuid now NEW table = Ok table' ->
  NoDup (map id table') /\
  total_count table' = (total_count table + 1)%Z /\
  (Forall (fun h => (1 <= report_count h)%Z) table ->
   Forall (fun h => (1 <= report_count h)%Z) table').
Proof.
  intros Hnd H.
  destruct (trigger_Ok_shape _ _ _ _ _ H)
    as [(t & _ & Ht & Hup)|(d & _ & _ & Hfresh & ->)].
  - split; [rewrite (update_hotspots_ids _ _ _ _ _ Hup); exact Hnd|].
    exact (total_count_update _ _ _ _ _ Hnd Ht Hup).
  - split; [|split].
    + rewrite map_app. cbn [map id].
      apply NoDup_app; [exact Hnd|repeat constructor; intros []|].
      intros x Hx [<-|[]]. exact (Hfresh Hx).
    + rewrite total_count_app, total_count_cons.
      cbn [total_count fold_right report_count]. lia.
    + intro Hall. apply Forall_app. split; [exact Hall|].
      constructor; [cbn [report_count]; lia|constructor].
Qed.

(** *** No two hotspots within the radius *)

Lemma ForallOrdPairs_snoc {A} (R : A -> A -> Prop) l x :
  ForallOrdPairs R l -> Forall (fun a => R a x) l ->
  ForallOrdPairs R (l ++ [x]).
Proof.
  induction 1 as [|a l Ha Hl IH]; intro Hx; simpl.
  - repeat constructor.
  - inversion Hx as [|? ? Hax Hlx]; subst.
    constructor; [|apply IH; exact Hlx].
    apply Forall_app. split; [exact Ha|repeat constructor; exact Hax].
Qed.

Lemma ForallOrdPairs_Forall2 {A} (R : A -> A -> Prop) (S : A -> A -> Prop) l l' :
  (forall a a' b b', S a a' -> S b b' -> R a b -> R a' b') ->
  Forall2 S l l' ->
  ForallOrdPairs R l -> ForallOrdPairs R l'.
Proof.
  intros HS H2. induction H2 as [|a a' l l' Ha Hl IH]; intro Hord.
  - constructor.
  - inversion Hord as [|? ? Hfirst Hrest]; subst.
    constructor; [|apply IH; exact Hrest].
    clear IH Hord Hrest. induction Hl as [|b b' l l' Hb Hl IH'].
    + constructor.
    + inversion Hfirst as [|? ? Hab Hal]; subst.
      constructor; [exact (HS _ _ _ _ Ha Hb Hab)|apply IH'; exact Hal].
Qed.

(** X1.  In every table the trigger builds from the empty one, run one
    invocation after another, each hotspot lies farther than the cluster
    radius from every hotspot founded before it. *)
Theorem hotspots_pairwise_apart l :
  ForallOrdPairs
    (fun older newer =>
       cluster_radius < ST_Distance (location older) (location newer))
    (hotspots (absorb_all ST_Distance l empty_store)).
Proof.
  assert (Hgen : forall l s,
            ForallOrdPairs
              (fun older newer =>
                 cluster_radius < ST_Distance (location older) (location newer))
              (hotspots s) ->
            ForallOrdPairs
              (fun older newer =>
                 cluster_radius < ST_Distance (location older) (location newer))
              (hotspots (absorb_all ST_Distance l s))).
  { clear l. induction l as [|i l IH]; intros s Hs; [exact Hs|].
    cbn [absorb_all fold_left]. apply IH. unfold absorb.
    destruct (aggregate_reports_to_hotspots ST_Distance (ins_uuid i) (ins_now i)
                (ins_row i) (hotspots s)) as [hs'|e] eqn:E; [|exact Hs].
    cbn [hotspots].
    destruct (trigger_Ok_shape _ _ _ _ _ E)
      as [(t & _ & _ & Hup)|(d & Hnone & _ & _ & ->)].
    - apply (ForallOrdPairs_Forall2 _ _ _ _
               (fun a a' b b' Ha Hb Hab =>
                  eq_ind_r (fun p => cluster_radius < ST_Distance p _)
                    (eq_ind_r (fun p => cluster_radius < ST_Distance _ p) Hab
                       (proj2 Hb)) (proj2 Ha))
               (update_hotspots_places _ _ _ _ _ Hup) Hs).
    - apply ForallOrdPairs_snoc; [exact Hs|].
      apply Forall_forall. intros h Hh. cbn [location].
      exact (proj1 (select_nearest_None ST_Distance _ _ _) Hnone h Hh). }
  apply Hgen. constructor.
Qed.

(** *** Every absorbed report is counted once *)

Lemma absorbed_length_le l : forall s,
  (List.length (absorbed (absorb_all ST_Distance l s))
   <= List.length (absorbed s) + List.length l)%nat.
Proof.
  induction l as [|i l IH]; intro s; cbn [absorb_all fold_left List.length];
    [lia|].
  specialize (IH (absorb ST_Distance i s)).
  assert (List.length (absorbed (absorb ST_Distance i s))
          <= S (List.length (absorbed s)))%nat.
  { unfold absorb.
    destruct (aggregate_reports_to_hotspots ST_Distance _ _ _ _);
      cbn [absorbed].
    - rewrite length_app. cbn [List.length]. lia.
    - lia. }
  fold (absorb_all ST_Distance l (absorb ST_Distance i s)). lia.
Qed.

(** X2.  In every store built from the empty one, the [report_count]s of all
    hotspots add up to the number of reports whose insertion went through,
    and there are at most as many hotspots as such reports. *)
Theorem report_counts_add_up l :
  let s := absorb_all ST_Distance l empty_store in
  total_count (hotspots s) = Z.of_nat (List.length (absorbed s)) /\
  (List.length (hotspots s) <= List.length (absorbed s) <= List.length l)%nat.
Proof.
  assert (Hgen : forall l s,
            NoDup (map id (hotspots s)) /\
            Forall (fun h => (1 <= report_count h)%Z) (hotspots s) /\
            total_count (hotspots s) = Z.of_nat (List.length (absorbed s)) ->
            let s' := absorb_all ST_Distance l s in
            NoDup (map id (hotspots s')) /\
            Forall (fun h => (1 <= report_count h)%Z) (hotspots s') /\
            total_count (hotspots s') = Z.of_nat (List.length (absorbed s'))).
  { clear l. induction l as [|i l IH]; intros s Hs; [exact Hs|].
    cbn [absorb_all fold_left]. apply IH.
    destruct Hs as (Hnd & Hpos & Htot). unfold absorb.
    destruct (aggregate_reports_to_hotspots ST_Distance (ins_uuid i) (ins_now i)
                (ins_row i) (hotspots s)) as [hs'|e] eqn:E;
      [|repeat split; assumption].
    destruct (trigger_Ok_step _ _ _ _ _ Hnd E) as (Hnd' & Htot' & Hpos').
    cbn [hotspots absorbed]. split; [exact Hnd'|]. split; [exact (Hpos' Hpos)|].
    rewrite Htot', Htot, length_app. cbn [List.length]. lia. }
  intro s.
  destruct (Hgen l empty_store) as (_ & Hpos & Htot).
  { split; [constructor|]. split; [constructor|reflexivity]. }
  fold s in Hpos, Htot. split; [exact Htot|]. split.
  - assert (H := total_count_length _ Hpos). lia.
  - exact (absorbed_length_le l empty_store).
Qed.

(** *** A report that went through is found again *)

Lemma select_nearest_finds table p radius h :
  In h table -> ST_Distance (location h) p <= radius ->
  exists t,
    select_nearest ST_Distance table p radius = Some t /\
    In t table /\
    ST_Distance (location t) p <= ST_Distance (location h) p.
Proof.
  intros Hin Hle.
  destruct (select_nearest ST_Distance table p radius) as [t|] eqn:E.
  - exists t. split; [reflexivity|].
    split; [exact (select_nearest_In ST_Distance _ _ _ _ E)|].
    destruct (select_nearest_Some ST_Distance _ _ _ _ E) as (_ & Hmin & _).
    apply Hmin; assumption.
  - exfalso.
    apply (Qlt_not_le _ _
             (proj1 (select_nearest_None ST_Distance _ _ _) E h Hin) Hle).
Qed.

(** X3.  After an invocation that succeeded, the trigger's own query for
    the report's position finds a hotspot of the new table within the
    cluster radius, in whatever order a scan yields the rows of the new
    table.  It is the hotspot that absorbed the report whenever no other
    hotspot was exactly as near, and then a second report at that position
    is absorbed by the same hotspot.  The distance from a point to itself
    is taken to be zero. *)
Theorem absorbed_report_is_found uuid now NEW table table' scan :
  (forall p, ST_Distance p p == 0) ->
  aggregate_reports_to_hotspots ST_Distance uuid now NEW table = Ok table' ->
  Permutation scan table' ->
  exists h,
    select_nearest ST_Distance scan (report_location NEW) cluster_radius
      = Some h /\
    In h table' /\
    ST_Distance (location h) (report_location NEW) <= cluster_radius /\
    ((forall t h',
        select_nearest ST_Distance table (report_location NEW) cluster_radius
          = Some t ->
        In h' table ->
        ST_Distance (location h') (report_location NEW)
          == ST_Distance (location t) (report_location NEW) ->
        id h' = id t) ->
     id h = absorbing_hotspot ST_Distance uuid NEW table /\
     forall uuid',
       absorbing_hotspot ST_Distance uuid' NEW scan
       = absorbing_hotspot ST_Distance uuid NEW table).
Proof.
  intros Hself H Hperm.
  assert (Hfound : exists h,
            select_nearest ST_Distance scan (report_location NEW) cluster_radius
              = Some h /\
            In h table' /\
            ST_Distance (location h) (report_location NEW) <= cluster_radius /\
            ((forall t h',
                select_nearest ST_Distance table (report_location NEW)
                  cluster_radius = Some t ->
                In h' table ->
                ST_Distance (location h') (report_location NEW)
                  == ST_Distance (location t) (report_location NEW) ->
                id h' = id t) ->
             id h = absorbing_hotspot ST_Distance uuid NEW table)).
  { unfold absorbing_hotspot.
    destruct (trigger_Ok_shape _ _ _ _ _ H)
      as [(t & Hsel & Ht & Hup)|(d & Hnone & _ & _ & ->)].
    - destruct (select_nearest_Some ST_Distance _ _ _ _ Hsel) as (Hle & Hmin & _).
      destruct (update_hotspots_keeps _ _ _ _ _ _ Hup Ht) as (t' & Ht' & Hrel).
      rewrite N.eqb_refl in Hrel.
      destruct (set_absorbed_inv _ _ _ _ Hrel) as (d & _ & _ & Et').
      assert (Hloc : location t' = location t) by (rewrite Et'; reflexivity).
      destruct (select_nearest_finds scan (report_location NEW) cluster_radius t')
        as (h & Hh & Hin & Hnear).
      { apply (Permutation_in _ (Permutation_sym Hperm)). exact Ht'. }
      { rewrite Hloc. exact Hle. }
      exists h. split; [exact Hh|].
      assert (Hin' : In h table') by (apply (Permutation_in _ Hperm); exact Hin).
      split; [exact Hin'|].
      destruct (select_nearest_Some ST_Distance _ _ _ _ Hh) as (Hhle & _).
      split; [exact Hhle|].
      intro Honly. rewrite Hsel.
      destruct (update_hotspots_In _ _ _ _ _ _ Hup Hin') as (h0 & Hh0 & Hrel0).
      assert (Hsame : id h = id h0 /\ location h = location h0).
      { destruct (id h0 =? id t)%N.
        - destruct (set_absorbed_inv _ _ _ _ Hrel0) as (d0 & _ & _ & ->).
          split; reflexivity.
        - subst h. split; reflexivity. }
      destruct Hsame as [Hid Hl]. rewrite Hid.
      apply (Honly t h0 Hsel Hh0).
      apply Qle_antisym.
      + rewrite <- Hl, <- Hloc. exact Hnear.
      + apply Hmin; [exact Hh0|]. rewrite <- Hl. exact Hhle.
    - set (new := mkHotspot uuid (report_location NEW) d 1 now now) in *.
      destruct (select_nearest_finds scan (report_location NEW) cluster_radius new)
        as (h & Hh & Hin & Hnear).
      { apply (Permutation_in _ (Permutation_sym Hperm)).
        apply in_or_app. right. left. reflexivity. }
      { cbn [location new]. rewrite Hself. unfold cluster_radius. discriminate. }
      exists h. split; [exact Hh|].
      assert (Hin' : In h (table ++ [new]))
        by (apply (Permutation_in _ Hperm); exact Hin).
      split; [exact Hin'|].
      destruct (select_nearest_Some ST_Distance _ _ _ _ Hh) as (Hhle & _).
      split; [exact Hhle|].
      intros _. rewrite Hnone.
      apply in_app_or in Hin'. destruct Hin' as [Hold|[<-|[]]]; [|reflexivity].
      exfalso.
      apply (Qlt_not_le _ _
               (proj1 (select_nearest_None ST_Distance _ _ _) Hnone h Hold) Hhle). }
  destruct Hfound as (h & Hsel & Hin & Hle & Hid).
  exists h. split; [exact Hsel|]. split; [exact Hin|]. split; [exact Hle|].
  intro Honly. split; [exact (Hid Honly)|].
  intro uuid'. unfold absorbing_hotspot at 1. rewrite Hsel. exact (Hid Honly).
Qed.

End TriggerRuns.
(** ** Report ingestion, beyond the rejections *)

Section IngestionRuns.

Variable ST_Distance : Geography -> Geography -> Q.

Lemma is_anonymous_false (b : option bool) :
  truthy b = false -> match b with Some b' => b' | None => false end = false.
Proof. destruct b as [[|]|]; [discriminate|reflexivity|reflexivity]. Qed.

(** X6.  Online, the mutation creates a report exactly when the user is
    signed in and registered in [users], the submission is not anonymous,
    its coordinates are finite, its noise level is not finite or lies in
    [0, 120], its [noise_type] is one of the five, and some hotspot lies
    within the cluster radius of it (on any other position the trigger,
    run with the rights of the client, fails).  The row stored is the
    submitted one with status [pending] and a NULL for a noise level that
    is not finite; it is appended to [reports], and [hotspots] is left as
    it was. *)
Theorem report_is_created_iff date_now reportData c db data c' db' :
  isOnline c = true ->
  createReportMutation ST_Distance date_now reportData c db
    = (Created data, c', db') <->
  c' = c /\
  exists u latitude longitude hotspot_record,
    user c = Some u /\
    truthy (rd_is_anonymous reportData) = false /\
    In u (db_users db) /\
    coordinate (JSON_number (rd_latitude reportData)) = Some latitude /\
    coordinate (JSON_number (rd_longitude reportData)) = Some longitude /\
    (if PrimFloat.is_finite (rd_noise_db reportData)
     then within 0 120 (rd_noise_db reportData) else true) = true /\
    In (rd_noise_type reportData) noise_types /\
    data = Schema.mkReport (Some u) latitude longitude
             (JSON_number (rd_noise_db reportData))
             (rd_noise_type reportData) false "pending" /\
    Schema.select_nearest ST_Distance (db_hotspots db)
      (Schema.report_location data) cluster_radius = Some hotspot_record /\
    db' = mkDatabase (db_users db) (db_reports db ++ [data]) (db_hotspots db).
Proof.
  intro Hon. unfold createReportMutation. rewrite Hon. cbn [negb].
  unfold reports_insert, Schema.aggregate_reports_to_hotspots_rls. split.
  - destruct (negb (match user c with Some _ => true | None => false end)
              && negb (truthy (rd_is_anonymous reportData))) eqn:Eauth;
      [discriminate|].
    destruct (check_report (user c) (db_users db) (payload (user c) reportData))
      as [NEW|e] eqn:Echk; [|discriminate].
    cbn [bind].
    destruct (Schema.select_nearest ST_Distance (db_hotspots db)
                (Schema.report_location NEW) cluster_radius)
      as [t|] eqn:Esel; [|discriminate].
    cbn [bind]. intro H. inversion H; subst. split; [reflexivity|].
    apply check_report_Ok_iff in Echk.
    destruct Echk as (u & lat & lon & Hu & _ & Hlat & Hlon & Hdb & Hty & _
                      & Hin & Hrow).
    unfold payload in Hu, Hlat, Hlon, Hdb, Hty, Hrow.
    cbn [pl_user_id pl_latitude pl_longitude pl_noise_db pl_noise_type
         pl_is_anonymous pl_status] in Hu, Hlat, Hlon, Hdb, Hty, Hrow.
    destruct (truthy (rd_is_anonymous reportData)) eqn:Eanon; [discriminate|].
    rewrite (is_anonymous_false _ Eanon) in Hrow.
    rewrite noise_db_check_JSON in Hdb.
    exists u, lat, lon, t. subst data. repeat split; assumption.
  - intros (-> & u & lat & lon & t & Hu & Hanon & Hin & Hlat & Hlon & Hdb & Hty
            & Hrow & Hsel & ->).
    rewrite Hu, Hanon. cbn [negb andb].
    assert (Echk : check_report (Some u) (db_users db)
                     (payload (Some u) reportData) = Ok data).
    { apply check_report_Ok_iff. exists u, lat, lon. unfold payload.
      cbn [pl_user_id pl_latitude pl_longitude pl_noise_db pl_noise_type
           pl_is_anonymous pl_status].
      rewrite Hanon, (is_anonymous_false _ Hanon), noise_db_check_JSON.
      split; [reflexivity|]. split; [left; reflexivity|].
      split; [exact Hlat|]. split; [exact Hlon|]. split; [exact Hdb|].
      split; [exact Hty|]. split; [left; reflexivity|].
      split; [exact Hin|exact Hrow]. }
    rewrite Echk. cbn [bind]. rewrite Hsel. reflexivity.
Qed.

(** X7.  Online, an anonymous submission is never stored: the mutation
    sends the empty string as [user_id], which is no uuid, and the insertion
    fails before any check or trigger, whoever is signed in and whatever the
    report or the database. *)
Theorem anonymous_report_is_never_stored date_now reportData c db :
  isOnline c = true ->
  truthy (rd_is_anonymous reportData) = true ->
  createReportMutation ST_Distance date_now reportData c db
    = (Rejected invalid_text_representation, c, db).
Proof.
  intros Hon Hanon. unfold createReportMutation.
  rewrite Hon, Hanon. cbn [negb andb].
  rewrite andb_false_r.
  unfold reports_insert, check_report, payload. rewrite Hanon. reflexivity.
Qed.

(** What one call does to the client and to the tables. *)
Lemma mutation_effect date_now reportData c db :
  exists o c' db',
    createReportMutation ST_Distance date_now reportData c db = (o, c', db') /\
    (isOnline c = true -> c' = c) /\
    (db' = db \/
     exists data,
       createReportMutation ST_Distance date_now reportData c db
         = (Created data, c, db') /\
       isOnline c = true).
Proof.
  destruct (createReportMutation ST_Distance date_now reportData c db)
    as [[o c'] db'] eqn:E.
  exists o, c', db'. split; [reflexivity|].
  unfold createReportMutation in E.
  destruct (isOnline c) eqn:Hon; cbn [negb] in E.
  - destruct (negb _ && negb _) in E.
    + inversion E. split; [reflexivity|left; reflexivity].
    + destruct (reports_insert _ _ _ _) as [[data db1]|e] in E; inversion E.
      * split; [reflexivity|]. right. exists data. split; reflexivity.
      * split; [reflexivity|left; reflexivity].
  - inversion E. split; [discriminate|left; reflexivity].
Qed.

(** X8.  Whatever calls of the mutation are made, by whatever clients,
    against a database without reports: [users] and [hotspots] are never
    changed, so no hotspot ever counts a report submitted through the
    mutation; every stored report has a [noise_db] that is NULL or in
    [0, 120], a [noise_type] of the enumeration, the status [pending], a
    registered author, is not anonymous and lies within the cluster radius
    of a hotspot; and when [hotspots] is empty no report is ever stored. *)
Theorem stored_reports_are_valid users table l :
  let db := submit_all ST_Distance l (mkDatabase users [] table) in
  db_users db = users /\
  db_hotspots db = table /\
  Forall (fun r =>
            noise_db_check (Schema.noise_db r) = true /\
            In (Schema.noise_type r) noise_types /\
            Schema.status r = "pending"%string /\
            Schema.is_anonymous r = false /\
            (exists u, Schema.user_id r = Some u /\ In u users) /\
            exists hotspot_record,
              Schema.select_nearest ST_Distance table
                (Schema.report_location r) cluster_radius
              = Some hotspot_record)
    (db_reports db) /\
  (table = [] ->
   db_reports db = [] /\
   Schema.total_count (db_hotspots db)
   = Z.of_nat (List.length (db_reports db))).
Proof.
  set (valid := fun r =>
         noise_db_check (Schema.noise_db r) = true /\
         In (Schema.noise_type r) noise_types /\
         Schema.status r = "pending"%string /\
         Schema.is_anonymous r = false /\
         (exists u, Schema.user_id r = Some u /\ In u users) /\
         exists hotspot_record,
           Schema.select_nearest ST_Distance table
             (Schema.report_location r) cluster_radius
           = Some hotspot_record).
  assert (Hgen : forall l db,
            db_users db = users /\ db_hotspots db = table /\
            Forall valid (db_reports db) ->
            let db' := submit_all ST_Distance l db in
            db_users db' = users /\ db_hotspots db' = table /\
            Forall valid (db_reports db')).
  { clear l. induction l as [|s l IH]; intros db Hdb; [exact Hdb|].
    cbn [submit_all fold_left]. apply IH.
    destruct Hdb as (Hu & Hh & Hrows). unfold submit.
    destruct (mutation_effect (sub_date_now s) (sub_data s) (sub_client s) db)
      as (o & c' & db' & E & _ & Hdb).
    rewrite E. cbn [snd].
    destruct Hdb as [->|(data & Ecr & Hon)]; [repeat split; assumption|].
    apply (report_is_created_iff _ _ _ _ _ _ _ Hon) in Ecr.
    destruct Ecr as (_ & u & lat & lon & t & _ & _ & Hin & _ & _ & Hdbr & Hty
                     & -> & Hsel & ->).
    cbn [db_users db_hotspots db_reports].
    split; [exact Hu|]. split; [exact Hh|].
    apply Forall_app. split; [exact Hrows|].
    constructor; [|constructor]. unfold valid. rewrite <- Hh.
    cbn [Schema.noise_db Schema.noise_type Schema.status Schema.is_anonymous
         Schema.user_id].
    split; [rewrite noise_db_check_JSON; exact Hdbr|].
    split; [exact Hty|]. split; [reflexivity|]. split; [reflexivity|].
    split; [exists u; split; [reflexivity|rewrite <- Hu; exact Hin]|].
    exists t. exact Hsel. }
  intro db.
  destruct (Hgen l (mkDatabase users [] table)) as (Hu & Hh & Hrows).
  { cbn [db_users db_hotspots db_reports].
    split; [reflexivity|]. split; [reflexivity|constructor]. }
  fold db in Hu, Hh, Hrows. clearbody db.
  split; [exact Hu|]. split; [exact Hh|]. split; [exact Hrows|].
  intro Hempty.
  assert (Hnone : db_reports db = []).
  { destruct (db_reports db) as [|r rest]; [reflexivity|].
    inversion Hrows as [|? ? Hr _].
    destruct Hr as (_ & _ & _ & _ & _ & t & Ht).
    rewrite ?Hempty in Ht. discriminate Ht. }
  split; [exact Hnone|]. rewrite Hnone, Hh, Hempty. reflexivity.
Qed.

(** One online call leaves the client as it is, and stores at most the
    submitted report. *)
Lemma online_call date_now reportData c db :
  isOnline c = true ->
  exists o db',
    createReportMutation ST_Distance date_now reportData c db = (o, c, db') /\
    (db_reports db' = db_reports db \/
     exists r,
       db_reports db' = db_reports db ++ [r] /\
       coordinate (JSON_number (rd_latitude reportData))
         = Some (Schema.latitude r) /\
       coordinate (JSON_number (rd_longitude reportData))
         = Some (Schema.longitude r) /\
       Schema.noise_db r = JSON_number (rd_noise_db reportData) /\
       Schema.noise_type r = rd_noise_type reportData).
Proof.
  intro Hon.
  destruct (mutation_effect date_now reportData c db)
    as (o & c' & db' & E & Hc & Hdb).
  rewrite (Hc Hon) in E. exists o, db'. split; [exact E|].
  destruct Hdb as [->|(data & Ecr & _)]; [left; reflexivity|].
  apply (report_is_created_iff _ _ _ _ _ _ _ Hon) in Ecr.
  destruct Ecr as (_ & u & lat & lon & t & _ & _ & _ & Hlat & Hlon & _ & _
                   & -> & _ & ->).
  right. eexists. split; [reflexivity|].
  cbn [Schema.latitude Schema.longitude Schema.noise_db Schema.noise_type].
  repeat split; assumption.
Qed.

Lemma syncOfflineReports_online queue : forall env c db,
  isOnline c = true ->
  fst (syncOfflineReports ST_Distance env queue c db) = c /\
  exists stored,
    db_reports (snd (syncOfflineReports ST_Distance env queue c db))
      = db_reports db ++ stored /\
    (List.length stored <= List.length queue)%nat /\
    Forall (fun r => exists q,
              In q queue /\
              coordinate (JSON_number (rd_latitude (snd q)))
                = Some (Schema.latitude r) /\
              coordinate (JSON_number (rd_longitude (snd q)))
                = Some (Schema.longitude r) /\
              Schema.noise_db r = JSON_number (rd_noise_db (snd q)) /\
              Schema.noise_type r = rd_noise_type (snd q)) stored.
Proof.
  induction queue as [|q queue IH]; intros env c db Hon.
  - cbn [syncOfflineReports fst snd]. split; [reflexivity|]. exists [].
    rewrite app_nil_r.
    split; [reflexivity|]. split; [cbn; lia|constructor].
  - cbn [syncOfflineReports].
    destruct (online_call (env 0%nat) (snd q) c db Hon) as (o & db' & -> & Hdb).
    destruct (IH (fun k => env (S k)) c db' Hon)
      as (Hc & stored & Hst & Hlen & Hall).
    split; [exact Hc|].
    assert (Hweak : Forall (fun r => exists q0,
                      In q0 (q :: queue) /\
                      coordinate (JSON_number (rd_latitude (snd q0)))
                        = Some (Schema.latitude r) /\
                      coordinate (JSON_number (rd_longitude (snd q0)))
                        = Some (Schema.longitude r) /\
                      Schema.noise_db r = JSON_number (rd_noise_db (snd q0)) /\
                      Schema.noise_type r = rd_noise_type (snd q0)) stored).
    { eapply Forall_impl; [|exact Hall]. intros r (q0 & Hq0 & H).
      exists q0. split; [right; exact Hq0|exact H]. }
    destruct Hdb as [Hsame|(r & Hr & Hfields)].
    + exists stored. rewrite Hst, Hsame.
      split; [reflexivity|]. split; [cbn [List.length]; lia|exact Hweak].
    + exists (r :: stored). rewrite Hst, Hr, <- app_assoc.
      split; [reflexivity|]. split; [cbn [List.length]; lia|].
      constructor; [|exact Hweak].
      exists q. split; [left; reflexivity|exact Hfields].
Qed.

(** X9.  The synchronisation of the offline queue never changes the client:
    the queue after it is the queue before it, whatever was stored, so the
    next run submits the same reports again.  It appends to [reports] at
    most one row per queued report, each carrying the position, level and
    type of a queued report. *)
Theorem sync_keeps_the_queue env c db :
  fst (sync_effect ST_Distance env c db) = c /\
  exists stored,
    db_reports (snd (sync_effect ST_Distance env c db))
      = db_reports db ++ stored /\
    (List.length stored <= List.length (offlineReports c))%nat /\
    Forall (fun r => exists q,
              In q (offlineReports c) /\
              coordinate (JSON_number (rd_latitude (snd q)))
                = Some (Schema.latitude r) /\
              coordinate (JSON_number (rd_longitude (snd q)))
                = Some (Schema.longitude r) /\
              Schema.noise_db r = JSON_number (rd_noise_db (snd q)) /\
              Schema.noise_type r = rd_noise_type (snd q)) stored.
Proof.
  unfold sync_effect.
  destruct (isOnline c) eqn:Hon; cbn [andb].
  - destruct (negb (Nat.eqb (List.length (offlineReports c)) 0)).
    + apply syncOfflineReports_online. exact Hon.
    + cbn [fst snd]. split; [reflexivity|]. exists []. rewrite app_nil_r.
      split; [reflexivity|]. split; [apply Nat.le_0_l|constructor].
  - cbn [fst snd]. split; [reflexivity|]. exists []. rewrite app_nil_r.
    split; [reflexivity|]. split; [apply Nat.le_0_l|constructor].
Qed.

End IngestionRuns.
(** ** Noise levels, colours and texts *)

Lemma Qlt_bool_true a b : Qlt_bool a b = true <-> a < b.
Proof.
  unfold Qlt_bool. rewrite negb_true_iff. split; intro H.
  - apply Qnot_le_lt. intro Hle. apply Qle_bool_iff in Hle. congruence.
  - destruct (Qle_bool b a) eqn:E; [|reflexivity].
    apply Qle_bool_iff in E. exfalso. apply (Qlt_not_le _ _ H E).
Qed.

Lemma Qlt_bool_false a b : Qlt_bool a b = false <-> b <= a.
Proof.
  unfold Qlt_bool. rewrite negb_false_iff. apply Qle_bool_iff.
Qed.

(** Decide the comparisons of a noise level with the thresholds, and close
    the cases that contradict each other. *)
Ltac thresholds db :=
  unfold NOISE_THRESHOLDS.low, NOISE_THRESHOLDS.moderate,
    NOISE_THRESHOLDS.high in *;
  destruct (Qlt_bool db 40) eqn:?H40;
  destruct (Qlt_bool db 60) eqn:?H60;
  destruct (Qlt_bool db 75) eqn:?H75;
  destruct (Qlt_bool db 90) eqn:?H90;
  repeat match goal with
         | H : Qlt_bool _ _ = true |- _ => apply Qlt_bool_true in H
         | H : Qlt_bool _ _ = false |- _ => apply Qlt_bool_false in H
         end;
  try (exfalso; Lqa.lra).

(** X10.  The level, the health-risk text and the audio description cut the
    scale at the same places: a level is [low] exactly when the risk reads
    "Safe" and the description "Very quiet" or "Quiet" (below 60),
    [moderate] exactly when they read "Caution" and "Moderate" (60 to 75),
    and [high] from 75 on, where "Warning" goes with "Loud" (below 90) and
    "Danger" with "Very loud".  A louder reading never gets a lower level. *)
Theorem noise_scales_agree :
  (forall db,
     (noiseUtils.getNoiseLevel db = "low"%string <->
      noiseUtils.getHealthRisk db = "Safe - No immediate health concerns"%string) /\
     (noiseUtils.getNoiseLevel db = "low"%string <->
      audioUtils.getAudioLevelDescription db = "Very quiet"%string \/
      audioUtils.getAudioLevelDescription db = "Quiet"%string) /\
     (noiseUtils.getNoiseLevel db = "moderate"%string <->
      noiseUtils.getHealthRisk db
      = "Caution - May cause annoyance and sleep disturbance"%string) /\
     (noiseUtils.getNoiseLevel db = "moderate"%string <->
      audioUtils.getAudioLevelDescription db = "Moderate"%string) /\
     (noiseUtils.getNoiseLevel db = "high"%string <->
      audioUtils.getAudioLevelDescription db = "Loud"%string \/
      audioUtils.getAudioLevelDescription db = "Very loud"%string) /\
     (audioUtils.getAudioLevelDescription db = "Loud"%string <->
      noiseUtils.getHealthRisk db
      = "Warning - Can lead to stress and hearing damage"%string) /\
     (audioUtils.getAudioLevelDescription db = "Very loud"%string <->
      noiseUtils.getHealthRisk db
      = "Danger - Immediate risk of hearing loss and health issues"%string)) /\
  (forall db1 db2,
     db1 <= db2 ->
     (noiseUtils.getNoiseLevel db2 = "low"%string ->
      noiseUtils.getNoiseLevel db1 = "low"%string) /\
     (noiseUtils.getNoiseLevel db1 = "high"%string ->
      noiseUtils.getNoiseLevel db2 = "high"%string)).
Proof.
  split.
  - intro db.
    unfold noiseUtils.getNoiseLevel, noiseUtils.getHealthRisk,
      audioUtils.getAudioLevelDescription.
    thresholds db;
      repeat split; intros; try reflexivity; try discriminate;
      try (left; reflexivity); try (right; reflexivity);
      repeat match goal with
             | H : _ \/ _ |- _ => destruct H; try discriminate
             end.
  - intros db1 db2 Hle. unfold noiseUtils.getNoiseLevel.
    unfold NOISE_THRESHOLDS.low, NOISE_THRESHOLDS.moderate.
    destruct (Qlt_bool db1 60) eqn:A60; destruct (Qlt_bool db1 75) eqn:A75;
      destruct (Qlt_bool db2 60) eqn:B60; destruct (Qlt_bool db2 75) eqn:B75;
      repeat match goal with
             | H : Qlt_bool _ _ = true |- _ => apply Qlt_bool_true in H
             | H : Qlt_bool _ _ = false |- _ => apply Qlt_bool_false in H
             end;
      try (exfalso; Lqa.lra);
      split; intros; try reflexivity; try discriminate.
Qed.

(** X11.  [getNoiseColor] never falls into the [default] of its [switch]:
    the colour is green below 60, yellow from 60 to 75 and red from 75 on,
    never gray.  The marker colour of the map screen is the same colour,
    except for readings from 75 up to 90, which the map shows in orange. *)
Theorem marker_colours db :
  noiseUtils.getNoiseColor db <> "#6B7280"%string /\
  (noiseUtils.getNoiseColor db = "#10B981"%string <-> db < 60) /\
  (noiseUtils.getNoiseColor db = "#F59E0B"%string <-> 60 <= db /\ db < 75) /\
  (noiseUtils.getNoiseColor db = "#EF4444"%string <-> 75 <= db) /\
  (MapScreen.getMarkerColor db = noiseUtils.getNoiseColor db <->
   ~ (75 <= db /\ db < 90)) /\
  (75 <= db /\ db < 90 -> MapScreen.getMarkerColor db = "#F97316"%string).
Proof.
  unfold noiseUtils.getNoiseColor, noiseUtils.getNoiseLevel,
    MapScreen.getMarkerColor.
  thresholds db; cbn;
    (split; [discriminate|]);
    repeat split; intros; try reflexivity; try discriminate;
    try Lqa.lra; try assumption;
    try (exfalso; Lqa.lra);
    try match goal with
        | H : ~ _ |- _ => exfalso; apply H; split; Lqa.lra
        | H : _ /\ _ |- False => destruct H; Lqa.lra
        end.
Qed.

(** X12.  The "high noise" lists of the hook and of the store hold exactly
    the entries, in their order, whose reading has the level [high], the
    ones coloured red. *)
Theorem high_noise_lists :
  (forall reports,
     getHighNoiseReports reports
     = filter (fun r => String.eqb (noiseUtils.getNoiseLevel (noise_db r)) "high")
         reports) /\
  (forall hotspots,
     getHighNoiseHotspots hotspots
     = filter (fun h => String.eqb (noiseUtils.getNoiseColor (avg_noise_db h))
                          "#EF4444") hotspots) /\
  (forall reports r,
     In r (getHighNoiseReports reports) <->
     In r reports /\ noiseUtils.getNoiseLevel (noise_db r) = "high"%string).
Proof.
  assert (Hlevel : forall db,
            Qle_bool 75 db
            = String.eqb (noiseUtils.getNoiseLevel db) "high").
  { intro db. unfold noiseUtils.getNoiseLevel.
    unfold NOISE_THRESHOLDS.low, NOISE_THRESHOLDS.moderate.
    destruct (Qle_bool 75 db) eqn:E.
    - apply Qle_bool_iff in E.
      rewrite (proj2 (Qlt_bool_false db 60)) by Lqa.lra.
      rewrite (proj2 (Qlt_bool_false db 75)) by Lqa.lra. reflexivity.
    - destruct (Qlt_bool db 60); [reflexivity|].
      destruct (Qlt_bool db 75) eqn:E75; [reflexivity|].
      apply Qlt_bool_false, Qle_bool_iff in E75. congruence. }
  assert (Hcolour : forall db,
            Qle_bool 75 db
            = String.eqb (noiseUtils.getNoiseColor db) "#EF4444").
  { intro db. rewrite Hlevel. unfold noiseUtils.getNoiseColor.
    destruct (noiseUtils.getNoiseLevel db =? "low")%string eqn:El.
    - apply String.eqb_eq in El. rewrite El. reflexivity.
    - destruct (noiseUtils.getNoiseLevel db =? "moderate")%string eqn:Em.
      + apply String.eqb_eq in Em. rewrite Em. reflexivity.
      + destruct (noiseUtils.getNoiseLevel db =? "high")%string; reflexivity. }
  split; [|split].
  - intro reports. unfold getHighNoiseReports. apply filter_ext.
    intro r. apply Hlevel.
  - intro hotspots. unfold getHighNoiseHotspots. apply filter_ext.
    intro h. apply Hcolour.
  - intros reports r. unfold getHighNoiseReports.
    rewrite filter_In, Hlevel, String.eqb_eq. reflexivity.
Qed.

(** ** Relative times *)

(** X13.  For a date less than seven days before now, [formatTimestamp] and
    [getTimeAgo] build the same text; from seven days on the first gives the
    locale date and the second a count of days.  The counts shown are 1 to
    59 minutes, 1 to 23 hours or at least one day, and a date that is not in
    the past reads "Just now" in both. *)
Theorem relative_times_agree now date :
  ((now - date < 7 * 86400000)%Z ->
   dateUtils.formatTimestamp now date = dateUtils.getTimeAgo now date) /\
  ((7 * 86400000 <= now - date)%Z ->
   dateUtils.formatTimestamp now date = dateUtils.LocaleDateString date /\
   dateUtils.getTimeAgo now date
   = dateUtils.Ago ((now - date) / 86400000) "d") /\
  (forall n u,
     dateUtils.getTimeAgo now date = dateUtils.Ago n u ->
     (u = "m"%string /\ 1 <= n <= 59)%Z \/
     (u = "h"%string /\ 1 <= n <= 23)%Z \/
     (u = "d"%string /\ 1 <= n)%Z) /\
  ((now <= date)%Z ->
   dateUtils.formatTimestamp now date = dateUtils.Just_now /\
   dateUtils.getTimeAgo now date = dateUtils.Just_now).
Proof.
  unfold dateUtils.formatTimestamp, dateUtils.getTimeAgo.
  set (d := (now - date)%Z).
  repeat split.
  - intro H7.
    destruct (Z.ltb_spec (d / 60000) 1); destruct (Z.ltb_spec d 60000);
      try reflexivity; try (exfalso; Z.div_mod_to_equations; lia).
    destruct (Z.ltb_spec (d / 60000) 60); destruct (Z.ltb_spec d 3600000);
      try reflexivity; try (exfalso; Z.div_mod_to_equations; lia).
    destruct (Z.ltb_spec (d / 3600000) 24); destruct (Z.ltb_spec d 86400000);
      try reflexivity; try (exfalso; Z.div_mod_to_equations; lia).
    destruct (Z.ltb_spec (d / 86400000) 7);
      try reflexivity; try (exfalso; Z.div_mod_to_equations; lia).
  - destruct (Z.ltb_spec (d / 60000) 1);
      [exfalso; Z.div_mod_to_equations; lia|].
    destruct (Z.ltb_spec (d / 60000) 60);
      [exfalso; Z.div_mod_to_equations; lia|].
    destruct (Z.ltb_spec (d / 3600000) 24);
      [exfalso; Z.div_mod_to_equations; lia|].
    destruct (Z.ltb_spec (d / 86400000) 7);
      [exfalso; Z.div_mod_to_equations; lia|reflexivity].
  - destruct (Z.ltb_spec d 60000); [exfalso; lia|].
    destruct (Z.ltb_spec d 3600000); [exfalso; lia|].
    destruct (Z.ltb_spec d 86400000); [exfalso; lia|reflexivity].
  - intros n u.
    destruct (Z.ltb_spec d 60000); [discriminate|].
    destruct (Z.ltb_spec d 3600000);
      [intro E; inversion E; subst; left; split;
       [reflexivity|Z.div_mod_to_equations; lia]|].
    destruct (Z.ltb_spec d 86400000);
      intro E; inversion E; subst; right; [left|right]; split;
      try reflexivity; Z.div_mod_to_equations; lia.
  - destruct (Z.ltb_spec (d / 60000) 1);
      [reflexivity|exfalso; Z.div_mod_to_equations; lia].
  - destruct (Z.ltb_spec d 60000); [reflexivity|exfalso; lia].
Qed.

(** ** Great-circle distance *)

Lemma atan2_sin_cos y :
  (0 <= y <= PI / 2)%R -> Math.atan2 (sin y) (cos y) = y.
Proof.
  intros [H0 H1]. unfold Math.atan2. assert (Hpi := PI_RGT_0).
  destruct (Rlt_dec 0 (cos y)) as [Hc|Hc].
  - assert (Hy : (y < PI / 2)%R).
    { destruct (Rle_lt_or_eq_dec _ _ H1) as [Hlt|Heq]; [exact Hlt|].
      rewrite Heq, cos_PI2 in Hc. lra. }
    change (sin y / cos y)%R with (tan y). apply atan_tan. lra.
  - assert (Hy : y = (PI / 2)%R).
    { destruct (Rle_lt_or_eq_dec _ _ H1) as [Hlt|Heq]; [|exact Heq].
      exfalso. apply Hc. apply cos_gt_0; lra. }
    subst y. rewrite cos_PI2, sin_PI2.
    destruct (Rlt_dec 0 0) as [H|_]; [lra|].
    destruct (Rlt_dec 0 1) as [_|H]; [reflexivity|lra].
Qed.

Lemma meridian_angle x :
  (Rabs x <= PI / 2)%R ->
  Math.atan2 (sqrt (sin x * sin x)) (sqrt (1 - sin x * sin x)) = Rabs x.
Proof.
  intro Hx. assert (Hpi := PI_RGT_0).
  assert (Hy : (0 <= Rabs x <= PI / 2)%R) by (split; [apply Rabs_pos|exact Hx]).
  assert (Hsq : (sin x * sin x = sin (Rabs x) * sin (Rabs x))%R).
  { unfold Rabs. destruct (Rcase_abs x); [rewrite sin_neg; ring|reflexivity]. }
  rewrite Hsq.
  assert (Hcos : (1 - sin (Rabs x) * sin (Rabs x)
                  = cos (Rabs x) * cos (Rabs x))%R).
  { assert (H := sin2_cos2 (Rabs x)). unfold Rsqr in H. lra. }
  rewrite Hcos.
  rewrite sqrt_square by (apply sin_ge_0; lra).
  rewrite sqrt_square by (apply cos_ge_0; lra).
  apply atan2_sin_cos. exact Hy.
Qed.

(** X15.  Between two points of one meridian the function returns the arc
    length itself: 6371 km times the difference of the latitudes in radians
    (111.19 km per degree), as long as the latitudes differ by at most 180
    degrees (over the reals). *)
Theorem calculateDistance_along_meridian lat1 lat2 lon :
  (Rabs (lat2 - lat1) <= 180)%R ->
  locationUtils.calculateDistance lat1 lon lat2 lon
  = (6371 * (Rabs (lat2 - lat1) * PI / 180))%R.
Proof.
  intro Hd. unfold locationUtils.calculateDistance.
  assert (Hpi := PI_RGT_0).
  replace ((lon - lon) * PI / 180 / 2)%R with 0%R by lra.
  rewrite sin_0.
  set (x := ((lat2 - lat1) * PI / 180 / 2)%R).
  replace (sin x * sin x +
           cos (lat1 * PI / 180) * cos (lat2 * PI / 180) * 0 * 0)%R
    with (sin x * sin x)%R by ring.
  assert (Habs : Rabs x = (Rabs (lat2 - lat1) * PI / 180 / 2)%R).
  { unfold x, Rabs.
    destruct (Rcase_abs (lat2 - lat1)) as [Hn|Hp];
      destruct (Rcase_abs ((lat2 - lat1) * PI / 180 / 2)) as [Hn'|Hp'];
      try lra; exfalso; nra. }
  rewrite meridian_angle.
  - rewrite Habs. field.
  - rewrite Habs. nra.
Qed.

(* ------------------------------------------------------------------ *)
(** ** The level read off a recording                                   *)
(* ------------------------------------------------------------------ *)

Lemma sum_of_squares_shift samples acc :
  fold_left (fun acc sample => (acc + sample * sample)%R) samples acc
  = (acc + fold_left (fun acc sample => (acc + sample * sample)%R) samples 0)%R.
Proof.
  revert acc. induction samples as [|s l IH]; intro acc; simpl; [ring|].
  rewrite (IH (acc + s * s)%R), (IH (0 + s * s)%R). ring.
Qed.

Lemma square_of_bounded s B :
  (Rabs s <= B)%R -> (0 <= s * s <= B * B)%R.
Proof.
  intro H. unfold Rabs in H. destruct (Rcase_abs s); split; nra.
Qed.

Lemma sum_of_squares_bounds samples B :
  Forall (fun s => (Rabs s <= B)%R) samples ->
  (0 <= fold_left (fun acc sample => acc + sample * sample) samples 0
     <= INR (List.length samples) * (B * B))%R.
Proof.
  induction 1 as [|s l Hs Hl IH].
  - simpl. lra.
  - cbn [fold_left]. rewrite sum_of_squares_shift.
    change (List.length (s :: l)) with (S (List.length l)). rewrite S_INR.
    apply square_of_bounded in Hs. lra.
Qed.

Lemma sum_of_squares_full_scale samples B :
  Forall (fun s => Rabs s = B) samples ->
  fold_left (fun acc sample => (acc + sample * sample)%R) samples 0%R
  = (INR (List.length samples) * (B * B))%R.
Proof.
  induction 1 as [|s l Hs Hl IH].
  - simpl. ring.
  - cbn [fold_left]. rewrite sum_of_squares_shift, IH.
    change (List.length (s :: l)) with (S (List.length l)). rewrite S_INR.
    assert (Hsq : (s * s = B * B)%R).
    { subst B. unfold Rabs. destruct (Rcase_abs s); ring. }
    rewrite Hsq. ring.
Qed.

Lemma ln_10_pos : (0 < ln 10)%R.
Proof. rewrite <- ln_1. apply ln_increasing; lra. Qed.

Lemma attenuation_reading x :
  (0 < x <= 1)%R ->
  Rabs (20 * (ln x / ln 10)) = (- (20 * (ln x / ln 10)))%R /\
  (ln x <= 0)%R.
Proof.
  intros [H0 H1]. assert (H10 := ln_10_pos).
  assert (Hln : (ln x <= 0)%R).
  { rewrite <- ln_1. destruct (Rle_lt_or_eq_dec _ _ H1) as [Hlt|Heq].
    - apply Rlt_le, ln_increasing; assumption.
    - rewrite Heq. lra. }
  split; [|exact Hln].
  apply Rabs_left1.
  assert (H : (ln x / ln 10 <= 0)%R).
  { assert (Hinv := Rinv_0_lt_compat _ H10). unfold Rdiv. nra. }
  lra.
Qed.

Lemma full_scale_reading :
  Rmax 0 (Rmin 120 (Rabs (20 * (ln 1 / ln 10)))) = 0%R.
Proof.
  assert (H10 := ln_10_pos). rewrite ln_1.
  replace (20 * (0 / ln 10))%R with 0%R by (field; lra).
  rewrite Rabs_R0, Rmin_right by lra. apply Rmax_left. lra.
Qed.

Lemma relative_rms_range samples :
  samples <> [] ->
  Forall (fun s => (Rabs s <= 32767)%R) samples ->
  (0 <= sqrt (fold_left (fun acc sample => acc + sample * sample) samples 0
              / INR (List.length samples)) / 32767 <= 1)%R.
Proof.
  intros Hne Hall.
  assert (Hn : (0 < INR (List.length samples))%R).
  { destruct samples; [congruence|]. apply lt_0_INR. simpl. lia. }
  destruct (sum_of_squares_bounds samples 32767 Hall) as [Hlo Hhi].
  set (sum := fold_left (fun acc sample => (acc + sample * sample)%R) samples 0%R) in *.
  assert (Hm : (sum / INR (List.length samples) <= 32767 * 32767)%R).
  { apply Rmult_le_reg_r with (INR (List.length samples)); [exact Hn|].
    unfold Rdiv. rewrite Rmult_assoc, Rinv_l by lra. lra. }
  split.
  - apply Rmult_le_pos; [apply sqrt_pos|lra].
  - apply sqrt_le_1_alt in Hm. rewrite sqrt_square in Hm by lra. lra.
Qed.

(** X16.  The level is the attenuation below the 16-bit full scale, so a
    louder recording never reads higher: of two non-empty recordings with
    samples in the 16-bit range, the one with the larger mean square gets the
    smaller (or equal) reading, and a recording at full scale in every sample
    reads 0. *)
Theorem louder_recording_reads_lower samples1 samples2 :
  samples1 <> [] -> samples2 <> [] ->
  Forall (fun s => (Rabs s <= 32767)%R) samples1 ->
  Forall (fun s => (Rabs s <= 32767)%R) samples2 ->
  (fold_left (fun acc sample => acc + sample * sample) samples1 0
     / INR (List.length samples1)
   <= fold_left (fun acc sample => acc + sample * sample) samples2 0
     / INR (List.length samples2))%R ->
  exists db1 db2,
    audioUtils.calculateDbFromAudio (Some samples1) = Finite db1 /\
    audioUtils.calculateDbFromAudio (Some samples2) = Finite db2 /\
    (db2 <= db1)%R /\
    (Forall (fun s => Rabs s = 32767%R) samples2 -> db2 = 0%R).
Proof.
  intros Hne1 Hne2 Hall1 Hall2 Hle.
  assert (H10 := ln_10_pos).
  assert (Hr1 := relative_rms_range samples1 Hne1 Hall1).
  assert (Hr2 := relative_rms_range samples2 Hne2 Hall2).
  assert (Hfull : Forall (fun s => Rabs s = 32767%R) samples2 ->
     (sqrt (fold_left (fun acc sample => acc + sample * sample) samples2 0
            / INR (List.length samples2)) / 32767 = 1)%R).
  { intro Hfs. rewrite (sum_of_squares_full_scale samples2 32767 Hfs).
    assert (Hn : (0 < INR (List.length samples2))%R).
    { destruct samples2; [congruence|]. apply lt_0_INR. simpl. lia. }
    replace (INR (List.length samples2) * (32767 * 32767)
             / INR (List.length samples2))%R
      with (32767 * 32767)%R by (field; lra).
    rewrite sqrt_square by lra. field. }
  apply sqrt_le_1_alt in Hle.
  unfold audioUtils.calculateDbFromAudio.
  destruct samples1 as [|a1 l1]; [congruence|].
  destruct samples2 as [|a2 l2]; [congruence|].
  change (Nat.eqb (List.length (a1 :: l1)) 0) with false.
  change (Nat.eqb (List.length (a2 :: l2)) 0) with false.
  cbv iota zeta.
  set (x1 := (sqrt (fold_left (fun acc sample => acc + sample * sample)
                      (a1 :: l1) 0 / INR (List.length (a1 :: l1))) / 32767)%R) in *.
  set (x2 := (sqrt (fold_left (fun acc sample => acc + sample * sample)
                      (a2 :: l2) 0 / INR (List.length (a2 :: l2))) / 32767)%R) in *.
  assert (Hx : (x1 <= x2)%R).
  { unfold x1, x2. lra. }
  clearbody x1 x2. clear Hle.
  unfold Math.log10.
  destruct (Rlt_dec 0 x1) as [Hp1|Hn1]; destruct (Rlt_dec 0 x2) as [Hp2|Hn2].
  - destruct (attenuation_reading x1 (conj Hp1 (proj2 Hr1))) as [E1 L1].
    destruct (attenuation_reading x2 (conj Hp2 (proj2 Hr2))) as [E2 L2].
    cbn [Math.scale Math.abs Math.min Math.max]. rewrite E1, E2.
    do 2 eexists. split; [reflexivity|]. split; [reflexivity|]. split.
    + assert (Hln : (ln x1 <= ln x2)%R).
      { destruct (Rle_lt_or_eq_dec _ _ Hx) as [Hlt|Heq].
        - apply Rlt_le, ln_increasing; assumption.
        - rewrite Heq. lra. }
      assert (Hq : (- (20 * (ln x2 / ln 10)) <= - (20 * (ln x1 / ln 10)))%R).
      { assert (H : (ln x1 / ln 10 <= ln x2 / ln 10)%R).
        { unfold Rdiv. apply Rmult_le_compat_r;
            [apply Rlt_le, Rinv_0_lt_compat, H10|exact Hln]. }
        lra. }
      apply Rmax_lub; [apply Rmax_l|].
      eapply Rle_trans; [|apply Rmax_r].
      apply Rmin_glb; [apply Rmin_l|].
      eapply Rle_trans; [apply Rmin_r|exact Hq].
    + intro Hfs. rewrite <- E2, (Hfull Hfs). apply full_scale_reading.
  - exfalso. lra.
  - destruct (Req_dec_T x1 0) as [_|Hne]; [|exfalso; lra].
    cbn [Math.scale Math.abs Math.min Math.max].
    do 2 eexists. split; [reflexivity|]. split; [reflexivity|]. split.
    + rewrite (Rmax_right 0 120) by lra. apply clamp_range.
    + intro Hfs. rewrite (Hfull Hfs). apply full_scale_reading.
  - destruct (Req_dec_T x1 0) as [_|Hne]; [|exfalso; lra].
    destruct (Req_dec_T x2 0) as [_|Hne]; [|exfalso; lra].
    cbn [Math.scale Math.abs Math.min Math.max].
    do 2 eexists. split; [reflexivity|]. split; [reflexivity|]. split.
    + lra.
    + intro Hfs. exfalso. rewrite (Hfull Hfs) in Hn2. lra.
Qed.

(* ------------------------------------------------------------------ *)
(** ** The severity list and the high-noise filter                      *)
(* ------------------------------------------------------------------ *)

Lemma StronglySorted_firstn {A} (R : A -> A -> Prop) n l :
  StronglySorted R l -> StronglySorted R (firstn n l).
Proof.
  intro H. revert n. induction H as [|a l Hl IH Ha]; intro n.
  - rewrite firstn_nil. constructor.
  - destruct n as [|n]; simpl; constructor; [apply IH|].
    apply Forall_forall. intros x Hx.
    apply (proj1 (Forall_forall _ _) Ha).
    rewrite <- (firstn_skipn n l). apply in_or_app. left. exact Hx.
Qed.

Lemma getAll_sorted lim table :
  StronglySorted (fun a b => avg_noise_db b <= avg_noise_db a)
    (getAll lim table).
Proof.
  assert (Hsorted : StronglySorted (fun a b => avg_noise_db b <= avg_noise_db a)
                      (order_by avg_noise_db_desc table)).
  { apply order_by_sorted.
    - intros a b H. apply Qle_bool_iff. exact H.
    - intros a b H. unfold avg_noise_db_desc in H.
      apply Qlt_le_weak, Qnot_le_lt. intro Hle.
      apply Qle_bool_iff in Hle. congruence.
    - intros a b c Hab Hbc. eapply Qle_trans; eassumption. }
  unfold getAll. destruct lim as [n|]; [|exact Hsorted].
  destruct (n =? 0)%N; [exact Hsorted|].
  apply StronglySorted_firstn. exact Hsorted.
Qed.

Lemma threshold_filter_is_prefix c l :
  StronglySorted (fun a b : Hotspot => avg_noise_db b <= avg_noise_db a) l ->
  let high := filter (fun h => Qle_bool c (avg_noise_db h)) l in
  high = firstn (List.length high) l /\
  Forall (fun h => avg_noise_db h < c) (skipn (List.length high) l).
Proof.
  induction 1 as [|a l Hl IH Ha]; [split; [reflexivity|constructor]|].
  cbn zeta in *. cbn [filter].
  destruct (Qle_bool c (avg_noise_db a)) eqn:E.
  - destruct IH as [IH1 IH2]. cbn [List.length firstn skipn].
    split; [f_equal; exact IH1|exact IH2].
  - assert (Ea : avg_noise_db a < c).
    { apply Qnot_le_lt. intro Hle. apply Qle_bool_iff in Hle. congruence. }
    assert (Hlow : Forall (fun h => avg_noise_db h < c) l).
    { apply Forall_forall. intros h Hh.
      eapply Qle_lt_trans; [|exact Ea].
      exact (proj1 (Forall_forall _ _) Ha h Hh). }
    assert (Hnone : filter (fun h => Qle_bool c (avg_noise_db h)) l = []).
    { clear -Hlow. induction Hlow as [|h l Hh Hl IH]; [reflexivity|].
      cbn [filter].
      destruct (Qle_bool c (avg_noise_db h)) eqn:E; [|exact IH].
      apply Qle_bool_iff in E. exfalso.
      exact (Qlt_not_le _ _ Hh E). }
    rewrite Hnone. cbn [List.length firstn skipn].
    split; [reflexivity|]. constructor; assumption.
Qed.

(** X17.  In the list [getAll] returns, whatever the limit, the hotspots
    that [getHighNoiseHotspots] keeps are the leading ones: the filter cuts
    the list after its first [k] rows, and every row after the cut has an
    average below 75. *)
Theorem high_noise_hotspots_lead_the_list lim table :
  let rows := getAll lim table in
  let k := List.length (getHighNoiseHotspots rows) in
  getHighNoiseHotspots rows = firstn k rows /\
  Forall (fun h => avg_noise_db h < 75) (skipn k rows) /\
  rows = getHighNoiseHotspots rows ++ skipn k rows.
Proof.
  intros rows k.
  destruct (threshold_filter_is_prefix 75 rows (getAll_sorted lim table))
    as [H1 H2].
  fold (getHighNoiseHotspots rows) in H1, H2. fold k in H1, H2.
  split; [exact H1|]. split; [exact H2|].
  rewrite H1 at 1. symmetry. apply firstn_skipn.
Qed.

(* ------------------------------------------------------------------ *)
(** ** The offline queue                                                *)
(* ------------------------------------------------------------------ *)

Lemma filter_keeps_all {A} (p : A -> bool) l :
  Forall (fun x => p x = true) l -> filter p l = l.
Proof.
  induction 1 as [|x l Hx Hl IH]; [reflexivity|].
  cbn [filter]. rewrite Hx, IH. reflexivity.
Qed.

(** X18.  Offline, the mutation touches no table: it appends the report to
    the queue under the id made of [Date.now()] and returns it.  Removing
    that id afterwards leaves the queue that removing it before would have
    left: the queue as it was when no queued report carried that id, and
    otherwise the queue without the earlier reports of the same
    millisecond too.  Clearing empties the queue. *)
Theorem offline_report_is_queued_and_removed
    ST_Distance date_now reportData c db :
  isOnline c = false ->
  exists c',
    createReportMutation ST_Distance date_now reportData c db
      = (Stored (date_now, reportData), c', db) /\
    offlineReports c' = offlineReports c ++ [(date_now, reportData)] /\
    removeOfflineReport date_now c' = removeOfflineReport date_now c /\
    (Forall (fun q => fst q <> date_now) (offlineReports c) ->
     removeOfflineReport date_now c' = c) /\
    (forall q, In q (offlineReports (removeOfflineReport date_now c')) <->
               In q (offlineReports c) /\ fst q <> date_now) /\
    offlineReports (clearOfflineReports c') = [].
Proof.
  intro Hoff. destruct c as [online u queue].
  cbn [isOnline] in Hoff. subst online.
  unfold createReportMutation. cbn [isOnline user offlineReports negb].
  eexists. split; [reflexivity|]. split; [reflexivity|].
  assert (Hrem : removeOfflineReport date_now
                   (mkClient false u (queue ++ [(date_now, reportData)]))
                 = removeOfflineReport date_now (mkClient false u queue)).
  { unfold removeOfflineReport. cbn [isOnline user offlineReports].
    rewrite filter_app. cbn [filter fst]. rewrite Z.eqb_refl. cbn [negb].
    rewrite app_nil_r. reflexivity. }
  split; [exact Hrem|]. split; [|split; [|reflexivity]].
  - intro Hfresh. rewrite Hrem. unfold removeOfflineReport.
    cbn [isOnline user offlineReports].
    rewrite filter_keeps_all; [reflexivity|].
    eapply Forall_impl; [|exact Hfresh]. intros q Hq. cbn beta in Hq.
    apply Bool.negb_true_iff, Z.eqb_neq. exact Hq.
  - intro q. rewrite Hrem. unfold removeOfflineReport.
    cbn [offlineReports]. rewrite filter_In.
    rewrite Bool.negb_true_iff, Z.eqb_neq. reflexivity.
Qed.

(* ------------------------------------------------------------------ *)
(** ** The further properties on concrete rows                          *)
(* ------------------------------------------------------------------ *)

Lemma absorbed_report_is_found_witness :
  let older := Schema.mkHotspot 1 plaza db_85_5 1 0 0 in
  let newer := Schema.mkHotspot 2 (Schema.report_location site_report) 92.5 1 5 5 in
  (forall p, grid_distance p p == 0) /\
  Schema.aggregate_reports_to_hotspots grid_distance 2%N 5%Z site_report [older]
    = Ok [older; newer] /\
  Permutation [newer; older] [older; newer] /\
  exists h,
    Schema.select_nearest grid_distance [newer; older]
      (Schema.report_location site_report) cluster_radius = Some h /\
    In h [older; newer] /\
    grid_distance (Schema.location h) (Schema.report_location site_report)
    <= cluster_radius /\
    ((forall t h',
        Schema.select_nearest grid_distance [older]
          (Schema.report_location site_report) cluster_radius = Some t ->
        In h' [older] ->
        grid_distance (Schema.location h') (Schema.report_location site_report)
        == grid_distance (Schema.location t) (Schema.report_location site_report) ->
        Schema.id h' = Schema.id t) ->
     Schema.id h = Schema.absorbing_hotspot grid_distance 2%N site_report [older] /\
     forall uuid',
       Schema.absorbing_hotspot grid_distance uuid' site_report [newer; older]
       = Schema.absorbing_hotspot grid_distance 2%N site_report [older]).
Proof.
  intros older newer.
  assert (Hrun : Schema.aggregate_reports_to_hotspots grid_distance 2%N 5%Z
                   site_report [older] = Ok [older; newer])
    by (vm_compute; reflexivity).
  assert (Hperm : Permutation [newer; older] [older; newer])
    by apply perm_swap.
  split; [exact grid_distance_self|]. split; [exact Hrun|].
  split; [exact Hperm|].
  exact (absorbed_report_is_found grid_distance 2%N 5%Z site_report [older]
           [older; newer] [newer; older] grid_distance_self Hrun Hperm).
Defined.

Lemma report_is_created_iff_witness :
  let reportData := mkReportData 28.5 77.25 db_85_5 "traffic" (Some false) in
  let c := mkClient true (Some 7%N) [] in
  let seeded := [Schema.mkHotspot 1 plaza 60 1 0 0] in
  let db := mkDatabase [7%N] [] seeded in
  let db' := mkDatabase [7%N] [plaza_report] seeded in
  isOnline c = true /\
  createReportMutation grid_distance 0%Z reportData c db
    = (Created plaza_report, c, db') /\
  c = c /\
  exists u latitude longitude hotspot_record,
    user c = Some u /\
    truthy (rd_is_anonymous reportData) = false /\
    In u (db_users db) /\
    coordinate (JSON_number (rd_latitude reportData)) = Some latitude /\
    coordinate (JSON_number (rd_longitude reportData)) = Some longitude /\
    (if PrimFloat.is_finite (rd_noise_db reportData)
     then within 0 120 (rd_noise_db reportData) else true) = true /\
    In (rd_noise_type reportData) noise_types /\
    plaza_report
    = Schema.mkReport (Some u) latitude longitude
        (JSON_number (rd_noise_db reportData))
        (rd_noise_type reportData) false "pending" /\
    Schema.select_nearest grid_distance (db_hotspots db)
      (Schema.report_location plaza_report) cluster_radius
    = Some hotspot_record /\
    db' = mkDatabase (db_users db) (db_reports db ++ [plaza_report])
            (db_hotspots db).
Proof.
  intros reportData c seeded db db'.
  assert (Hon : isOnline c = true) by reflexivity.
  assert (Hrun : createReportMutation grid_distance 0%Z reportData c db
                 = (Created plaza_report, c, db')) by (vm_compute; reflexivity).
  split; [exact Hon|]. split; [exact Hrun|].
  exact (proj1 (report_is_created_iff grid_distance 0%Z reportData c db
                  plaza_report c db' Hon) Hrun).
Defined.

Lemma anonymous_report_is_never_stored_witness :
  let reportData := mkReportData 28.5 77.25 db_85_5 "traffic" (Some true) in
  let c := mkClient true (Some 7%N) [] in
  let db := mkDatabase [7%N] [] [] in
  isOnline c = true /\
  truthy (rd_is_anonymous reportData) = true /\
  createReportMutation grid_distance 0%Z reportData c db
    = (Rejected invalid_text_representation, c, db).
Proof.
  intros reportData c db.
  assert (Hon : isOnline c = true) by reflexivity.
  assert (Hanon : truthy (rd_is_anonymous reportData) = true) by reflexivity.
  split; [exact Hon|]. split; [exact Hanon|].
  exact (anonymous_report_is_never_stored grid_distance 0%Z reportData
           c db Hon Hanon).
Defined.

Lemma calculateDistance_along_meridian_witness :
  (Rabs (90 - 0) <= 180)%R /\
  locationUtils.calculateDistance 0 77 90 77
  = (6371 * (Rabs (90 - 0) * PI / 180))%R.
Proof.
  assert (H : (Rabs (90 - 0) <= 180)%R) by (apply Rabs_le; lra).
  split; [exact H|].
  exact (calculateDistance_along_meridian 0 90 77 H).
Defined.

Lemma louder_recording_reads_lower_witness :
  let quiet := [1; -2]%R in
  let loud := [32767; -32767]%R in
  quiet <> [] /\ loud <> [] /\
  Forall (fun s => (Rabs s <= 32767)%R) quiet /\
  Forall (fun s => (Rabs s <= 32767)%R) loud /\
  (fold_left (fun acc sample => acc + sample * sample) quiet 0
     / INR (List.length quiet)
   <= fold_left (fun acc sample => acc + sample * sample) loud 0
     / INR (List.length loud))%R /\
  exists db1 db2,
    audioUtils.calculateDbFromAudio (Some quiet) = Finite db1 /\
    audioUtils.calculateDbFromAudio (Some loud) = Finite db2 /\
    (db2 <= db1)%R /\
    (Forall (fun s => Rabs s = 32767%R) loud -> db2 = 0%R).
Proof.
  intros quiet loud.
  assert (Hne1 : quiet <> []) by discriminate.
  assert (Hne2 : loud <> []) by discriminate.
  assert (Hall1 : Forall (fun s => (Rabs s <= 32767)%R) quiet).
  { repeat (apply Forall_cons; [apply Rabs_le; lra|]). apply Forall_nil. }
  assert (Hall2 : Forall (fun s => (Rabs s <= 32767)%R) loud).
  { repeat (apply Forall_cons; [apply Rabs_le; lra|]). apply Forall_nil. }
  assert (Hle : (fold_left (fun acc sample => acc + sample * sample) quiet 0
                   / INR (List.length quiet)
                 <= fold_left (fun acc sample => acc + sample * sample) loud 0
                   / INR (List.length loud))%R).
  { simpl. lra. }
  split; [exact Hne1|]. split; [exact Hne2|]. split; [exact Hall1|].
  split; [exact Hall2|]. split; [exact Hle|].
  exact (louder_recording_reads_lower quiet loud Hne1 Hne2 Hall1 Hall2 Hle).
Defined.

Lemma offline_report_is_queued_and_removed_witness :
  let earlier := mkReportData 28.5 77.25 db_85_5 "traffic" (Some false) in
  let reportData := mkReportData 28.75 77.125 150 "construction" None in
  let c := mkClient false (Some 7%N) [(1000%Z, earlier)] in
  let db := mkDatabase [7%N] [] [] in
  isOnline c = false /\
  exists c',
    createReportMutation grid_distance 2000%Z reportData c db
      = (Stored (2000%Z, reportData), c', db) /\
    offlineReports c' = offlineReports c ++ [(2000%Z, reportData)] /\
    removeOfflineReport 2000%Z c' = removeOfflineReport 2000%Z c /\
    (Forall (fun q => fst q <> 2000%Z) (offlineReports c) ->
     removeOfflineReport 2000%Z c' = c) /\
    (forall q, In q (offlineReports (removeOfflineReport 2000%Z c')) <->
               In q (offlineReports c) /\ fst q <> 2000%Z) /\
    offlineReports (clearOfflineReports c') = [].
Proof.
  intros earlier reportData c db.
  assert (Hoff : isOnline c = false) by reflexivity.
  split; [exact Hoff|].
  exact (offline_report_is_queued_and_removed grid_distance 2000%Z
           reportData c db Hoff).
Defined.
